(** * rt-docetl: dataset providers and pipeline sinks

    A shallow embedding of [server/app/providers/datasets.py] and
    [server/app/providers/pipelines.py], together with the parts of the
    Python runtime they call (text codecs, [json], [csv], [pathlib], the
    file system, the HTTP client and the storage client).

    Conventions of the embedding:
    - a Python [str] is a list of code points ([list N]), a Python [bytes]
      a list of [Byte.byte];
    - a Python [dict] is an association list in insertion order;
    - effectful code runs in a state-and-exception monad over a [World]
      holding the file system, the remote object store, the clock and the
      lazily built storage clients;
    - the runtime model leaves out resource limits (recursion depth,
      integer digit limits, disk space), permissions, symbolic links and
      [..] resolution: two distinct normalised paths are distinct files. *)

From Stdlib Require Import NArith ZArith List String Ascii Lia Bool.
From stdpp Require Import base option gmap strings list.

Local Open Scope N_scope.

(** ** Python [str] and [bytes] *)

Module Py.

Abbreviation str := (list N).
Abbreviation bytes := (list Byte.byte).

(** A string literal, as the list of its code points. *)
Definition u (s : string) : str :=
  List.map N_of_ascii (list_ascii_of_string s).

Definition str_eqb (a b : str) : bool := bool_decide (a = b).

(** [s.startswith(p)] *)
Fixpoint startswith (s p : str) : bool :=
  match p, s with
  | [], _ => true
  | _ :: _, [] => false
  | c :: p', d :: s' => (c =? d) && startswith s' p'
  end.

(** [s.endswith(p)] *)
Definition endswith (s p : str) : bool :=
  startswith (rev s) (rev p).

(** ASCII letters are the only code points whose lower-case form is an
    ASCII letter other than [i] and [k]; every other code point is left
    alone, which is exact for the suffix test [.csv] made on the result. *)
Definition lower_char (c : N) : N :=
  if (65 <=? c) && (c <=? 90) then c + 32 else c.

Definition lower (s : str) : str := List.map lower_char s.

(** [c in s] for a single code point. *)
Definition contains (s : str) (c : N) : bool :=
  existsb (N.eqb c) s.

(** [s.split(sep)] for a one-character separator: never empty. *)
Fixpoint split_on {A} (is_sep : A -> bool) (s : list A) : list (list A) :=
  match s with
  | [] => [[]]
  | c :: r =>
      if is_sep c then [] :: split_on is_sep r
      else match split_on is_sep r with
           | [] => [[c]]
           | seg :: segs => (c :: seg) :: segs
           end
  end.

Definition split (s : str) (sep : N) : list str :=
  split_on (N.eqb sep) s.

(** [l[-1]] on a list known to be non-empty. *)
Definition last_item {A} (l : list (list A)) : list A := List.last l [].

(** [x or default] on strings: the empty string is falsy. *)
Definition str_or (x default : str) : str :=
  match x with [] => default | _ => x end.

(** [s.replace(old, new)] for a non-empty [old]: non-overlapping
    occurrences, leftmost first.  [skip] counts the characters of a matched
    occurrence still to be dropped. *)
Fixpoint replace_from (old new s : str) (skip : nat) : str :=
  match s with
  | [] => []
  | c :: r =>
      match skip with
      | S k => replace_from old new r k
      | O =>
          if startswith s old
          then new ++ replace_from old new r (length old - 1)
          else c :: replace_from old new r 0
      end
  end.

Definition replace (s old new : str) : str := replace_from old new s 0.

(** [sep.join(parts)] *)
Fixpoint join (sep : str) (parts : list str) : str :=
  match parts with
  | [] => []
  | [p] => p
  | p :: ps => p ++ sep ++ join sep ps
  end.

(** [s.rstrip(chars)] for a one-character set. *)
Fixpoint lstrip (s : str) (c : N) : str :=
  match s with
  | d :: r => if d =? c then lstrip r c else s
  | [] => []
  end.

Definition rstrip (s : str) (c : N) : str := rev (lstrip (rev s) c).

(** ** Text codecs *)

Definition bvals (b : bytes) : list N := List.map Byte.to_N b.

Definition is_cont (b : N) : bool := (0x80 <=? b) && (b <=? 0xBF).
Definition is_surrogate (c : N) : bool := (0xD800 <=? c) && (c <=? 0xDFFF).
Definition is_high_surrogate (c : N) : bool := (0xD800 <=? c) && (c <=? 0xDBFF).
Definition is_low_surrogate (c : N) : bool := (0xDC00 <=? c) && (c <=? 0xDFFF).

(** The UTF-8 decoder on byte values.  With [pass] (the [surrogatepass]
    error handler) a three-byte sequence that encodes a surrogate is
    accepted; every other malformed sequence is an error in both modes. *)
Fixpoint utf8_decode_vals (pass : bool) (b : list N) : option str :=
  match b with
  | [] => Some []
  | b0 :: r =>
      if b0 <? 0x80 then cons b0 <$> utf8_decode_vals pass r
      else if b0 <? 0xC2 then None
      else if b0 <? 0xE0 then
        match r with
        | b1 :: r1 =>
            if is_cont b1
            then cons (N.lor (N.shiftl (N.land b0 0x1F) 6) (N.land b1 0x3F))
                   <$> utf8_decode_vals pass r1
            else None
        | _ => None
        end
      else if b0 <? 0xF0 then
        match r with
        | b1 :: b2 :: r2 =>
            let cp := N.lor (N.shiftl (N.land b0 0x0F) 12)
                        (N.lor (N.shiftl (N.land b1 0x3F) 6) (N.land b2 0x3F)) in
            if is_cont b1 && is_cont b2 && (0x800 <=? cp)
               && (pass || negb (is_surrogate cp))
            then cons cp <$> utf8_decode_vals pass r2
            else None
        | _ => None
        end
      else if b0 <? 0xF5 then
        match r with
        | b1 :: b2 :: b3 :: r3 =>
            let cp := N.lor (N.shiftl (N.land b0 0x07) 18)
                        (N.lor (N.shiftl (N.land b1 0x3F) 12)
                           (N.lor (N.shiftl (N.land b2 0x3F) 6) (N.land b3 0x3F))) in
            if is_cont b1 && is_cont b2 && is_cont b3
               && (0x10000 <=? cp) && (cp <=? 0x10FFFF)
            then cons cp <$> utf8_decode_vals pass r3
            else None
        | _ => None
        end
      else None
  end.

(** [b.decode("utf-8")] *)
Definition utf8_decode (b : bytes) : option str :=
  utf8_decode_vals false (bvals b).

(** Sixteen-bit code units of a byte string; [None] on an odd length. *)
Fixpoint utf16_units (le : bool) (b : list N) : option (list N) :=
  match b with
  | [] => Some []
  | x :: r =>
      match r with
      | y :: r' =>
          cons (if le then N.lor (N.shiftl y 8) x else N.lor (N.shiftl x 8) y)
            <$> utf16_units le r'
      | [] => None
      end
  end.

(** Surrogate pairs are joined; with [surrogatepass] a lone surrogate
    stays as it is. *)
Fixpoint utf16_join (units : list N) : str :=
  match units with
  | [] => []
  | hi :: r =>
      match r with
      | lo :: r' =>
          if is_high_surrogate hi && is_low_surrogate lo
          then (0x10000 + N.lor (N.shiftl (N.land hi 0x3FF) 10) (N.land lo 0x3FF))
                 :: utf16_join r'
          else hi :: utf16_join r
      | [] => [hi]
      end
  end.

Definition utf16_decode_vals (le : bool) (b : list N) : option str :=
  utf16_join <$> utf16_units le b.

(** Thirty-two-bit units; with [surrogatepass] only a truncated unit or a
    value above U+10FFFF is an error. *)
Fixpoint utf32_decode_vals (le : bool) (b : list N) : option str :=
  match b with
  | [] => Some []
  | b0 :: r =>
      match r with
      | b1 :: b2 :: b3 :: r' =>
          let cp :=
            if le
            then N.lor (N.shiftl b3 24) (N.lor (N.shiftl b2 16) (N.lor (N.shiftl b1 8) b0))
            else N.lor (N.shiftl b0 24) (N.lor (N.shiftl b1 16) (N.lor (N.shiftl b2 8) b3)) in
          if cp <=? 0x10FFFF then cons cp <$> utf32_decode_vals le r' else None
      | _ => None
      end
  end.

(** [s.encode("utf-8")]: surrogates cannot be encoded. *)
Definition utf8_encode_char (c : N) : option (list N) :=
  if c <? 0x80 then Some [c]
  else if c <? 0x800 then
    Some [N.lor 0xC0 (N.shiftr c 6); N.lor 0x80 (N.land c 0x3F)]
  else if c <? 0x10000 then
    if is_surrogate c then None
    else Some [N.lor 0xE0 (N.shiftr c 12);
               N.lor 0x80 (N.land (N.shiftr c 6) 0x3F);
               N.lor 0x80 (N.land c 0x3F)]
  else if c <=? 0x10FFFF then
    Some [N.lor 0xF0 (N.shiftr c 18);
          N.lor 0x80 (N.land (N.shiftr c 12) 0x3F);
          N.lor 0x80 (N.land (N.shiftr c 6) 0x3F);
          N.lor 0x80 (N.land c 0x3F)]
  else None.

Fixpoint of_vals (l : list N) : option bytes :=
  match l with
  | [] => Some []
  | x :: r =>
      match Byte.of_N x, of_vals r with
      | Some b, Some bs => Some (b :: bs)
      | _, _ => None
      end
  end.

Fixpoint utf8_encode_vals (s : str) : option (list N) :=
  match s with
  | [] => Some []
  | c :: r =>
      match utf8_encode_char c, utf8_encode_vals r with
      | Some e, Some es => Some (e ++ es)
      | _, _ => None
      end
  end.

Definition utf8_encode (s : str) : option bytes :=
  utf8_encode_vals s ≫= of_vals.

(** The encodings [json.detect_encoding] can answer. *)
Inductive encoding :=
  | UTF8 | UTF8_SIG | UTF16 | UTF16_LE | UTF16_BE | UTF32 | UTF32_LE | UTF32_BE.

(** [b.decode(enc, "surrogatepass")].  [UTF16], [UTF32] and [UTF8_SIG] are
    only ever chosen for input that starts with the matching byte-order
    mark, which they consume. *)
Definition decode_surrogatepass (enc : encoding) (b : bytes) : option str :=
  let v := bvals b in
  match enc with
  | UTF8 => utf8_decode_vals true v
  | UTF8_SIG =>
      match v with
      | 0xEF :: 0xBB :: 0xBF :: r => utf8_decode_vals true r
      | _ => utf8_decode_vals true v
      end
  | UTF16_LE => utf16_decode_vals true v
  | UTF16_BE => utf16_decode_vals false v
  | UTF16 =>
      match v with
      | 0xFF :: 0xFE :: r => utf16_decode_vals true r
      | 0xFE :: 0xFF :: r => utf16_decode_vals false r
      | _ => utf16_decode_vals true v
      end
  | UTF32_LE => utf32_decode_vals true v
  | UTF32_BE => utf32_decode_vals false v
  | UTF32 =>
      match v with
      | 0xFF :: 0xFE :: 0 :: 0 :: r => utf32_decode_vals true r
      | 0 :: 0 :: 0xFE :: 0xFF :: r => utf32_decode_vals false r
      | _ => utf32_decode_vals true v
      end
  end.

(** ** Python values and [dict] *)

(** The keys this program puts in a dict: strings, and [None] (the
    [restkey] of [csv.DictReader]). *)
Inductive pykey := KNone | KStr (s : str).

#[global] Instance pykey_eq_dec : EqDecision pykey.
Proof. solve_decision. Defined.

(** A number read by [json] is kept as its lexeme: no claim depends on
    its value. *)
#[warnings="-register-all"]
Inductive py :=
  | PyNone
  | PyBool (b : bool)
  | PyNum (lexeme : str)
  | PyStr (s : str)
  | PyList (l : list py)
  | PyDict (d : list (pykey * py)).

(** [d[k] = v]: the value of an existing key is replaced where it stands,
    a new key goes last. *)
Fixpoint dict_set {K V} `{EqDecision K} (k : K) (v : V) (d : list (K * V))
  : list (K * V) :=
  match d with
  | [] => [(k, v)]
  | (k', v') :: r =>
      if decide (k = k') then (k, v) :: r else (k', v') :: dict_set k v r
  end.

(** [d.get(k)] *)
Fixpoint dict_get {K V} `{EqDecision K} (k : K) (d : list (K * V)) : option V :=
  match d with
  | [] => None
  | (k', v') :: r => if decide (k = k') then Some v' else dict_get k r
  end.

(** [d.update(pairs)], which is also [dict(pairs)] from the empty dict and
    [d | e]. *)
Definition dict_update {K V} `{EqDecision K} (d pairs : list (K * V))
  : list (K * V) :=
  fold_left (fun acc kv => dict_set kv.1 kv.2 acc) pairs d.

Definition dict_of {K V} `{EqDecision K} (pairs : list (K * V)) : list (K * V) :=
  dict_update [] pairs.

Definition keys {K V} (d : list (K * V)) : list K := List.map fst d.

(** ** The [json] module *)

Module Json.

(** [json.detect_encoding] *)
Definition detect_encoding (b : bytes) : encoding :=
  let v := bvals b in
  match v with
  | 0 :: 0 :: 0xFE :: 0xFF :: _ => UTF32
  | 0xFF :: 0xFE :: 0 :: 0 :: _ => UTF32
  | 0xFE :: 0xFF :: _ => UTF16
  | 0xFF :: 0xFE :: _ => UTF16
  | 0xEF :: 0xBB :: 0xBF :: _ => UTF8_SIG
  | b0 :: b1 :: b2 :: b3 :: _ =>
      if b0 =? 0 then (if b1 =? 0 then UTF32_BE else UTF16_BE)
      else if b1 =? 0 then
        (if negb (b2 =? 0) || negb (b3 =? 0) then UTF16_LE else UTF32_LE)
      else UTF8
  | [b0; b1] =>
      if b0 =? 0 then UTF16_BE
      else if b1 =? 0 then UTF16_LE
      else UTF8
  | _ => UTF8
  end.

Inductive scan (A : Type) :=
  | Scanned (a : A)
  | Invalid
  | Exhausted.
Arguments Scanned {A} a.
Arguments Invalid {A}.
Arguments Exhausted {A}.

Definition is_ws (c : N) : bool :=
  (c =? 32) || (c =? 9) || (c =? 10) || (c =? 13).

Fixpoint skip_ws (s : str) : str :=
  match s with
  | c :: r => if is_ws c then skip_ws r else s
  | [] => []
  end.

Definition hex_digit (c : N) : option N :=
  if (48 <=? c) && (c <=? 57) then Some (c - 48)
  else if (97 <=? c) && (c <=? 102) then Some (c - 87)
  else if (65 <=? c) && (c <=? 70) then Some (c - 55)
  else None.

Definition hex4 (a b c d : N) : option N :=
  match hex_digit a, hex_digit b, hex_digit c, hex_digit d with
  | Some x, Some y, Some z, Some w =>
      Some (N.lor (N.shiftl x 12) (N.lor (N.shiftl y 8) (N.lor (N.shiftl z 4) w)))
  | _, _, _, _ => None
  end.

(** The one-character escapes of a JSON string. *)
Definition backslash (e : N) : option N :=
  if e =? 34 then Some 34          (* quotation mark *)
  else if e =? 92 then Some 92     (* reverse solidus *)
  else if e =? 47 then Some 47     (* solidus *)
  else if e =? 98 then Some 8      (* b: backspace *)
  else if e =? 102 then Some 12    (* f: form feed *)
  else if e =? 110 then Some 10    (* n: line feed *)
  else if e =? 114 then Some 13    (* r: carriage return *)
  else if e =? 116 then Some 9     (* t: tab *)
  else None.

Definition push (c : N) (res : option (str * str)) : option (str * str) :=
  match res with
  | Some (s, r) => Some (c :: s, r)
  | None => None
  end.

(** [scanstring] in strict mode, from just after the opening quote: the
    decoded string and the text after the closing quote. *)
Fixpoint scanstring (s : str) : option (str * str) :=
  match s with
  | [] => None
  | c :: r =>
      if c =? 34 then Some ([], r)
      else if c =? 92 then
        match r with
        | [] => None
        | e :: r1 =>
            if e =? 117 then
              match r1 with
              | h1 :: h2 :: h3 :: h4 :: r2 =>
                  match hex4 h1 h2 h3 h4 with
                  | None => None
                  | Some uni =>
                      if is_high_surrogate uni then
                        match r2 with
                        | 92 :: 117 :: l1 :: l2 :: l3 :: l4 :: r3 =>
                            match hex4 l1 l2 l3 l4 with
                            | None => None
                            | Some uni2 =>
                                if is_low_surrogate uni2
                                then push (0x10000 +
                                             N.lor (N.shiftl (uni - 0xD800) 10)
                                               (uni2 - 0xDC00))
                                       (scanstring r3)
                                else push uni (scanstring r2)
                            end
                        | _ => push uni (scanstring r2)
                        end
                      else push uni (scanstring r2)
                  end
              | _ => None
              end
            else
              match backslash e with
              | Some ch => push ch (scanstring r1)
              | None => None
              end
        end
      else if c <? 0x20 then None
      else push c (scanstring r)
  end.

Definition is_digit (c : N) : bool := (48 <=? c) && (c <=? 57).

(** The longest run of ASCII digits at the front of [s]. *)
Fixpoint span_digits (s : str) : str * str :=
  match s with
  | c :: r =>
      if is_digit c then let '(d, t) := span_digits r in (c :: d, t)
      else ([], s)
  | [] => ([], [])
  end.

(** The number grammar of the scanner: an optional minus, then zero or a
    non-zero digit followed by digits, then an optional fraction (a dot and
    at least one digit), then an optional exponent (e or E, an optional
    sign, at least one digit).  Longest match at the front of [s]: the
    lexeme and the rest. *)
Definition match_number (s : str) : option (str * str) :=
  let '(sign, s1) :=
    match s with
    | 45 :: r => ([45], r)
    | _ => ([], s)
    end in
  let int_part :=
    match s1 with
    | c :: r =>
        if c =? 48 then Some ([48], r)
        else if is_digit c then let '(d, t) := span_digits r in Some (c :: d, t)
        else None
    | [] => None
    end in
  match int_part with
  | None => None
  | Some (i, s2) =>
      let '(frac, s3) :=
        match s2 with
        | 46 :: d :: r =>
            if is_digit d then let '(ds, t) := span_digits r in (46 :: d :: ds, t)
            else ([], s2)
        | _ => ([], s2)
        end in
      let '(exp, s4) :=
        match s3 with
        | e :: r =>
            if (e =? 101) || (e =? 69) then
              let '(sg, r1) :=
                match r with
                | c :: r' => if (c =? 45) || (c =? 43) then ([c], r') else ([], r)
                | [] => ([], r)
                end in
              match span_digits r1 with
              | ([], _) => ([], s3)
              | (ds, t) => (e :: sg ++ ds, t)
              end
            else ([], s3)
        | [] => ([], s3)
        end in
      Some (sign ++ i ++ frac ++ exp, s4)
  end.

(** [scan_once], [JSONArray] and [JSONObject].  [scan_once] starts at a
    non-blank character; [array_items] starts at the first character of an
    element, [object_members] just after the opening quote of a key.
    [acc] holds what was read so far, newest first. *)
Fixpoint scan_once (fuel : nat) (s : str) : scan (py * str) :=
  match fuel with
  | O => Exhausted
  | S f =>
      match s with
      | [] => Invalid
      | c :: r =>
          if c =? 34 then
            match scanstring r with
            | Some (x, t) => Scanned (PyStr x, t)
            | None => Invalid
            end
          else if c =? 123 then
            match skip_ws r with
            | 125 :: t => Scanned (PyDict [], t)
            | 34 :: t => object_members f t []
            | _ => Invalid
            end
          else if c =? 91 then
            match skip_ws r with
            | 93 :: t => Scanned (PyList [], t)
            | t => array_items f t []
            end
          else if startswith s (u "null") then Scanned (PyNone, drop 4 s)
          else if startswith s (u "true") then Scanned (PyBool true, drop 4 s)
          else if startswith s (u "false") then Scanned (PyBool false, drop 5 s)
          else
            match match_number s with
            | Some (lexeme, t) => Scanned (PyNum lexeme, t)
            | None =>
                if startswith s (u "NaN") then Scanned (PyNum (u "NaN"), drop 3 s)
                else if startswith s (u "Infinity")
                then Scanned (PyNum (u "Infinity"), drop 8 s)
                else if startswith s (u "-Infinity")
                then Scanned (PyNum (u "-Infinity"), drop 9 s)
                else Invalid
            end
      end
  end
with array_items (fuel : nat) (s : str) (acc : list py) : scan (py * str) :=
  match fuel with
  | O => Exhausted
  | S f =>
      match scan_once f s with
      | Scanned (v, t) =>
          match skip_ws t with
          | 93 :: t' => Scanned (PyList (rev (v :: acc)), t')
          | 44 :: t' => array_items f (skip_ws t') (v :: acc)
          | _ => Invalid
          end
      | Invalid => Invalid
      | Exhausted => Exhausted
      end
  end
with object_members (fuel : nat) (s : str) (acc : list (pykey * py))
  : scan (py * str) :=
  match fuel with
  | O => Exhausted
  | S f =>
      match scanstring s with
      | None => Invalid
      | Some (key, t) =>
          match skip_ws t with
          | 58 :: t1 =>
              match scan_once f (skip_ws t1) with
              | Scanned (v, t2) =>
                  match skip_ws t2 with
                  | 125 :: t3 =>
                      Scanned (PyDict (dict_of (rev ((KStr key, v) :: acc))), t3)
                  | 44 :: t3 =>
                      match skip_ws t3 with
                      | 34 :: t4 => object_members f t4 ((KStr key, v) :: acc)
                      | _ => Invalid
                      end
                  | _ => Invalid
                  end
              | Invalid => Invalid
              | Exhausted => Exhausted
              end
          | _ => Invalid
          end
      end
  end.

(** Fuel that always suffices for a text of this length. *)
Definition fuel_for (s : str) : nat := 2 * length s + 2.

(** [JSONDecoder.decode]: one value, blanks allowed around it. *)
Definition decode (s : str) : scan py :=
  match scan_once (fuel_for s) (skip_ws s) with
  | Scanned (v, t) =>
      match skip_ws t with
      | [] => Scanned v
      | _ => Invalid
      end
  | Invalid => Invalid
  | Exhausted => Exhausted
  end.

Inductive loads_result :=
  | Loaded (v : py)
  | UnicodeDecodeError_raised
  | JSONDecodeError_raised.

(** [json.loads(b)] on bytes. *)
Definition loads (b : bytes) : loads_result :=
  match decode_surrogatepass (detect_encoding b) b with
  | None => UnicodeDecodeError_raised
  | Some text =>
      match decode text with
      | Scanned v => Loaded v
      | _ => JSONDecodeError_raised
      end
  end.

Definition hex_char (d : N) : N := if d <? 10 then 48 + d else 87 + d.

(** [\uXXXX] with lower-case digits. *)
Definition u_escape (n : N) : str :=
  [92; 117;
   hex_char (N.land (N.shiftr n 12) 0xF);
   hex_char (N.land (N.shiftr n 8) 0xF);
   hex_char (N.land (N.shiftr n 4) 0xF);
   hex_char (N.land n 0xF)].

(** One character of [encode_basestring_ascii]. *)
Definition escape_char (c : N) : str :=
  if c =? 34 then [92; 34]
  else if c =? 92 then [92; 92]
  else if c =? 10 then [92; 110]
  else if c =? 13 then [92; 114]
  else if c =? 9 then [92; 116]
  else if c =? 8 then [92; 98]
  else if c =? 12 then [92; 102]
  else if (32 <=? c) && (c <=? 126) then [c]
  else if c <? 0x10000 then u_escape c
  else
    let n := c - 0x10000 in
    u_escape (N.lor 0xD800 (N.land (N.shiftr n 10) 0x3FF))
      ++ u_escape (N.lor 0xDC00 (N.land n 0x3FF)).

Definition encode_basestring_ascii (s : str) : str :=
  34 :: flat_map escape_char s ++ [34].

Definition key_text (k : pykey) : str :=
  match k with
  | KNone => u "null"
  | KStr s => s
  end.

(** [json.dumps(v)] with the default separators and [ensure_ascii]. *)
Fixpoint dumps (v : py) : str :=
  match v with
  | PyNone => u "null"
  | PyBool true => u "true"
  | PyBool false => u "false"
  | PyNum lexeme => lexeme
  | PyStr s => encode_basestring_ascii s
  | PyList l => 91 :: join (u ", ") (List.map dumps l) ++ [93]
  | PyDict d =>
      123 :: join (u ", ")
               (List.map (fun kv =>
                    encode_basestring_ascii (key_text kv.1) ++ u ": " ++ dumps kv.2) d)
          ++ [125]
  end.

End Json.

(** ** [str.splitlines] and the [csv] module *)

Definition is_linebreak (c : N) : bool :=
  ((10 <=? c) && (c <=? 13)) || ((28 <=? c) && (c <=? 30))
  || (c =? 0x85) || (c =? 0x2028) || (c =? 0x2029).

(** [s.splitlines()]: CR LF counts as one boundary, and no empty last
    line is reported. *)
Fixpoint splitlines (s : str) : list str :=
  match s with
  | [] => []
  | c :: r =>
      if c =? 13 then
        match r with
        | 10 :: r' => [] :: splitlines r'
        | _ => [] :: splitlines r
        end
      else if is_linebreak c then [] :: splitlines r
      else
        match splitlines r with
        | [] => [[c]]
        | l :: ls => (c :: l) :: ls
        end
  end.

Module Csv.

(** The reader of the [excel] dialect: delimiter comma, quote character
    the double quote with doubling, no escape character, not strict.  The
    two escape states of the C reader are unreachable without an escape
    character and are left out. *)
Inductive State :=
  | START_RECORD
  | START_FIELD
  | IN_FIELD
  | IN_QUOTED_FIELD
  | QUOTE_IN_QUOTED_FIELD
  | EAT_CRNL.

#[global] Instance State_eq_dec : EqDecision State.
Proof. solve_decision. Defined.

(** [field] and [fields] are kept newest first. *)
Record Reader := mkReader {
  state : State;
  field : str;
  fields : list str
}.

Definition field_limit : N := 131072.
Definition delimiter : N := 44.
Definition quotechar : N := 34.

Definition parse_reset : Reader := mkReader START_RECORD [] [].

(** [None] is [csv.Error]. *)
Definition parse_add_char (r : Reader) (c : N) : option Reader :=
  if field_limit <=? N.of_nat (length (field r)) then None
  else Some (mkReader (state r) (c :: field r) (fields r)).

Definition parse_save_field (r : Reader) : Reader :=
  mkReader (state r) [] (rev (field r) :: fields r).

Definition set_state (st : State) (r : Reader) : Reader :=
  mkReader st (field r) (fields r).

Definition is_nl (c : N) : bool := (c =? 10) || (c =? 13).

(** [parse_process_char]; the character [None] is the end-of-line mark the
    reader feeds after each line. *)
Definition parse_process_char (r : Reader) (c : option N) : option Reader :=
  let start_field (r : Reader) :=
    match c with
    | None => Some (set_state START_RECORD (parse_save_field r))
    | Some ch =>
        if is_nl ch then Some (set_state EAT_CRNL (parse_save_field r))
        else if ch =? quotechar then Some (set_state IN_QUOTED_FIELD r)
        else if ch =? delimiter then Some (parse_save_field r)
        else set_state IN_FIELD <$> parse_add_char r ch
    end in
  match state r with
  | START_RECORD =>
      match c with
      | None => Some r
      | Some ch =>
          if is_nl ch then Some (set_state EAT_CRNL r)
          else start_field (set_state START_FIELD r)
      end
  | START_FIELD => start_field r
  | IN_FIELD =>
      match c with
      | None => Some (set_state START_RECORD (parse_save_field r))
      | Some ch =>
          if is_nl ch then Some (set_state EAT_CRNL (parse_save_field r))
          else if ch =? delimiter
          then Some (set_state START_FIELD (parse_save_field r))
          else parse_add_char r ch
      end
  | IN_QUOTED_FIELD =>
      match c with
      | None => Some r
      | Some ch =>
          if ch =? quotechar then Some (set_state QUOTE_IN_QUOTED_FIELD r)
          else parse_add_char r ch
      end
  | QUOTE_IN_QUOTED_FIELD =>
      match c with
      | None => Some (set_state START_RECORD (parse_save_field r))
      | Some ch =>
          if ch =? quotechar then set_state IN_QUOTED_FIELD <$> parse_add_char r ch
          else if ch =? delimiter
          then Some (set_state START_FIELD (parse_save_field r))
          else if is_nl ch then Some (set_state EAT_CRNL (parse_save_field r))
          else set_state IN_FIELD <$> parse_add_char r ch
      end
  | EAT_CRNL =>
      match c with
      | None => Some (set_state START_RECORD r)
      | Some ch => if is_nl ch then Some r else None
      end
  end.

(** One line of input: its characters, then the end-of-line mark. *)
Fixpoint feed_line (r : Reader) (line : str) : option Reader :=
  match line with
  | [] => parse_process_char r None
  | c :: l => parse_process_char r (Some c) ≫= fun r' => feed_line r' l
  end.

(** [list(csv.reader(lines))]: a record ends with the line after which the
    reader is back in [START_RECORD]; input that ends inside a quoted
    field still gives the record read so far. *)
Fixpoint reader_rows (lines : list str) (r : Reader) : option (list (list str)) :=
  match lines with
  | [] =>
      if bool_decide (field r ≠ []) || bool_decide (state r = IN_QUOTED_FIELD)
      then Some [rev (fields (parse_save_field r))]
      else Some []
  | l :: ls =>
      match feed_line r l with
      | None => None
      | Some r' =>
          if bool_decide (state r' = START_RECORD)
          then cons (rev (fields r')) <$> reader_rows ls parse_reset
          else reader_rows ls r'
      end
  end.

Definition reader (lines : list str) : option (list (list str)) :=
  reader_rows lines parse_reset.

(** The dict [DictReader.__next__] builds from one row: the zipped
    pairs, then the surplus cells under the key [None], or [None] for the
    field names the row is too short for. *)
Definition row_dict (fieldnames row : list str) : py :=
  let d := dict_of (zip (KStr <$> fieldnames) (PyStr <$> row)) in
  let lf := length fieldnames in
  let lr := length row in
  if (lf <? lr)%nat then PyDict (dict_set KNone (PyList (PyStr <$> drop lf row)) d)
  else PyDict (dict_update d ((fun k => (KStr k, PyNone)) <$> drop lr fieldnames)).

(** [list(csv.DictReader(lines))]: the first row gives the field names,
    blank rows after it are skipped. *)
Definition DictReader (lines : list str) : option (list py) :=
  match reader lines with
  | None => None
  | Some [] => Some []
  | Some (fieldnames :: rows) =>
      Some (row_dict fieldnames <$> filter (fun row => row ≠ []) rows)
  end.

End Csv.

(** ** [pathlib] on a POSIX system *)

Record Path := mkPath {
  root : str;          (* the empty string, one slash or two slashes *)
  parts : list str     (* no empty part and no part that is a single dot *)
}.

#[global] Instance Path_eq_dec : EqDecision Path.
Proof. solve_decision. Defined.

#[global] Instance Path_countable : Countable Path.
Proof.
  apply (inj_countable' (fun p => (root p, parts p))
           (fun rp => mkPath rp.1 rp.2)).
  by intros [].
Defined.

(** [posixpath.splitroot]: exactly two leading slashes are kept apart. *)
Definition splitroot (s : str) : str * str :=
  match s with
  | 47 :: 47 :: 47 :: _ => ([47], drop 1 s)
  | 47 :: 47 :: r => ([47; 47], r)
  | 47 :: r => ([47], r)
  | _ => ([], s)
  end.

Definition is_part (x : str) : bool :=
  negb (bool_decide (x = [])) && negb (bool_decide (x = [46])).

(** [Path(s)] *)
Definition Path_of (s : str) : Path :=
  let '(rt, rel) := splitroot s in
  mkPath rt (List.filter is_part (split rel 47)).

(** [p / seg]: an absolute segment replaces what came before. *)
Definition joinpath (p : Path) (seg : str) : Path :=
  if startswith seg [47] then Path_of seg
  else mkPath (root p) (parts p ++ parts (Path_of seg)).

(** [str(p)] *)
Definition Path_str (p : Path) : str :=
  match root p, parts p with
  | [], [] => [46]
  | rt, ps => rt ++ join [47] ps
  end.

(** [p.name] *)
Definition Path_name (p : Path) : str := List.last (parts p) [].

(** [p.parent] *)
Definition Path_parent (p : Path) : Path :=
  mkPath (root p) (removelast (parts p)).

(** ** Exceptions *)

(** The [detail] of an [HTTPException] built with the text of another
    exception carries only its fixed part here. *)
Inductive exn :=
  | HTTPException (status_code : N) (detail : str)
  | UnicodeDecodeError
  | UnicodeEncodeError
  | CsvError
  | FileNotFoundError
  | FileExistsError
  | IsADirectoryError
  | NotADirectoryError
  | TransportError
  | StorageError (msg : str).

(** ** The world the program runs in *)

Inductive node := File (content : bytes) | Dir.

(** The storage client, an external collaborator: [get_file_from_uri],
    the path it reports back for a stored object (empty when it reports
    none) and the bucket name of its provider (empty when it has none). *)
Record StorageClient := mkStorageClient {
  get_file_from_uri : str -> exn + bytes;
  file_ref_path : str -> str -> str;
  bucket_name : str
}.

(** How [StorageConfig()] and [build_storage_client] turn out in this
    environment. *)
Inductive storage_setup :=
  | ConfigInvalid
  | ConfigDisabled
  | BuildFails (msg : str)
  | BuildOk (client : StorageClient).

(** The layout descriptor of [RTStorageResolver] and its two operations,
    external collaborators as well. *)
Record Layout := mkLayout { bucket : str; env_prefix : str }.

Record Resolver := mkResolver {
  load_layout : option str -> exn + Layout;
  build_unstructured_sv_prefix : Layout -> str -> str -> str
}.

Record datetime := mkDatetime {
  year : N; month : N; day : N;
  hour : N; minute : N; second : N; microsecond : N
}.

(** Modelled from the spec: an object of the remote store behind the
    storage client, which is not among the sources: its content, its
    content type and its object metadata. *)
Record StoredObject := mkStoredObject {
  so_content : bytes;
  so_content_type : str;
  so_metadata : list (str * option str)
}.

Record World := mkWorld {
  fs : gmap Path node;                       (* the file system *)
  objects : gmap str StoredObject;           (* the remote store, by object key *)
  tick : nat;                                (* clock readings taken so far *)
  storage_client : option StorageClient;     (* the [_storage_client] field *)
  (* the environment, which the program only reads *)
  clock : nat -> datetime;                   (* successive readings of the UTC clock *)
  http_get : str -> option (N * bytes);      (* GET following redirects; [None]: no response *)
  storage_env : storage_setup;
  resolver : StorageClient -> Resolver;     (* [RTStorageResolver(storage_client=...)] *)
  env_home : str                             (* DOCETL_HOME_DIR, or the user's home *)
}.

Definition with_fs (f : gmap Path node) (w : World) : World :=
  mkWorld f (objects w) (tick w) (storage_client w)
    (clock w) (http_get w) (storage_env w) (resolver w) (env_home w).

Definition with_objects (o : gmap str StoredObject) (w : World) : World :=
  mkWorld (fs w) o (tick w) (storage_client w)
    (clock w) (http_get w) (storage_env w) (resolver w) (env_home w).

Definition with_tick (t : nat) (w : World) : World :=
  mkWorld (fs w) (objects w) t (storage_client w)
    (clock w) (http_get w) (storage_env w) (resolver w) (env_home w).

Definition with_storage_client (c : option StorageClient) (w : World) : World :=
  mkWorld (fs w) (objects w) (tick w) c
    (clock w) (http_get w) (storage_env w) (resolver w) (env_home w).

(** ** The monad of effectful code: state and exceptions.  What was done
    before an exception is raised stays done. *)

Definition M (A : Type) : Type := World -> (exn + A) * World.

Definition ret {A} (a : A) : M A := fun w => (inr a, w).

Definition raise {A} (e : exn) : M A := fun w => (inl e, w).

Definition bind {A B} (m : M A) (k : A -> M B) : M B :=
  fun w =>
    match m w with
    | (inr a, w') => k a w'
    | (inl e, w') => (inl e, w')
    end.

Definition lift {A} (r : exn + A) : M A := fun w => (r, w).

Notation "'do' x <- m ; k" := (bind m (fun x => k))
  (at level 10, x name, m at level 100, k at level 200).

(** ** File-system operations *)

(** The root and the working directory always exist. *)
Definition is_dir (f : gmap Path node) (p : Path) : bool :=
  match parts p with
  | [] => true
  | _ => match f !! p with Some Dir => true | _ => false end
  end.

(** [p.exists()] *)
Definition Path_exists (p : Path) : M bool :=
  fun w => (inr (is_dir (fs w) p || bool_decide (is_Some (fs w !! p))), w).

(** The directories [mkdir(parents=True, exist_ok=True)] visits, outermost
    first: every non-empty prefix of the path. *)
Definition ancestors (p : Path) : list Path :=
  (fun n => mkPath (root p) (take n (parts p))) <$> seq 1 (length (parts p)).

Fixpoint mkdir_each (ps : list Path) (last_one : Path) (f : gmap Path node)
  : (exn + unit) * gmap Path node :=
  match ps with
  | [] => (inr tt, f)
  | q :: r =>
      match f !! q with
      | Some Dir => mkdir_each r last_one f
      | Some (File _) =>
          (inl (if decide (q = last_one) then FileExistsError
                else NotADirectoryError), f)
      | None => mkdir_each r last_one (<[q := Dir]> f)
      end
  end.

(** [p.mkdir(parents=True, exist_ok=True)] *)
Definition mkdir_parents (p : Path) : M unit :=
  fun w =>
    let '(r, f) := mkdir_each (ancestors p) p (fs w) in
    (r, with_fs f w).

(** [p.write_bytes(content)] *)
Definition write_bytes (p : Path) (content : bytes) : M unit :=
  fun w =>
    if is_dir (fs w) p then (inl IsADirectoryError, w)
    else if is_dir (fs w) (Path_parent p)
    then (inr tt, with_fs (<[p := File content]> (fs w)) w)
    else match fs w !! Path_parent p with
         | Some _ => (inl NotADirectoryError, w)
         | None => (inl FileNotFoundError, w)
         end.

(** [p.write_text(text)], in UTF-8. *)
Definition write_text (p : Path) (text : str) : M unit :=
  match utf8_encode text with
  | Some b => write_bytes p b
  | None => raise UnicodeEncodeError
  end.

(** [p.read_bytes()] *)
Definition read_bytes (p : Path) : M bytes :=
  fun w =>
    if is_dir (fs w) p then (inl IsADirectoryError, w)
    else match fs w !! p with
         | Some (File b) => (inr b, w)
         | _ => (inl FileNotFoundError, w)
         end.

(** [datetime.now(timezone.utc)] *)
Definition now : M datetime :=
  fun w => (inr (clock w (tick w)), with_tick (S (tick w)) w).

(** [str(n)] for a natural number. *)
Fixpoint digits_of (fuel : nat) (n : N) (acc : str) : str :=
  match fuel with
  | O => acc
  | S f =>
      let acc' := (48 + n mod 10) :: acc in
      if n <? 10 then acc' else digits_of f (n / 10) acc'
  end.

Definition str_of_N (n : N) : str := digits_of (S (N.to_nat (N.log2 n))) n [].

(** Zero-padded to at least [w] characters. *)
Definition zfill (w : nat) (s : str) : str :=
  repeat 48 (w - length s) ++ s.

(** [int(s)] for a string of decimal digits. *)
Definition N_of_digits (s : str) : N :=
  fold_left (fun acc c => 10 * acc + (c - 48)) s 0.

End Py.

(** * [server/app/providers/datasets.py] *)

Module Datasets.
Import Py.

(** A truthy optional string: set and not empty. *)
Definition truthy (x : option str) : bool :=
  match x with
  | Some (_ :: _) => true
  | _ => false
  end.

Definition _home_dir : M Path :=
  fun w => (inr (Path_of (env_home w)), w).

Definition _validate_json_content (content : bytes) : exn + unit :=
  match Json.loads content with
  | Json.Loaded _ => inr tt
  | Json.JSONDecodeError_raised =>
      inl (HTTPException 400 (u "Invalid JSON format: "))
  | Json.UnicodeDecodeError_raised => inl UnicodeDecodeError
  end.

Definition _convert_csv_to_json (csv_content : bytes) : exn + bytes :=
  match utf8_decode csv_content with
  | None => inl (HTTPException 400 (u "Invalid CSV encoding"))
  | Some csv_string =>
      match Csv.DictReader (splitlines csv_string) with
      | None => inl CsvError
      | Some [] => inl (HTTPException 400 (u "CSV file is empty"))
      | Some data =>
          match utf8_encode (Json.dumps (PyList data)) with
          | Some b => inr b
          | None => inl UnicodeEncodeError
          end
      end
  end.

Definition _is_likely_csv (content : bytes) (filename : str) : bool :=
  if endswith (lower filename) (u ".csv") then true
  else
    match utf8_decode (hd [] (split_on (fun b => Byte.to_N b =? 10) content)) with
    | Some first_line =>
        contains first_line 44
        && negb (existsb (contains first_line) (u "{}[]"))
    | None => false
    end.

(** The Format Normalizer: what [_write_content] does to the bytes between
    creating the directory and writing the file. *)
Definition normalize (content : bytes) (filename : str) : exn + bytes :=
  match (if _is_likely_csv content filename
         then _convert_csv_to_json content
         else inr content) with
  | inl e => inl e
  | inr final_content =>
      match _validate_json_content final_content with
      | inl e => inl e
      | inr _ => inr final_content
      end
  end.

Record DatasetLoadResult := mkDatasetLoadResult {
  path : str;
  metadata : list (str * str);
  content : option bytes;
  content_type : str
}.

Definition result (p : str) (c : bytes) (md : list (str * str))
  : DatasetLoadResult :=
  mkDatasetLoadResult p md (Some c) (u "application/json").

Record UploadFile := mkUploadFile {
  filename : str;
  read : bytes
}.

Module LocalDatasetProvider.

Record self := mkSelf {
  home_dir : Path;
  subdir : str
}.

Definition default_subdir : str := u "files".

(** [LocalDatasetProvider(home_dir, subdir)], either argument optional. *)
Definition __init__ (home : option Path) (sub : option str) : M self :=
  do h <- match home with Some h => ret h | None => _home_dir end;
  ret (mkSelf h (default default_subdir sub)).

Definition _namespace_dir (s : self) (namespace : str) : Path :=
  joinpath (joinpath (joinpath (home_dir s) (u ".docetl")) namespace) (subdir s).

Definition _write_content (s : self) (namespace filename : str) (content : bytes)
  : M DatasetLoadResult :=
  let target_dir := _namespace_dir s namespace in
  do _ <- mkdir_parents target_dir;
  do final_content <-
    (if _is_likely_csv content filename
     then lift (_convert_csv_to_json content)
     else ret content);
  do _ <- lift (_validate_json_content final_content);
  let safe_name := replace filename (u ".csv") (u ".json") in
  let file_path := joinpath target_dir safe_name in
  do _ <- write_bytes file_path final_content;
  ret (result (Path_str file_path) final_content
         [(u "provider", u "local");
          (u "filename", safe_name);
          (u "namespace", namespace)]).

Definition _download_url (s : self) (namespace url : str) : M DatasetLoadResult :=
  fun w =>
    match http_get w url with
    | None => (inl TransportError, w)
    | Some (status_code, body) =>
        if negb (status_code =? 200)
        then (inl (HTTPException 400
                     (u "Failed to download from URL: " ++ str_of_N status_code)), w)
        else
          let filename := str_or (last_item (split url 47)) (u "dataset.json") in
          _write_content s namespace filename body w
    end.

Definition save_upload (s : self) (namespace : str)
    (file : option UploadFile) (url : option str) : M DatasetLoadResult :=
  if negb (bool_decide (is_Some file)) && negb (truthy url)
  then raise (HTTPException 400 (u "Either file or url must be provided"))
  else if truthy url then _download_url s namespace (default [] url)
  else
    match file with
    | Some f => _write_content s namespace (filename f) (read f)
    | None => raise (HTTPException 400 (u "Either file or url must be provided"))
    end.

Definition load_dataset (s : self) (namespace : str)
    (dataset_url source_version_id project_id subset env canonical_source_id
       : option str) : M DatasetLoadResult :=
  if truthy dataset_url then
    let dataset_url := default [] dataset_url in
    if startswith dataset_url (u "http://") || startswith dataset_url (u "https://")
    then _download_url s namespace dataset_url
    else
      let file_path := Path_of dataset_url in
      do there <- Path_exists file_path;
      if negb there then raise (HTTPException 404 (u "Dataset not found"))
      else
        do content <- read_bytes file_path;
        ret (result (Path_str file_path) content
               [(u "provider", u "local");
                (u "filename", Path_name file_path)])
  else if truthy source_version_id then
    raise (HTTPException 400
             (u "source_version_id requires the RT dataset provider"))
  else
    raise (HTTPException 400 (u "dataset_url or source_version_id is required")).

End LocalDatasetProvider.

Module RTDatasetProvider.

Record self := mkSelf {
  home_dir : Path;
  subdir : str
}.

Definition default_subdir : str := u "rt".

(** [RTDatasetProvider(storage_client=..., home_dir=..., subdir=...)]; the
    [_storage_client] field lives in the world. *)
Definition __init__ (client : option StorageClient) (home : option Path)
    (sub : option str) : M self :=
  do _ <- (fun w => (inr tt, with_storage_client client w));
  do h <- match home with Some h => ret h | None => _home_dir end;
  ret (mkSelf h (default default_subdir sub)).

Definition _namespace_dir (s : self) (namespace : str) : Path :=
  joinpath (joinpath (joinpath (home_dir s) (u ".docetl")) namespace) (subdir s).

Definition _ensure_storage : M StorageClient :=
  fun w =>
    match storage_client w with
    | Some c => (inr c, w)
    | None =>
        match storage_env w with
        | ConfigInvalid =>
            (inl (HTTPException 500 (u "Invalid storage configuration: ")), w)
        | ConfigDisabled =>
            (inl (HTTPException 500
                    (u "Storage client is disabled; set STORAGE__* to enable RT provider.")),
             w)
        | BuildFails msg => (inl (HTTPException 500 msg), w)
        | BuildOk c => (inr c, with_storage_client (Some c) w)
        end
    end.

Definition _write_bytes (s : self) (namespace filename : str) (content : bytes)
    (metadata : list (str * str)) : M DatasetLoadResult :=
  let target_dir := _namespace_dir s namespace in
  do _ <- mkdir_parents target_dir;
  let path := joinpath target_dir filename in
  do _ <- write_bytes path content;
  ret (result (Path_str path) content
         (dict_update metadata
            [(u "namespace", namespace); (u "provider", u "rt")])).

Definition _download_http (s : self) (namespace url : str)
    (metadata : list (str * str)) : M DatasetLoadResult :=
  fun w =>
    match http_get w url with
    | None => (inl TransportError, w)
    | Some (status_code, body) =>
        if negb (status_code =? 200)
        then (inl (HTTPException 400
                     (u "Failed to download dataset: " ++ str_of_N status_code)), w)
        else
          let filename := str_or (last_item (split url 47)) (u "dataset.json") in
          _write_bytes s namespace filename body metadata w
    end.

Definition _fetch_storage_uri (s : self) (namespace uri : str)
    (metadata : list (str * str)) : M DatasetLoadResult :=
  do storage <- _ensure_storage;
  do payload <- lift (get_file_from_uri storage uri);
  let filename := str_or (last_item (split uri 47)) (u "dataset.json") in
  _write_bytes s namespace filename payload
    (dict_update metadata [(u "source_uri", uri)]).

Definition _resolve_source_version (s : self) (namespace source_version_id : str)
    (project_id env canonical_source_id : option str) : M DatasetLoadResult :=
  do storage <- _ensure_storage;
  do rslv <- (fun w => (inr (resolver w storage), w));
  do layout <- lift (load_layout rslv env);
  let cid :=
    if truthy canonical_source_id then default [] canonical_source_id
    else if truthy project_id then default [] project_id
    else u "document" in
  let prefix := build_unstructured_sv_prefix rslv layout cid source_version_id in
  let envelope_uri :=
    u "gs://" ++ bucket layout ++ u "/" ++ prefix ++ u "/envelope/envelope.json" in
  _fetch_storage_uri s namespace envelope_uri
    [(u "source_version_id", source_version_id);
     (u "canonical_source_id", cid);
     (u "env", if truthy env then default [] env
               else rstrip (env_prefix layout) 47)].

(** Uploads still land locally; the RT provider keeps the same interface. *)
Definition save_upload (s : self) (namespace : str)
    (file : option UploadFile) (url : option str) : M DatasetLoadResult :=
  do local_provider <-
    LocalDatasetProvider.__init__ (Some (home_dir s)) (Some (subdir s));
  LocalDatasetProvider.save_upload local_provider namespace file url.

Definition load_dataset (s : self) (namespace : str)
    (dataset_url source_version_id project_id subset env canonical_source_id
       : option str) : M DatasetLoadResult :=
  if truthy dataset_url then
    let dataset_url := default [] dataset_url in
    if startswith dataset_url (u "http://") || startswith dataset_url (u "https://")
    then _download_http s namespace dataset_url [(u "dataset_url", dataset_url)]
    else if startswith dataset_url (u "gs://")
    then _fetch_storage_uri s namespace dataset_url [(u "dataset_url", dataset_url)]
    else
      let file_path := Path_of dataset_url in
      do there <- Path_exists file_path;
      if there then
        do content <- read_bytes file_path;
        ret (result (Path_str file_path) content
               [(u "provider", u "rt"); (u "dataset_url", dataset_url)])
      else raise (HTTPException 404 (u "Dataset not found"))
  else if truthy source_version_id then
    _resolve_source_version s namespace (default [] source_version_id)
      project_id env canonical_source_id
  else
    raise (HTTPException 400 (u "dataset_url or source_version_id is required")).

End RTDatasetProvider.

End Datasets.

(** * [server/app/providers/pipelines.py] *)

Module Pipelines.
Import Py.

Definition truthy (x : option str) : bool :=
  match x with
  | Some (_ :: _) => true
  | _ => false
  end.

(** [metadata.get(k)], where a key bound to [None] reads like a missing
    one. *)
Definition get (metadata : list (str * option str)) (k : str) : option str :=
  mjoin (dict_get k metadata).

(** [x or y] for an optional string [x] and a string [y]. *)
Definition or_else (x : option str) (y : str) : str :=
  if truthy x then default [] x else y.

Definition _home_dir : M Path :=
  fun w => (inr (Path_of (env_home w)), w).

Record PipelineSaveResult := mkPipelineSaveResult {
  path : str;
  uri : option str;
  manifest : list (str * option str);
  input_path : option str;
  output_path : option str
}.

(** [dt.strftime("%Y%m%d%H%M%S")] *)
Definition strftime_compact (dt : datetime) : str :=
  str_of_N (year dt)
    ++ zfill 2 (str_of_N (month dt)) ++ zfill 2 (str_of_N (day dt))
    ++ zfill 2 (str_of_N (hour dt)) ++ zfill 2 (str_of_N (minute dt))
    ++ zfill 2 (str_of_N (second dt)).

(** [dt.isoformat()] of a time in UTC. *)
Definition isoformat (dt : datetime) : str :=
  zfill 4 (str_of_N (year dt)) ++ u "-" ++ zfill 2 (str_of_N (month dt))
    ++ u "-" ++ zfill 2 (str_of_N (day dt)) ++ u "T"
    ++ zfill 2 (str_of_N (hour dt)) ++ u ":" ++ zfill 2 (str_of_N (minute dt))
    ++ u ":" ++ zfill 2 (str_of_N (second dt))
    ++ (if microsecond dt =? 0 then []
        else u "." ++ zfill 6 (str_of_N (microsecond dt)))
    ++ u "+00:00".

Module LocalPipelineSink.

Record self := mkSelf { home_dir : Path }.

Definition __init__ (home : option Path) : M self :=
  do h <- match home with Some h => ret h | None => _home_dir end;
  ret (mkSelf h).

Definition save (s : self) (namespace name yaml_str : str)
    (metadata : option (list (str * option str))) : M PipelineSaveResult :=
  let metadata := default [] metadata in
  let pipeline_dir :=
    joinpath (joinpath (joinpath (home_dir s) (u ".docetl")) namespace)
      (u "pipelines") in
  let config_dir := joinpath pipeline_dir (u "configs") in
  let name_dir := joinpath (joinpath pipeline_dir name) (u "intermediates") in
  do _ <- mkdir_parents config_dir;
  do _ <- mkdir_parents name_dir;
  let file_path := joinpath config_dir (name ++ u ".yaml") in
  do _ <- write_text file_path yaml_str;
  let manifest :=
    [(u "pipeline_id", Some (or_else (get metadata (u "pipeline_id")) name));
     (u "version", Some (or_else (get metadata (u "version")) (u "local")));
     (u "owner", get metadata (u "owner"));
     (u "sink", Some (u "local"))] in
  ret (mkPipelineSaveResult (Path_str file_path) None manifest
         (get metadata (u "input_path")) (get metadata (u "output_path"))).

End LocalPipelineSink.

Module RTPipelineSink.

(** [RTPipelineSink(storage_client=...)]; the [_storage_client] field
    lives in the world. *)
Definition __init__ (client : option StorageClient) : M unit :=
  fun w => (inr tt, with_storage_client client w).

Definition _ensure_storage : M StorageClient :=
  fun w =>
    match storage_client w with
    | Some c => (inr c, w)
    | None =>
        match storage_env w with
        | ConfigInvalid =>
            (inl (HTTPException 500 (u "Invalid storage configuration: ")), w)
        | ConfigDisabled =>
            (inl (HTTPException 500
                    (u "Storage client disabled; set STORAGE__* to enable RT pipeline sink.")),
             w)
        | BuildFails msg => (inl (HTTPException 500 msg), w)
        | BuildOk c => (inr c, with_storage_client (Some c) w)
        end
    end.

(** Modelled from the spec: the object store behind the storage client
    ([utils.storage], which is not among the sources).  The specification
    gives the interface,
    [store_file(document_id, filename, content, metadata) -> fileRef{path}],
    and says that the remote sink uploads to object key
    [specs/<product>/<pipeline_id>/<version>.yaml], with content type
    [text/yaml] and object metadata: the key joins the document
    identifier and the file name with a slash. *)
Definition object_key (document_id filename : str) : str :=
  document_id ++ u "/" ++ filename.

(** Modelled from the spec: [storage.store_file(document_id, filename,
    content, metadata)], an upload to the object key: afterwards the store
    holds the object under that key, and the objects under other keys are
    as before (the specification calls saves under distinct keys
    non-overwriting).  The path of the file reference that comes back is
    the client's to choose ([file_ref_path]). *)
Definition store_file (storage : StorageClient) (document_id filename : str)
    (content : bytes) (content_type : str) (md : list (str * option str))
  : M str :=
  fun w =>
    (inr (file_ref_path storage document_id filename),
     with_objects
       (<[object_key document_id filename :=
            mkStoredObject content content_type md]> (objects w)) w).

Definition save (namespace name yaml_str : str)
    (metadata : option (list (str * option str))) : M PipelineSaveResult :=
  let metadata := default [] metadata in
  do storage <- _ensure_storage;
  let pipeline_id := or_else (get metadata (u "pipeline_id")) name in
  do version <-
    (if truthy (get metadata (u "version"))
     then ret (default [] (get metadata (u "version")))
     else do t <- now; ret (strftime_compact t));
  let owner := get metadata (u "owner") in
  let prefix := u "specs/docetl/" ++ pipeline_id in
  let filename := version ++ u ".yaml" in
  let upload_metadata :=
    [(u "pipeline_id", Some pipeline_id);
     (u "version", Some version);
     (u "owner", owner);
     (u "namespace", Some namespace)] in
  do content <-
    match utf8_encode yaml_str with
    | Some b => ret b
    | None => raise UnicodeEncodeError
    end;
  do ref_path <- store_file storage prefix filename content (u "text/yaml")
                   upload_metadata;
  let bucket := bucket_name storage in
  let persisted_path := str_or ref_path (prefix ++ u "/" ++ filename) in
  let uri :=
    match bucket with
    | [] => persisted_path
    | _ => u "gs://" ++ bucket ++ u "/" ++ persisted_path
    end in
  do saved_at <- now;
  let manifest :=
    [(u "pipeline_id", Some pipeline_id);
     (u "version", Some version);
     (u "owner", owner);
     (u "sink", Some (u "rt"));
     (u "uri", Some uri);
     (u "saved_at", Some (isoformat saved_at))] in
  ret (mkPipelineSaveResult uri (Some uri) manifest
         (get metadata (u "input_path")) (get metadata (u "output_path"))).

End RTPipelineSink.

End Pipelines.

(** * [server/app/routes/filesystem.py] *)

Module Routes.
Import Py Datasets Pipelines.

(** [try: m except HTTPException: raise except Exception: raise
    HTTPException(500, detail)]: an [HTTPException] passes, any other
    exception becomes a 500 with the given detail. *)
Definition reraise_http (detail : str) {A} (m : M A) : M A :=
  fun w =>
    match m w with
    | (inl (HTTPException c d), w') => (inl (HTTPException c d), w')
    | (inl _, w') => (inl (HTTPException 500 detail), w')
    | (inr a, w') => (inr a, w')
    end.

(** [try: m except Exception: raise HTTPException(500, detail)]: every
    exception, an [HTTPException] too, becomes a 500. *)
Definition wrap_all (detail : str) {A} (m : M A) : M A :=
  fun w =>
    match m w with
    | (inl _, w') => (inl (HTTPException 500 detail), w')
    | (inr a, w') => (inr a, w')
    end.

(** A provider or a sink chosen at run time; the methods dispatch on the
    variant.  The value of an environment variable is an argument, [None]
    when it is not set. *)
Inductive provider :=
  | LocalProvider (s : LocalDatasetProvider.self)
  | RTProvider (s : RTDatasetProvider.self).

Inductive sink :=
  | LocalSink (s : LocalPipelineSink.self)
  | RTSink.

Definition _dataset_provider (DATA_PROVIDER : option str) : M provider :=
  if bool_decide (lower (default (u "local") DATA_PROVIDER) = u "rt")
  then do s <- RTDatasetProvider.__init__ None None None; ret (RTProvider s)
  else do s <- LocalDatasetProvider.__init__ None None; ret (LocalProvider s).

Definition _pipeline_sink (preferred PIPELINE_SINK : option str) : M sink :=
  let chosen :=
    if Pipelines.truthy preferred then default [] preferred
    else default (u "local") PIPELINE_SINK in
  if bool_decide (lower chosen = u "rt")
  then do _ <- RTPipelineSink.__init__ None; ret RTSink
  else do s <- LocalPipelineSink.__init__ None; ret (LocalSink s).

Definition provider_save_upload (p : provider) (namespace : str)
    (file : option UploadFile) (url : option str) : M DatasetLoadResult :=
  match p with
  | LocalProvider s => LocalDatasetProvider.save_upload s namespace file url
  | RTProvider s => RTDatasetProvider.save_upload s namespace file url
  end.

Definition sink_save (k : sink) (namespace name yaml_str : str)
    (metadata : option (list (str * option str))) : M PipelineSaveResult :=
  match k with
  | LocalSink s => LocalPipelineSink.save s namespace name yaml_str metadata
  | RTSink => RTPipelineSink.save namespace name yaml_str metadata
  end.

Definition get_namespace_dir (namespace : str) : M Path :=
  fun w =>
    (inr (joinpath (joinpath (Path_of (env_home w)) (u ".docetl")) namespace), w).

(** [check_namespace]: the answer is the value of [exists]. *)
Definition check_namespace (namespace : str) : M bool :=
  wrap_all (u "Failed to check/create namespace: ")
    (do namespace_dir <- get_namespace_dir namespace;
     do there <- Path_exists namespace_dir;
     do _ <- (if negb there then mkdir_parents namespace_dir else ret tt);
     ret there).

Record UploadResponse := mkUploadResponse {
  up_path : str;
  up_metadata : list (str * str)
}.

Definition upload_file (DATA_PROVIDER : option str)
    (file : option UploadFile) (url : option str) (namespace : str)
  : M UploadResponse :=
  reraise_http (u "Failed to upload file: ")
    (do provider <- _dataset_provider DATA_PROVIDER;
     do result <- provider_save_upload provider namespace file url;
     ret (mkUploadResponse (Datasets.path result) (Datasets.metadata result))).

(** [PipelineConfigRequest]; the values of its [metadata] are kept as
    optional strings. *)
Record PipelineConfigRequest := mkPipelineConfigRequest {
  rq_namespace : str;
  rq_name : str;
  rq_config : str;
  rq_input_path : str;
  rq_output_path : str;
  rq_sink : option str;
  rq_metadata : option (list (str * option str));
  rq_pipeline_id : option str;
  rq_version : option str;
  rq_owner : option str
}.

Record PipelineResponse := mkPipelineResponse {
  filePath : str;
  inputPath : str;
  outputPath : str;
  rs_uri : option str;
  rs_manifest : list (str * option str)
}.

(** The metadata both pipeline routes hand to the sink: the fields of the
    request laid over its [metadata]. *)
Definition request_metadata (request : PipelineConfigRequest)
  : list (str * option str) :=
  dict_update (default [] (rq_metadata request))
    [(u "input_path", Some (rq_input_path request));
     (u "output_path", Some (rq_output_path request));
     (u "pipeline_id", rq_pipeline_id request);
     (u "version", rq_version request);
     (u "owner", rq_owner request)].

(** The body shared by [write_pipeline_config] and [save_pipeline]. *)
Definition persist_pipeline (PIPELINE_SINK : option str)
    (request : PipelineConfigRequest) : M PipelineResponse :=
  do sink <- _pipeline_sink (rq_sink request) PIPELINE_SINK;
  let metadata := request_metadata request in
  do result <- sink_save sink (rq_namespace request) (rq_name request)
                 (rq_config request) (Some metadata);
  ret (mkPipelineResponse (Pipelines.path result)
         (or_else (input_path result) (rq_input_path request))
         (or_else (output_path result) (rq_output_path request))
         (uri result) (manifest result)).

Definition write_pipeline_config (PIPELINE_SINK : option str)
    (request : PipelineConfigRequest) : M PipelineResponse :=
  reraise_http (u "Failed to write pipeline configuration: ")
    (persist_pipeline PIPELINE_SINK request).

Definition save_pipeline (PIPELINE_SINK : option str)
    (request : PipelineConfigRequest) : M PipelineResponse :=
  reraise_http (u "Failed to save pipeline: ")
    (persist_pipeline PIPELINE_SINK request).

(** [sub in s] for strings. *)
Fixpoint has_substring (s sub : str) : bool :=
  startswith s sub
  || match s with
     | [] => false
     | _ :: r => has_substring r sub
     end.

(** What [FileResponse(path, filename, headers)] is built from. *)
Record FileResponse := mkFileResponse {
  fr_path : Path;
  fr_filename : str;
  fr_headers : list (str * str)
}.

Definition serve_document (path : str) : M FileResponse :=
  wrap_all (u "Failed to serve file: ")
    (if has_substring path (u "..")
     then raise (HTTPException 400 (u "Invalid file path"))
     else
       let file_path := Path_of path in
       do there <- Path_exists file_path;
       if negb there then raise (HTTPException 404 (u "File not found"))
       else ret (mkFileResponse file_path (Path_name file_path)
                   [(u "Cache-Control", u "public, max-age=3600")])).

(** [check_file]: the answer is the value of [exists]. *)
Definition check_file (path : str) : M bool :=
  wrap_all (u "Failed to check file: ") (Path_exists (Path_of path)).

End Routes.

(** * The words of the specification *)

Module Spec.
Import Py.

(** The error kinds of the specification, and the kind each exception of
    the code stands for. *)
Inductive error_kind :=
  | InvalidArgument | NotFound | UpstreamError | FormatError
  | EncodingError | ConfigurationError | Disabled | Unclassified.

Definition kind_of (e : exn) : error_kind :=
  match e with
  | UnicodeDecodeError => EncodingError
  | HTTPException 404 _ => NotFound
  | HTTPException 400 d =>
      if startswith d (u "Invalid CSV encoding") then EncodingError
      else if startswith d (u "Invalid JSON format") then FormatError
      else if startswith d (u "CSV file is empty") then FormatError
      else if startswith d (u "Failed to download") then UpstreamError
      else InvalidArgument
  | HTTPException 500 d =>
      if startswith d (u "Storage client") then Disabled
      else ConfigurationError
  | _ => Unclassified
  end.

Definition is_dict (v : py) : bool :=
  match v with PyDict _ => true | _ => false end.

(** A JSON array of objects. *)
Definition array_of_objects (content : bytes) : bool :=
  match Json.loads content with
  | Json.Loaded (PyList l) => forallb is_dict l
  | _ => false
  end.

(** The characters [str.strip] removes. *)
Definition is_space (c : N) : bool :=
  ((9 <=? c) && (c <=? 13)) || ((28 <=? c) && (c <=? 32))
  || (c =? 0x85) || (c =? 0xA0) || (c =? 0x1680)
  || ((0x2000 <=? c) && (c <=? 0x200A))
  || (c =? 0x2028) || (c =? 0x2029) || (c =? 0x202F)
  || (c =? 0x205F) || (c =? 0x3000).

Definition parses (line : str) : bool :=
  match Json.decode line with
  | Json.Scanned _ => true
  | _ => false
  end.

(** JSON Lines: UTF-8 text each non-blank line of which parses as JSON. *)
Definition json_lines (content : bytes) : bool :=
  match utf8_decode content with
  | Some text =>
      forallb (fun line => forallb is_space line || parses line)
        (splitlines text)
  | None => false
  end.

Definition well_formed_json (content : bytes) : bool :=
  array_of_objects content || json_lines content.

(** A path as [pathlib] builds it: one of the three roots, and parts that
    are non-empty, hold no slash and are not a single dot. *)
Definition wf_part (x : str) : bool :=
  is_part x && negb (contains x 47).

Definition wf_path (p : Path) : bool :=
  (bool_decide (root p = []) || bool_decide (root p = [47])
   || bool_decide (root p = [47; 47]))
  && forallb wf_part (parts p).

(** A valid UTC clock reading with a four-digit year. *)
Definition valid_datetime (dt : datetime) : bool :=
  (1000 <=? year dt) && (year dt <=? 9999)
  && (month dt <? 100) && (day dt <? 100)
  && (hour dt <? 100) && (minute dt <? 100) && (second dt <? 100).

(** Two readings in the same second. *)
Definition same_second (a b : datetime) : bool :=
  (year a =? year b) && (month a =? month b) && (day a =? day b)
  && (hour a =? hour b) && (minute a =? minute b) && (second a =? second b).

End Spec.

(** * Calls whose result is validated *)

Module Calls.
Import Py Datasets.

(** The successful calls that go through [_write_content]: an upload
    saved by either provider, and a dataset the local provider loads over
    HTTP. *)
Inductive validated_call (w : World) (d : DatasetLoadResult) (w' : World) : Prop :=
  | local_save_upload s ns file url :
      Spec.wf_path (LocalDatasetProvider.home_dir s) = true ->
      LocalDatasetProvider.save_upload s ns file url w = (inr d, w') ->
      validated_call w d w'
  | rt_save_upload s ns file url :
      Spec.wf_path (RTDatasetProvider.home_dir s) = true ->
      RTDatasetProvider.save_upload s ns file url w = (inr d, w') ->
      validated_call w d w'
  | local_load_http s ns url sv pid sub env cid :
      Spec.wf_path (LocalDatasetProvider.home_dir s) = true ->
      startswith url (u "http://") || startswith url (u "https://") = true ->
      LocalDatasetProvider.load_dataset s ns (Some url) sv pid sub env cid w
        = (inr d, w') ->
      validated_call w d w'.

(** The file at the returned path exists, holds the returned content, and
    that content is a JSON document. *)
Definition materialized_json (d : DatasetLoadResult) (w' : World) : Prop :=
  exists c v,
    content d = Some c
    /\ fs w' !! Path_of (path d) = Some (File c)
    /\ Json.loads c = Json.Loaded v.

(** The object a resolution by [source_version_id] asks the store for. *)
Definition envelope_uri (rslv : Resolver) (layout : Layout)
    (svid : str) (pid cid : option str) : str :=
  let c := if truthy cid then default [] cid
           else if truthy pid then default [] pid
           else u "document" in
  u "gs://" ++ bucket layout ++ u "/"
    ++ build_unstructured_sv_prefix rslv layout c svid
    ++ u "/envelope/envelope.json".

(** [payload] is what the storage client of world [w] returns for the
    envelope of the given version. *)
Definition envelope_payload (w : World) (svid : str) (pid env cid : option str)
    (payload : bytes) : Prop :=
  exists storage w1 layout,
    RTDatasetProvider._ensure_storage w = (inr storage, w1)
    /\ load_layout (resolver w1 storage) env = inr layout
    /\ get_file_from_uri storage
         (envelope_uri (resolver w1 storage) layout svid pid cid) = inr payload.

End Calls.

(** * Values and texts of the JSON round trip *)

Module Values.
Import Py Py.Json.

(** A Unicode scalar value: a code point that is not a surrogate. *)
Definition is_scalar (c : N) : bool := (c <=? 0x10FFFF) && negb (is_surrogate c).

Definition is_ascii (c : N) : bool := c <? 0x80.

(** Values [json.dumps] writes so that [json.loads] reads them back:
    strings of scalar values, no number. *)
Fixpoint dumpable (v : py) : bool :=
  match v with
  | PyNone | PyBool _ => true
  | PyNum _ => false
  | PyStr s => forallb is_scalar s
  | PyList l => forallb dumpable l
  | PyDict d =>
      forallb (fun kv => forallb is_scalar (key_text kv.1) && dumpable kv.2) d
  end.

(** What [json.loads] makes of the text of a value: keys are strings, a
    repeated key keeps its first place and its last value. *)
Fixpoint reparse (v : py) : py :=
  match v with
  | PyList l => PyList (List.map reparse l)
  | PyDict d =>
      PyDict (dict_of (List.map (fun kv => (KStr (key_text kv.1), reparse kv.2)) d))
  | _ => v
  end.

(** The steps the scanner takes on the text of a value. *)
Fixpoint scan_size (v : py) : nat :=
  match v with
  | PyList l => S (list_sum (List.map (fun x => S (scan_size x)) l))
  | PyDict d => S (list_sum (List.map (fun kv => S (scan_size kv.2)) d))
  | _ => 1
  end.

(** The object a data row becomes when the field names are distinct and
    the row has no cell too many: the cells under the field names in
    order, [None] under the names the row is too short for. *)
Definition csv_record (header row : list str) : py :=
  PyDict (zip (KStr <$> header)
            ((PyStr <$> row) ++ replicate (length header - length row) PyNone)).

(** [P] holds of every number below [k]; evaluated in time linear in [k]. *)
Definition all_below (P : N -> bool) (k : N) : bool :=
  N.peano_rect (fun _ => bool) true (fun i acc => acc && P i) k.

End Values.

(** * Sample worlds and inputs *)

Module Examples.
Import Py Datasets.

Definition b (s : string) : bytes := list_byte_of_string s.

Definition nl : string := String (ascii_of_N 10) EmptyString.

(** A storage client that answers every URI with the same payload. *)
Definition client_with (payload : bytes) : StorageClient :=
  mkStorageClient (fun _ => inr payload) (fun _ _ => []) (u "bucket").

Definition resolver0 : Resolver :=
  mkResolver (fun _ => inr (mkLayout (u "bucket") (u "dev/")))
    (fun l cid svid => env_prefix l ++ cid ++ u "/" ++ svid).

Definition noon : datetime := mkDatetime 2026 11 4 12 0 0 0.

(** An empty file system and store; every URL answers 200 with [body]; the
    storage client serves [payload]; the clock stands at [noon]. *)
Definition world (body payload : bytes) : World :=
  mkWorld ∅ ∅ 0 None (fun _ => noon) (fun _ => Some (200, body))
    (BuildOk (client_with payload)) (fun _ => resolver0) (u "/home/user").

Definition home : Path := Path_of (u "/home/user").

Definition local_default : LocalDatasetProvider.self :=
  LocalDatasetProvider.mkSelf home LocalDatasetProvider.default_subdir.

Definition rt_default : RTDatasetProvider.self :=
  RTDatasetProvider.mkSelf home RTDatasetProvider.default_subdir.

End Examples.

(** * Facts about the runtime model *)

Module PyFacts.
Import Py.

Lemma bind_inr {A B} (m : M A) (k : A -> M B) w b w' :
  bind m k w = (inr b, w') ->
  exists a w1, m w = (inr a, w1) /\ k a w1 = (inr b, w').
Proof.
  unfold bind. destruct (m w) as [[e|a] w1]; intros H; [discriminate|eauto].
Qed.

Lemma bind_eq {A B} (m : M A) (k : A -> M B) w a w1 :
  m w = (inr a, w1) -> bind m k w = k a w1.
Proof. unfold bind. by intros ->. Qed.

Lemma lift_inr {A} (r : exn + A) w a w' :
  lift r w = (inr a, w') -> r = inr a /\ w' = w.
Proof. unfold lift. intros [= -> ->]. done. Qed.

Lemma ret_inr {A} (x : A) w a w' :
  ret x w = (inr a, w') -> a = x /\ w' = w.
Proof. unfold ret. intros [= -> ->]. done. Qed.

(** A write that succeeds leaves the file in place, with the content
    given. *)
Lemma write_bytes_inr p c w w' :
  write_bytes p c w = (inr tt, w') ->
  w' = with_fs (<[p := File c]> (fs w)) w.
Proof.
  unfold write_bytes.
  destruct (is_dir (fs w) p); [discriminate|].
  destruct (is_dir (fs w) (Path_parent p)).
  - by intros [= <-].
  - destruct (fs w !! Path_parent p); discriminate.
Qed.

Lemma write_bytes_lookup p c w u0 w' :
  write_bytes p c w = (inr u0, w') -> fs w' !! p = Some (File c).
Proof.
  destruct u0. intros ->%write_bytes_inr. simpl. apply lookup_insert_eq.
Qed.

Lemma write_text_lookup p t w u0 w' :
  write_text p t w = (inr u0, w') ->
  exists c, utf8_encode t = Some c /\ fs w' !! p = Some (File c).
Proof.
  unfold write_text. destruct (utf8_encode t) as [c|]; [|discriminate].
  intros H%write_bytes_lookup. eauto.
Qed.

(** ** Splitting and joining *)

Lemma split_on_nonnil {A} (f : A -> bool) s : split_on f s <> [].
Proof.
  destruct s as [|c r]; simpl; [done|].
  destruct (f c); [done|]. by destruct (split_on f r).
Qed.

Lemma split_on_app_sep {A} (f : A -> bool) a c b :
  f c = true -> split_on f (a ++ c :: b) = split_on f a ++ split_on f b.
Proof.
  intros Hc. induction a as [|x a IH]; simpl.
  - by rewrite Hc.
  - destruct (f x); rewrite IH; [done|].
    pose proof (split_on_nonnil f a). by destruct (split_on f a).
Qed.

Lemma split_on_none {A} (f : A -> bool) s :
  existsb f s = false -> split_on f s = [s].
Proof.
  induction s as [|c r IH]; simpl; [done|].
  intros [Hc Hr]%orb_false_elim. rewrite Hc, (IH Hr). done.
Qed.

Lemma split_on_no_sep {A} (f : A -> bool) s seg :
  In seg (split_on f s) -> existsb f seg = false.
Proof.
  revert seg. induction s as [|c r IH]; simpl; intros seg.
  - intros [<-|[]]. done.
  - destruct (f c) eqn:Hc.
    + intros [<-|H]; [done|auto].
    + pose proof (split_on_nonnil f r).
      destruct (split_on f r) as [|s0 ss]; [done|].
      intros [<-|H']; simpl.
      * rewrite Hc. apply IH. by left.
      * apply IH. by right.
Qed.

Lemma last_app_cons {A} (l1 l2 : list A) x d :
  List.last (l1 ++ x :: l2) d = List.last (x :: l2) d.
Proof.
  induction l1 as [|y l1 IH]; [done|].
  change ((y :: l1) ++ x :: l2) with (y :: (l1 ++ x :: l2)).
  destruct (l1 ++ x :: l2) eqn:E; [by destruct l1|].
  simpl. simpl in IH. rewrite <- IH. done.
Qed.

(** The last segment of a string that ends in a slash and a slash-free
    name is that name. *)
Lemma last_segment_app (a name : str) :
  contains name 47 = false ->
  last_item (split (a ++ 47 :: name) 47) = name.
Proof.
  intros H. unfold last_item, split.
  rewrite split_on_app_sep by done.
  rewrite (split_on_none _ name) by done.
  apply (last_app_cons _ []).
Qed.

Lemma split_join (ps : list str) :
  ps <> [] -> forallb Spec.wf_part ps = true ->
  split (join [47] ps) 47 = ps.
Proof.
  unfold split. induction ps as [|p ps IH]; [done|]. intros _ H.
  simpl in H. apply andb_prop in H as [Hp Hps].
  unfold Spec.wf_part in Hp. apply andb_prop in Hp as [_ Hp].
  apply negb_true_iff in Hp.
  destruct ps as [|q ps].
  - simpl. by apply split_on_none.
  - change (join [47] (p :: q :: ps)) with (p ++ 47 :: join [47] (q :: ps)).
    rewrite split_on_app_sep by done.
    rewrite split_on_none by done. rewrite IH by done. done.
Qed.

Lemma filter_all {A} (f : A -> bool) l :
  forallb f l = true -> List.filter f l = l.
Proof.
  induction l as [|x l IH]; simpl; [done|].
  intros [-> H]%andb_prop. by rewrite IH.
Qed.

Lemma wf_part_is_part ps :
  forallb Spec.wf_part ps = true -> forallb is_part ps = true.
Proof.
  induction ps as [|x l IH]; simpl; [done|].
  unfold Spec.wf_part at 1. intros [[-> _]%andb_prop H]%andb_prop. auto.
Qed.

(** ** Paths *)

Lemma Path_of_parts_wf s : forallb Spec.wf_part (List.filter is_part (split s 47)) = true.
Proof.
  apply forallb_forall. intros x [Hin Hp]%filter_In.
  unfold Spec.wf_part. rewrite Hp. simpl.
  apply negb_true_iff. by apply (split_on_no_sep _ s).
Qed.

Lemma Path_of_wf s : Spec.wf_path (Path_of s) = true.
Proof.
  unfold Path_of, Spec.wf_path.
  destruct (splitroot s) as [rt rel] eqn:E. simpl.
  rewrite Path_of_parts_wf, andb_true_r.
  unfold splitroot in E.
  repeat (match type of E with
          | match ?x with _ => _ end = _ => destruct x
          end; try (injection E as <- <-; done)).
Qed.

Lemma joinpath_wf p seg :
  Spec.wf_path p = true -> Spec.wf_path (joinpath p seg) = true.
Proof.
  intros Hp. unfold joinpath.
  destruct (startswith seg [47]); [apply Path_of_wf|].
  unfold Spec.wf_path in *. simpl.
  apply andb_prop in Hp as [-> Hps]. simpl.
  rewrite forallb_app, Hps. simpl.
  pose proof (Path_of_wf seg) as H. unfold Spec.wf_path in H.
  by apply andb_prop in H as [_ ->].
Qed.

(** Reading back the string of a path gives the path. *)
Lemma Path_of_str p : Spec.wf_path p = true -> Path_of (Path_str p) = p.
Proof.
  destruct p as [rt ps]. unfold Spec.wf_path. simpl.
  intros [Hrt Hps]%andb_prop.
  assert (Hsplit : ps <> [] ->
            List.filter is_part (split (join [47] ps) 47) = ps).
  { intros Hne. rewrite split_join by done.
    apply filter_all. by apply wf_part_is_part. }
  assert (Hhd : forall q qs, ps = q :: qs ->
            exists c r, join [47] ps = c :: r /\ c <> 47).
  { intros q qs ->. simpl in Hps. apply andb_prop in Hps as [Hq _].
    unfold Spec.wf_part in Hq. apply andb_prop in Hq as [Hq1 Hq2].
    destruct q as [|c q']; [done|].
    exists c. destruct qs; simpl; eexists; split; try done;
      intros ->; done. }
  assert (Hstr : forall q qs,
            Path_str (mkPath rt (q :: qs)) = rt ++ join [47] (q :: qs)).
  { intros q qs. by destruct rt. }
  apply orb_prop in Hrt as [Hrt|Hrt];
    [apply orb_prop in Hrt as [Hrt|Hrt]|];
    apply bool_decide_eq_true in Hrt; subst rt;
    (destruct ps as [|q qs]; [done|]);
    destruct (Hhd q qs eq_refl) as (c & r & E & Hc);
    rewrite Hstr; unfold Path_of.
  - assert (splitroot ([] ++ join [47] (q :: qs))
            = ([], join [47] (q :: qs))) as ->.
    { rewrite E. unfold splitroot. simpl.
      destruct c as [|pc]; [done|].
      repeat (destruct pc as [pc|pc|]; try done). }
    by rewrite Hsplit.
  - assert (splitroot ([47] ++ join [47] (q :: qs))
            = ([47], join [47] (q :: qs))) as ->.
    { rewrite E. unfold splitroot. simpl.
      destruct c as [|pc]; [done|].
      repeat (destruct pc as [pc|pc|]; try done). }
    by rewrite Hsplit.
  - assert (splitroot ([47; 47] ++ join [47] (q :: qs))
            = ([47; 47], join [47] (q :: qs))) as ->.
    { rewrite E. unfold splitroot. simpl.
      destruct c as [|pc]; [done|].
      repeat (destruct pc as [pc|pc|]; try done). }
    by rewrite Hsplit.
Qed.

(** A run that is known to succeed, split into its value and the world
    it leaves. *)
Lemma run_inr {A} (r : (exn + A) * World) (a : A) :
  r.1 = inr a -> r = (inr a, r.2).
Proof. destruct r as [x y]. simpl. by intros ->. Qed.

(** Evaluates a closed run [r] that succeeds and records, under the name
    [E], the equation between [r] and its value paired with its world. *)
Ltac run_as r E :=
  let v := eval vm_compute in (r.1) in
  match v with
  | inr ?a =>
      assert (E : r = (inr a, r.2))
        by (apply run_inr; vm_compute; reflexivity)
  end.

End PyFacts.

(** * Facts about the dataset providers *)

Module DatasetFacts.
Import Py PyFacts Datasets.

Module L := LocalDatasetProvider.
Module R := RTDatasetProvider.

(** Unfolds one [bind] of a computation known to have succeeded. *)
Ltac bind_step H :=
  let a := fresh "a" in
  let w1 := fresh "w" in
  let H1 := fresh "Hstep" in
  apply bind_inr in H as (a & w1 & H1 & H).


(** Content that passes validation is a JSON document. *)
Lemma _validate_json_content_inr c x :
  _validate_json_content c = inr x -> exists v, Json.loads c = Json.Loaded v.
Proof.
  unfold _validate_json_content. destruct (Json.loads c); [eauto|done|done].
Qed.

Lemma normalize_inr c fn final :
  normalize c fn = inr final -> exists v, Json.loads final = Json.Loaded v.
Proof.
  unfold normalize.
  destruct (if _is_likely_csv c fn then _ else _) as [e|fc]; [done|].
  destruct (_validate_json_content fc) eqn:E; [done|].
  intros [= <-]. by eapply _validate_json_content_inr.
Qed.

(** Where [_write_content] puts a file. *)
Definition local_target (s : L.self) (namespace filename : str) : Path :=
  joinpath (L._namespace_dir s namespace)
    (replace filename (u ".csv") (u ".json")).

Lemma _write_content_inr s ns fn c w d w' :
  L._write_content s ns fn c w = (inr d, w') ->
  exists final,
    normalize c fn = inr final
    /\ d = result (Path_str (local_target s ns fn)) final
             [(u "provider", u "local");
              (u "filename", replace fn (u ".csv") (u ".json"));
              (u "namespace", ns)]
    /\ fs w' !! local_target s ns fn = Some (File final).
Proof.
  unfold L._write_content. intros H.
  bind_step H. bind_step H. bind_step H. bind_step H.
  apply ret_inr in H as [-> ->].
  apply lift_inr in Hstep1 as [Hval ->].
  exists a0. split; [|split; [done|by eapply write_bytes_lookup]].
  unfold normalize.
  destruct (_is_likely_csv c fn).
  - apply lift_inr in Hstep0 as [-> _]. by rewrite Hval.
  - apply ret_inr in Hstep0 as [-> _]. by rewrite Hval.
Qed.

(** Where [_write_bytes] puts a file. *)
Definition rt_target (s : R.self) (namespace filename : str) : Path :=
  joinpath (R._namespace_dir s namespace) filename.

Lemma _write_bytes_inr s ns fn c md w d w' :
  R._write_bytes s ns fn c md w = (inr d, w') ->
  d = result (Path_str (rt_target s ns fn)) c
        (dict_update md [(u "namespace", ns); (u "provider", u "rt")])
  /\ fs w' !! rt_target s ns fn = Some (File c).
Proof.
  unfold R._write_bytes. intros H.
  bind_step H. bind_step H. apply ret_inr in H as [-> ->].
  split; [done|by eapply write_bytes_lookup].
Qed.

Lemma _fetch_storage_uri_inr s ns uri md w d w' :
  R._fetch_storage_uri s ns uri md w = (inr d, w') ->
  exists storage w1 payload,
    R._ensure_storage w = (inr storage, w1)
    /\ get_file_from_uri storage uri = inr payload
    /\ R._write_bytes s ns (str_or (last_item (split uri 47)) (u "dataset.json"))
         payload (dict_update md [(u "source_uri", uri)]) w1 = (inr d, w').
Proof.
  unfold R._fetch_storage_uri. intros H.
  bind_step H. bind_step H. apply lift_inr in Hstep0 as [Hget ->].
  eauto 6.
Qed.

Lemma _download_url_inr s ns url w d w' :
  L._download_url s ns url w = (inr d, w') ->
  exists body,
    http_get w url = Some (200, body)
    /\ L._write_content s ns
         (str_or (last_item (split url 47)) (u "dataset.json")) body w
       = (inr d, w').
Proof.
  unfold L._download_url.
  destruct (http_get w url) as [[st body]|]; [|done].
  destruct (st =? 200) eqn:E; [|done]. simpl.
  apply N.eqb_eq in E as ->. eauto.
Qed.

Lemma wf_namespace_dir_local s ns :
  Spec.wf_path (L.home_dir s) = true ->
  Spec.wf_path (L._namespace_dir s ns) = true.
Proof. intros H. unfold L._namespace_dir. by do 3 apply joinpath_wf. Qed.

Lemma wf_namespace_dir_rt s ns :
  Spec.wf_path (R.home_dir s) = true ->
  Spec.wf_path (R._namespace_dir s ns) = true.
Proof. intros H. unfold R._namespace_dir. by do 3 apply joinpath_wf. Qed.

(** The RT provider saves uploads through a local provider over its own
    directories. *)
Lemma rt_save_upload_eq s ns file url w :
  R.save_upload s ns file url w
  = L.save_upload (L.mkSelf (R.home_dir s) (R.subdir s)) ns file url w.
Proof. reflexivity. Qed.

(** ** What the local provider can fail with, and what it leaves alone *)

Lemma mkdir_each_errors ps last_one f e f' :
  mkdir_each ps last_one f = (inl e, f') ->
  e = FileExistsError \/ e = NotADirectoryError.
Proof.
  revert f. induction ps as [|q ps IH]; intros f; simpl; [done|].
  destruct (f !! q) as [[c|]|]; eauto.
  intros [= <- _]. destruct (decide (q = last_one)); auto.
Qed.

(** The errors of the specification that are not [InvalidArgument]. *)
Definition not_invalid_argument (e : exn) : Prop :=
  Spec.kind_of e <> Spec.InvalidArgument.

Lemma normalize_not_invalid_argument c fn e :
  normalize c fn = inl e -> not_invalid_argument e.
Proof.
  unfold normalize, _convert_csv_to_json, _validate_json_content.
  destruct (_is_likely_csv c fn).
  - destruct (utf8_decode c) as [text|]; [|by intros [= <-]].
    destruct (Csv.DictReader _) as [[|d0 l0]|]; try (by intros [= <-]).
    destruct (utf8_encode _) as [b|]; [|by intros [= <-]].
    destruct (Json.loads b); by intros [= <-].
  - destruct (Json.loads c); by intros [= <-].
Qed.

Lemma _write_content_not_invalid_argument s ns fn c w e w' :
  L._write_content s ns fn c w = (inl e, w') -> not_invalid_argument e.
Proof.
  unfold L._write_content, bind.
  destruct (mkdir_parents (L._namespace_dir s ns) w) as [[e0|[]] w1] eqn:Hm.
  { intros [= <- <-]. unfold mkdir_parents in Hm.
    destruct (mkdir_each _ _ _) as [r0 f] eqn:E'. injection Hm as -> _.
    apply mkdir_each_errors in E' as [->| ->]; done. }
  destruct ((if _is_likely_csv c fn then lift (_convert_csv_to_json c) else ret c) w1)
    as [[e1|fc] w2] eqn:Hc.
  { intros [= <- <-]. apply (normalize_not_invalid_argument c fn).
    unfold normalize. destruct (_is_likely_csv c fn).
    - unfold lift in Hc. injection Hc as Hc _. by rewrite Hc.
    - discriminate Hc. }
  destruct (lift (_validate_json_content fc) w2) as [[e2|[]] w3] eqn:Hv.
  { intros [= <- <-]. unfold lift in Hv. injection Hv as Hv _.
    unfold _validate_json_content in Hv. destruct (Json.loads fc); try discriminate Hv; by injection Hv as <-. }
  destruct (write_bytes _ fc w3) as [[e3|[]] w4] eqn:Hw; [|discriminate].
  intros [= <- <-]. unfold write_bytes in Hw.
  destruct (is_dir (fs w3) _); [by injection Hw as <- _|].
  destruct (is_dir (fs w3) (Path_parent _)); [discriminate|].
  destruct (fs w3 !! Path_parent _); by injection Hw as <- _.
Qed.

Lemma startswith_app_self (p q : str) : startswith (p ++ q) p = true.
Proof.
  induction p as [|c p IH]; simpl; [by destruct q|]. by rewrite N.eqb_refl.
Qed.

Lemma kind_of_400 d :
  Spec.kind_of (HTTPException 400 d)
  = if startswith d (u "Invalid CSV encoding") then Spec.EncodingError
    else if startswith d (u "Invalid JSON format") then Spec.FormatError
    else if startswith d (u "CSV file is empty") then Spec.FormatError
    else if startswith d (u "Failed to download") then Spec.UpstreamError
    else Spec.InvalidArgument.
Proof. reflexivity. Qed.

Lemma failed_download_kind st :
  not_invalid_argument
    (HTTPException 400 (u "Failed to download from URL: " ++ str_of_N st)).
Proof.
  unfold not_invalid_argument.
  change (u "Failed to download from URL: " ++ str_of_N st)
    with (u "Failed to download" ++ (u " from URL: " ++ str_of_N st)).
  rewrite kind_of_400, (startswith_app_self (u "Failed to download")).
  repeat (destruct (startswith _ _)); done.
Qed.

Lemma _download_url_not_invalid_argument s ns url w e w' :
  L._download_url s ns url w = (inl e, w') -> not_invalid_argument e.
Proof.
  unfold L._download_url.
  destruct (http_get w url) as [[st body]|]; [|by intros [= <- _]].
  destruct (negb (st =? 200)).
  - intros [= <- _]. apply failed_download_kind.
  - apply _write_content_not_invalid_argument.
Qed.

(** [save_upload] fails with [InvalidArgument] exactly when it is given
    neither an upload nor a non-empty URL. *)
Lemma save_upload_invalid_argument s ns file url w :
  (exists e, (L.save_upload s ns file url w).1 = inl e
             /\ Spec.kind_of e = Spec.InvalidArgument)
  <-> file = None /\ truthy url = false.
Proof.
  unfold L.save_upload. split.
  - intros (e & He & Hk). destruct (truthy url) eqn:Hu.
    + rewrite andb_false_r in He.
      destruct (L._download_url s ns (default [] url) w) as [r w'] eqn:E.
      simpl in He. subst r.
      by apply _download_url_not_invalid_argument in E.
    + destruct file as [f|]; [|done]. simpl in He.
      destruct (L._write_content s ns (filename f) (read f) w) as [r w'] eqn:E.
      simpl in He. subst r.
      by apply _write_content_not_invalid_argument in E.
  - intros [-> ->]. simpl. eexists. split; [done|]. reflexivity.
Qed.



Lemma save_upload_writes s ns file url w d w' :
  L.save_upload s ns file url w = (inr d, w') ->
  exists fn c, L._write_content s ns fn c w = (inr d, w').
Proof.
  unfold L.save_upload.
  destruct (negb (bool_decide (is_Some file)) && negb (truthy url));
    [discriminate|].
  destruct (truthy url).
  - intros H. apply _download_url_inr in H as (body & _ & H). eauto.
  - destruct file; [eauto|discriminate].
Qed.

Lemma _ensure_storage_again w c w1 :
  R._ensure_storage w = (inr c, w1) -> R._ensure_storage w1 = (inr c, w1).
Proof.
  unfold R._ensure_storage at 1.
  destruct (storage_client w) as [c0|] eqn:Hc.
  - intros [= <- <-]. unfold R._ensure_storage. by rewrite Hc.
  - destruct (storage_env w); try discriminate. by intros [= <- <-].
Qed.

End DatasetFacts.

(** * Facts about the pipeline sinks *)

Module PipelineFacts.
Import Py PyFacts Pipelines.

Module LS := LocalPipelineSink.
Module RS := RTPipelineSink.

(** A property checked on every number below a bound holds below it. *)
Lemma N_forall_below (P : N -> bool) (k : N) :
  forallb P (List.map N.of_nat (seq 0 (N.to_nat k))) = true ->
  forall n, n < k -> P n = true.
Proof.
  intros H n Hn. rewrite forallb_forall in H. apply H.
  apply in_map_iff. exists (N.to_nat n). split; [lia|].
  apply in_seq. lia.
Qed.

Lemma two_digits n :
  n < 100 ->
  length (zfill 2 (str_of_N n)) = 2%nat
  /\ N_of_digits (zfill 2 (str_of_N n)) = n.
Proof.
  intros H.
  pose proof (N_forall_below
    (fun n => bool_decide (length (zfill 2 (str_of_N n)) = 2%nat)
              && (N_of_digits (zfill 2 (str_of_N n)) =? n)) 100) as A.
  specialize (A ltac:(vm_compute; reflexivity) n H).
  apply andb_prop in A as [A1 A2].
  apply bool_decide_eq_true in A1. apply N.eqb_eq in A2. done.
Qed.

Lemma four_digits n :
  1000 <= n <= 9999 ->
  length (str_of_N n) = 4%nat /\ N_of_digits (str_of_N n) = n.
Proof.
  intros H.
  pose proof (N_forall_below
    (fun n => (n <? 1000)
              || (bool_decide (length (str_of_N n) = 4%nat)
                  && (N_of_digits (str_of_N n) =? n))) 10000) as A.
  specialize (A ltac:(vm_compute; reflexivity) n ltac:(lia)).
  apply orb_prop in A as [A|A]; [apply N.ltb_lt in A; lia|].
  apply andb_prop in A as [A1 A2].
  apply bool_decide_eq_true in A1. apply N.eqb_eq in A2. done.
Qed.

Lemma app_inj_length {A} (a b c d : list A) :
  length a = length c -> a ++ b = c ++ d -> a = c /\ b = d.
Proof. intros H E. by apply app_inj_1. Qed.

(** The compact time stamp tells two valid readings apart unless they fall
    in the same second. *)
Lemma strftime_compact_inj a b :
  Spec.valid_datetime a = true -> Spec.valid_datetime b = true ->
  strftime_compact a = strftime_compact b ->
  Spec.same_second a b = true.
Proof.
  unfold Spec.valid_datetime, Spec.same_second, strftime_compact.
  intros Ha Hb E.
  repeat match goal with
         | H : _ && _ = true |- _ => apply andb_prop in H as [? ?]
         | H : (_ <=? _) = true |- _ => apply N.leb_le in H
         | H : (_ <? _) = true |- _ => apply N.ltb_lt in H
         end.
  destruct (four_digits (year a)) as [L1 P1]; [lia|].
  destruct (four_digits (year b)) as [L1' P1']; [lia|].
  destruct (two_digits (month a)) as [L2 P2]; [done|].
  destruct (two_digits (month b)) as [L2' P2']; [done|].
  destruct (two_digits (day a)) as [L3 P3]; [done|].
  destruct (two_digits (day b)) as [L3' P3']; [done|].
  destruct (two_digits (hour a)) as [L4 P4]; [done|].
  destruct (two_digits (hour b)) as [L4' P4']; [done|].
  destruct (two_digits (minute a)) as [L5 P5]; [done|].
  destruct (two_digits (minute b)) as [L5' P5']; [done|].
  destruct (two_digits (second a)) as [L6 P6]; [done|].
  destruct (two_digits (second b)) as [L6' P6']; [done|].
  apply app_inj_length in E as [E1 E]; [|congruence].
  apply app_inj_length in E as [E2 E]; [|congruence].
  apply app_inj_length in E as [E3 E]; [|congruence].
  apply app_inj_length in E as [E4 E]; [|congruence].
  apply app_inj_length in E as [E5 E6]; [|congruence].
  rewrite E1 in P1. rewrite E2 in P2. rewrite E3 in P3.
  rewrite E4 in P4. rewrite E5 in P5. rewrite E6 in P6.
  assert (year a = year b) as -> by congruence.
  assert (month a = month b) as -> by congruence.
  assert (day a = day b) as -> by congruence.
  assert (hour a = hour b) as -> by congruence.
  assert (minute a = minute b) as -> by congruence.
  assert (second a = second b) as -> by congruence.
  by rewrite !N.eqb_refl.
Qed.

Ltac bind_step H :=
  let a := fresh "a" in
  let w1 := fresh "w" in
  let H1 := fresh "Hstep" in
  apply bind_inr in H as (a & w1 & H1 & H).

Lemma _ensure_storage_inr w c w' :
  RS._ensure_storage w = (inr c, w') ->
  objects w' = objects w /\ tick w' = tick w /\ clock w' = clock w
  /\ fs w' = fs w.
Proof.
  unfold RS._ensure_storage. destruct (storage_client w).
  - by intros [= _ <-].
  - destruct (storage_env w); try done. by intros [= _ <-].
Qed.

(** Where the local sink writes the configuration of [name]. *)
Definition local_config (s : LS.self) (namespace name : str) : Path :=
  joinpath
    (joinpath
       (joinpath (joinpath (joinpath (LS.home_dir s) (u ".docetl")) namespace)
          (u "pipelines"))
       (u "configs"))
    (name ++ u ".yaml").

Lemma local_save_inr s ns name yaml md w d w' :
  LS.save s ns name yaml md w = (inr d, w') ->
  path d = Path_str (local_config s ns name)
  /\ dict_get (u "version") (manifest d)
     = Some (Some (or_else (get (default [] md) (u "version")) (u "local")))
  /\ exists c, utf8_encode yaml = Some c
               /\ fs w' !! local_config s ns name = Some (File c).
Proof.
  unfold LS.save. intros H.
  bind_step H. bind_step H. bind_step H. apply ret_inr in H as [-> ->].
  split; [done|]. split; [done|]. by eapply write_text_lookup.
Qed.

(** The key and the version of an RT save that finds no version in its
    metadata. *)
Definition rt_version (w : World) : str := strftime_compact (clock w (tick w)).

Definition rt_key (name : str) (md : option (list (str * option str)))
    (version : str) : str :=
  RS.object_key
    (u "specs/docetl/" ++ or_else (get (default [] md) (u "pipeline_id")) name)
    (version ++ u ".yaml").

Lemma rt_save_inr ns name yaml md w d w' :
  truthy (get (default [] md) (u "version")) = false ->
  RS.save ns name yaml md w = (inr d, w') ->
  dict_get (u "version") (manifest d) = Some (Some (rt_version w))
  /\ clock w' = clock w
  /\ tick w' = S (S (tick w))
  /\ exists c,
       utf8_encode yaml = Some c
       /\ objects w'
          = <[rt_key name md (rt_version w) :=
                mkStoredObject c (u "text/yaml")
                  [(u "pipeline_id",
                    Some (or_else (get (default [] md) (u "pipeline_id")) name));
                   (u "version", Some (rt_version w));
                   (u "owner", get (default [] md) (u "owner"));
                   (u "namespace", Some ns)]]> (objects w).
Proof.
  intros Hv. unfold RS.save. rewrite Hv. intros H.
  bind_step H. apply _ensure_storage_inr in Hstep as (Ho & Ht & Hc & _).
  bind_step H. bind_step Hstep. apply ret_inr in Hstep as [-> ->].
  unfold now in Hstep0. injection Hstep0 as <- <-.
  bind_step H.
  destruct (utf8_encode yaml) as [c|]; [|discriminate Hstep].
  apply ret_inr in Hstep as [-> ->].
  bind_step H. unfold RS.store_file in Hstep. injection Hstep as <- <-.
  bind_step H. unfold now in Hstep. injection Hstep as <- <-.
  apply ret_inr in H as [-> ->]. simpl.
  unfold rt_version, rt_key. rewrite Ho, Ht, Hc.
  split; [done|]. split; [done|]. split; [done|]. eauto.
Qed.

Lemma strftime_compact_length a :
  Spec.valid_datetime a = true -> length (strftime_compact a) = 14%nat.
Proof.
  unfold Spec.valid_datetime, strftime_compact. intros Ha.
  repeat match goal with
         | H : _ && _ = true |- _ => apply andb_prop in H as [? ?]
         | H : (_ <=? _) = true |- _ => apply N.leb_le in H
         | H : (_ <? _) = true |- _ => apply N.ltb_lt in H
         end.
  destruct (four_digits (year a)) as [L1 _]; [lia|].
  destruct (two_digits (month a)) as [L2 _]; [done|].
  destruct (two_digits (day a)) as [L3 _]; [done|].
  destruct (two_digits (hour a)) as [L4 _]; [done|].
  destruct (two_digits (minute a)) as [L5 _]; [done|].
  destruct (two_digits (second a)) as [L6 _]; [done|].
  rewrite !length_app. lia.
Qed.

(** Readings in the same second give the same stamp. *)
Lemma strftime_compact_same_second a b :
  Spec.same_second a b = true -> strftime_compact a = strftime_compact b.
Proof.
  unfold Spec.same_second, strftime_compact. intros H.
  repeat match goal with
         | H : _ && _ = true |- _ => apply andb_prop in H as [? ?]
         | H : (_ =? _) = true |- _ => apply N.eqb_eq in H
         end.
  congruence.
Qed.

(** Keys built from different stamps of the same length differ, whatever
    the pipeline identifiers are. *)
Lemma object_key_inj_version (p1 p2 v1 v2 : str) :
  length v1 = length v2 ->
  RS.object_key p1 (v1 ++ u ".yaml") = RS.object_key p2 (v2 ++ u ".yaml") ->
  v1 = v2.
Proof.
  unfold RS.object_key. intros L E.
  rewrite !app_assoc in E.
  apply app_inj_2 in E as [E _]; [|done].
  apply app_inj_2 in E as [_ E]; done.
Qed.

End PipelineFacts.

(** * Facts about the [json] model *)

Module JsonFacts.
Import Py PyFacts Py.Json.

Lemma skip_ws_length s : (length (skip_ws s) <= length s)%nat.
Proof.
  induction s as [|c r IH]; simpl; [lia|]. destruct (is_ws c); simpl; lia.
Qed.

Lemma push_inv c res x t :
  push c res = Some (x, t) -> exists x', res = Some (x', t) /\ x = c :: x'.
Proof. destruct res as [[x' t']|]; [|done]. intros [= <- <-]. eauto. Qed.

(** [scanstring] consumes at least the closing quote. *)
Lemma scanstring_length s x t :
  scanstring s = Some (x, t) -> (length t < length s)%nat.
Proof.
  assert (Hle : (length s <= length s)%nat) by lia.
  revert Hle. generalize (length s) at 2 as n. intros n.
  revert s x t. induction n as [|n IH]; intros s x t Hle.
  { destruct s; simpl in *; [done|lia]. }
  assert (IH' : forall s' x' t', (length s' <= n)%nat ->
            scanstring s' = Some (x', t') -> (length t' < S (length s'))%nat).
  { intros s' x' t' L H. specialize (IH s' x' t' L H). lia. }
  destruct s as [|c r]; [done|]. simpl in Hle. simpl scanstring.
  destruct (c =? 34); [intros [= _ <-]; simpl; lia|].
  destruct (c =? 92).
  - destruct r as [|e r1]; [done|].
    destruct (e =? 117).
    + destruct r1 as [|h1 [|h2 [|h3 [|h4 r2]]]]; try done.
      destruct (hex4 h1 h2 h3 h4) as [uni|]; [|done].
      assert (Hlone : forall x0 t0,
                push uni (scanstring r2) = Some (x0, t0) ->
                (length t0 < length (c :: e :: h1 :: h2 :: h3 :: h4 :: r2))%nat).
      { intros x0 t0 (x' & H & _)%push_inv.
        apply IH' in H; simpl in *; lia. }
      destruct (is_high_surrogate uni); [|apply Hlone].
      destruct r2 as [|b1 r3]; [apply Hlone|].
      destruct b1 as [|pb1]; [apply Hlone|].
      destruct (decide (pb1 = 92%positive)) as [->|Hb1].
      2:{ do 7 (try (destruct pb1 as [pb1|pb1|]; try apply Hlone)); done. }
      destruct r3 as [|b2 r4]; [apply Hlone|].
      destruct b2 as [|pb2]; [apply Hlone|].
      destruct (decide (pb2 = 117%positive)) as [->|Hb2].
      2:{ do 7 (try (destruct pb2 as [pb2|pb2|]; try apply Hlone)); done. }
      destruct r4 as [|l1 [|l2 [|l3 [|l4 r5]]]]; try apply Hlone.
      destruct (hex4 l1 l2 l3 l4) as [uni2|]; [|done].
      destruct (is_low_surrogate uni2); [|apply Hlone].
      intros (x' & H & _)%push_inv.
      apply IH' in H; simpl in *; lia.
    + destruct (backslash e); [|done].
      intros (x' & H & _)%push_inv. apply IH' in H; simpl in *; lia.
  - destruct (c <? 32); [done|].
    intros (x' & H & _)%push_inv. apply IH' in H; simpl in *; lia.
Qed.

Lemma span_digits_length s :
  (length (span_digits s).2 <= length s)%nat.
Proof.
  induction s as [|c r IH]; simpl; [lia|].
  destruct (is_digit c); simpl; [|lia].
  destruct (span_digits r) as [d t]. simpl in *. lia.
Qed.

Lemma span_digits_eq s d t :
  span_digits s = (d, t) -> (length t <= length s)%nat.
Proof. intros H. pose proof (span_digits_length s). by rewrite H in *. Qed.

(** The sign, the fraction and the exponent take nothing or something. *)
Lemma match_number_length s l t :
  match_number s = Some (l, t) -> (length t < length s)%nat.
Proof.
  unfold match_number.
  set (sg := match s with 45 :: r => ([45], r) | _ => ([], s) end).
  assert (Hsg : (length sg.2 <= length s)%nat).
  { unfold sg. destruct s as [|[|p] r]; simpl; try lia.
    do 6 (try (destruct p as [p|p|]; simpl; try lia)). }
  destruct sg as [sign s1]. simpl in Hsg.
  set (ip := match s1 with
             | c :: r => if c =? 48 then Some ([48], r)
                         else if is_digit c
                              then let '(d, t) := span_digits r in Some (c :: d, t)
                              else None
             | [] => None
             end).
  assert (Hip : forall i s2, ip = Some (i, s2) -> (length s2 < length s1)%nat).
  { unfold ip. destruct s1 as [|c r]; [done|]. intros i s2.
    destruct (c =? 48); [intros [= _ <-]; simpl; lia|].
    destruct (is_digit c); [|done].
    destruct (span_digits r) as [d t0] eqn:E. intros [= _ <-].
    apply span_digits_eq in E. simpl. lia. }
  destruct ip as [[i s2]|]; [|done]. specialize (Hip i s2 eq_refl).
  set (fr := match s2 with
             | 46 :: d :: r =>
                 if is_digit d then let '(ds, t) := span_digits r in (46 :: d :: ds, t)
                 else ([], s2)
             | _ => ([], s2)
             end).
  assert (Hfr : (length fr.2 <= length s2)%nat).
  { unfold fr. destruct s2 as [|[|p] r]; simpl; try lia.
    destruct r as [|d r].
    { do 6 (try (destruct p as [p|p|]; simpl; try lia)). }
    set (y := if is_digit d
              then let '(ds, t) := span_digits r in (46 :: d :: ds, t)
              else ([], N.pos p :: d :: r)).
    assert (Hd : (length y.2 <= S (S (length r)))%nat).
    { unfold y. destruct (is_digit d); simpl; [|lia].
      destruct (span_digits r) as [ds t0] eqn:E. apply span_digits_eq in E.
      simpl. lia. }
    do 6 (try (destruct p as [p|p|]; simpl; try lia)). }
  destruct fr as [frac s3]. simpl in Hfr.
  set (ex := match s3 with
             | e :: r =>
                 if (e =? 101) || (e =? 69) then
                   let '(sg, r1) :=
                     match r with
                     | c :: r' => if (c =? 45) || (c =? 43) then ([c], r') else ([], r)
                     | [] => ([], r)
                     end in
                   match span_digits r1 with
                   | ([], _) => ([], s3)
                   | (ds, t) => (e :: sg ++ ds, t)
                   end
                 else ([], s3)
             | [] => ([], s3)
             end).
  assert (Hex : (length ex.2 <= length s3)%nat).
  { unfold ex. destruct s3 as [|e r]; [simpl; lia|].
    destruct ((e =? 101) || (e =? 69)); [|simpl; lia].
    set (x := match r with
              | c :: r' => if (c =? 45) || (c =? 43) then ([c], r') else ([], r)
              | [] => ([], r)
              end).
    assert (Hx : (length x.2 <= length r)%nat).
    { unfold x. destruct r as [|c r']; [simpl; lia|].
      destruct (_ || _); simpl; lia. }
    destruct x as [sg0 r1]. simpl in Hx.
    destruct (span_digits r1) as [ds t0] eqn:E. apply span_digits_eq in E.
    destruct ds; simpl; lia. }
  destruct ex as [exp s4]. simpl in Hex. intros [= _ <-]. lia.
Qed.

Definition shorter (r : scan (py * str)) (s : str) : Prop :=
  match r with
  | Scanned (_, t) => (length t < length s)%nat
  | _ => True
  end.

Lemma shorter_le r s s' :
  shorter r s -> (length s <= length s')%nat -> shorter r s'.
Proof. destruct r as [[v t]| |]; simpl; [lia|done|done]. Qed.

Lemma drop_shorter (n : nat) (s : str) :
  s <> [] -> (0 < n)%nat -> (length (drop n s) < length s)%nat.
Proof. intros Hs Hn. rewrite length_drop. destruct s; [done|]. simpl. lia. Qed.

Lemma scan_once_S f c r :
  scan_once (S f) (c :: r)
  = if c =? 34 then
      match scanstring r with
      | Some (x, t) => Scanned (PyStr x, t)
      | None => Invalid
      end
    else if c =? 123 then
      match skip_ws r with
      | 125 :: t => Scanned (PyDict [], t)
      | 34 :: t => object_members f t []
      | _ => Invalid
      end
    else if c =? 91 then
      match skip_ws r with
      | 93 :: t => Scanned (PyList [], t)
      | t => array_items f t []
      end
    else if startswith (c :: r) (u "null") then Scanned (PyNone, drop 4 (c :: r))
    else if startswith (c :: r) (u "true") then Scanned (PyBool true, drop 4 (c :: r))
    else if startswith (c :: r) (u "false") then Scanned (PyBool false, drop 5 (c :: r))
    else
      match match_number (c :: r) with
      | Some (lexeme, t) => Scanned (PyNum lexeme, t)
      | None =>
          if startswith (c :: r) (u "NaN") then Scanned (PyNum (u "NaN"), drop 3 (c :: r))
          else if startswith (c :: r) (u "Infinity")
          then Scanned (PyNum (u "Infinity"), drop 8 (c :: r))
          else if startswith (c :: r) (u "-Infinity")
          then Scanned (PyNum (u "-Infinity"), drop 9 (c :: r))
          else Invalid
      end.
Proof. reflexivity. Qed.

Lemma array_items_S f s acc :
  array_items (S f) s acc
  = match scan_once f s with
    | Scanned (v, t) =>
        match skip_ws t with
        | 93 :: t' => Scanned (PyList (rev (v :: acc)), t')
        | 44 :: t' => array_items f (skip_ws t') (v :: acc)
        | _ => Invalid
        end
    | Invalid => Invalid
    | Exhausted => Exhausted
    end.
Proof. reflexivity. Qed.

Lemma object_members_S f s acc :
  object_members (S f) s acc
  = match scanstring s with
    | None => Invalid
    | Some (key, t) =>
        match skip_ws t with
        | 58 :: t1 =>
            match scan_once f (skip_ws t1) with
            | Scanned (v, t2) =>
                match skip_ws t2 with
                | 125 :: t3 =>
                    Scanned (PyDict (dict_of (rev ((KStr key, v) :: acc))), t3)
                | 44 :: t3 =>
                    match skip_ws t3 with
                    | 34 :: t4 => object_members f t4 ((KStr key, v) :: acc)
                    | _ => Invalid
                    end
                | _ => Invalid
                end
            | Invalid => Invalid
            | Exhausted => Exhausted
            end
        | _ => Invalid
        end
    end.
Proof. reflexivity. Qed.

(** Case analysis on a character against a literal. *)
Ltac by_char c :=
  destruct c as [|?p]; [try done|];
  do 7 (try (destruct p as [p|p|]; try done)).

(** What the scanner returns as the rest is shorter than what it was
    given. *)
Lemma scan_shorter fuel :
  (forall s, shorter (scan_once fuel s) s)
  /\ (forall s acc, shorter (array_items fuel s acc) s)
  /\ (forall s acc, shorter (object_members fuel s acc) s).
Proof.
  induction fuel as [|f (IHo & IHa & IHm)]; [done|].
  assert (Ho : forall s, shorter (scan_once (S f) s) s).
  { intros [|c r]; [done|]. rewrite scan_once_S.
    destruct (c =? 34).
    { destruct (scanstring r) as [[x t]|] eqn:E; [|done].
      apply scanstring_length in E. simpl. lia. }
    destruct (c =? 123).
    { pose proof (skip_ws_length r) as L.
      destruct (skip_ws r) as [|c' t]; [done|].
      assert (A : shorter (Scanned (PyDict [], t)) (c :: r)) by (simpl in *; lia).
      assert (B : shorter (object_members f t []) (c :: r)).
      { eapply shorter_le; [apply IHm|simpl in *; lia]. }
      by_char c'. }
    destruct (c =? 91).
    { pose proof (skip_ws_length r) as L.
      assert (B : shorter (array_items f (skip_ws r) []) (c :: r)).
      { eapply shorter_le; [apply IHa|simpl in *; lia]. }
      destruct (skip_ws r) as [|c' t]; [exact B|].
      assert (A : shorter (Scanned (PyList [], t)) (c :: r)) by (simpl in *; lia).
      by_char c'. }
    destruct (startswith _ _); [by apply drop_shorter; [|lia]|].
    destruct (startswith _ _); [by apply drop_shorter; [|lia]|].
    destruct (startswith _ _); [by apply drop_shorter; [|lia]|].
    destruct (match_number (c :: r)) as [[l t]|] eqn:E.
    { by apply match_number_length in E. }
    destruct (startswith _ _); [by apply drop_shorter; [|lia]|].
    destruct (startswith _ _); [by apply drop_shorter; [|lia]|].
    destruct (startswith _ _); [by apply drop_shorter; [|lia]|]. done. }
  split; [exact Ho|]. split.
  - intros s acc. rewrite array_items_S.
    pose proof (IHo s) as H1.
    destruct (scan_once f s) as [[v t]| |]; [|done|done]. simpl in H1.
    pose proof (skip_ws_length t) as L.
    destruct (skip_ws t) as [|c' t']; [done|].
    assert (A : shorter (Scanned (PyList (rev (v :: acc)), t')) s)
      by (simpl in *; lia).
    assert (B : shorter (array_items f (skip_ws t') (v :: acc)) s).
    { eapply shorter_le; [apply IHa|].
      pose proof (skip_ws_length t'). simpl in *. lia. }
    by_char c'.
  - intros s acc. rewrite object_members_S.
    destruct (scanstring s) as [[key t]|] eqn:E; [|done].
    apply scanstring_length in E.
    pose proof (skip_ws_length t) as L.
    destruct (skip_ws t) as [|c1 t1]; [done|].
    assert (B : shorter
                  match scan_once f (skip_ws t1) with
                  | Scanned (v, t2) =>
                      match skip_ws t2 with
                      | 125 :: t3 =>
                          Scanned (PyDict (dict_of (rev ((KStr key, v) :: acc))), t3)
                      | 44 :: t3 =>
                          match skip_ws t3 with
                          | 34 :: t4 => object_members f t4 ((KStr key, v) :: acc)
                          | _ => Invalid
                          end
                      | _ => Invalid
                      end
                  | Invalid => Invalid
                  | Exhausted => Exhausted
                  end s).
    { pose proof (IHo (skip_ws t1)) as H1.
      pose proof (skip_ws_length t1) as L1.
      destruct (scan_once f (skip_ws t1)) as [[v t2]| |]; [|done|done].
      simpl in H1. pose proof (skip_ws_length t2) as L2.
      destruct (skip_ws t2) as [|c3 t3]; [done|].
      assert (A3 : shorter
                     (Scanned (PyDict (dict_of (rev ((KStr key, v) :: acc))), t3)) s)
        by (simpl in *; lia).
      assert (B3 : shorter
                     match skip_ws t3 with
                     | 34 :: t4 => object_members f t4 ((KStr key, v) :: acc)
                     | _ => Invalid
                     end s).
      { pose proof (skip_ws_length t3) as L3.
        destruct (skip_ws t3) as [|c4 t4]; [done|].
        assert (B4 : shorter (object_members f t4 ((KStr key, v) :: acc)) s).
        { eapply shorter_le; [apply IHm|simpl in *; lia]. }
        by_char c4. }
      by_char c3. }
    by_char c1.
Qed.

(** Fuel of twice the length of the text, and a little, is never used
    up. *)
Lemma scan_enough fuel :
  (forall s, (2 * length s + 1 <= fuel)%nat -> scan_once fuel s <> Exhausted)
  /\ (forall s acc, (2 * length s + 2 <= fuel)%nat ->
        array_items fuel s acc <> Exhausted)
  /\ (forall s acc, (2 * length s + 2 <= fuel)%nat ->
        object_members fuel s acc <> Exhausted).
Proof.
  induction fuel as [|f (IHo & IHa & IHm)].
  { repeat split; intros; lia. }
  destruct (scan_shorter f) as (So & Sa & Sm).
  split; [|split].
  - intros [|c r] Hf; [done|]. rewrite scan_once_S. simpl in Hf.
    destruct (c =? 34); [by destruct (scanstring r) as [[x t]|]|].
    destruct (c =? 123).
    { pose proof (skip_ws_length r) as L.
      destruct (skip_ws r) as [|c' t]; [done|].
      assert (B : object_members f t [] <> Exhausted)
        by (apply IHm; simpl in *; lia).
      by_char c'. }
    destruct (c =? 91).
    { pose proof (skip_ws_length r) as L.
      assert (B : array_items f (skip_ws r) [] <> Exhausted)
        by (apply IHa; lia).
      destruct (skip_ws r) as [|c' t]; [exact B|].
      by_char c'. }
    repeat (destruct (startswith _ _); [done|]).
    destruct (match_number (c :: r)) as [[l t]|]; [done|].
    repeat (destruct (startswith _ _); [done|]). done.
  - intros s acc Hf. rewrite array_items_S.
    pose proof (IHo s ltac:(lia)) as H1. pose proof (So s) as H2.
    destruct (scan_once f s) as [[v t]| |]; [|done|done]. simpl in H2.
    pose proof (skip_ws_length t) as L.
    destruct (skip_ws t) as [|c' t']; [done|].
    assert (B : array_items f (skip_ws t') (v :: acc) <> Exhausted).
    { apply IHa. pose proof (skip_ws_length t'). simpl in *. lia. }
    by_char c'.
  - intros s acc Hf. rewrite object_members_S.
    destruct (scanstring s) as [[key t]|] eqn:E; [|done].
    apply scanstring_length in E.
    pose proof (skip_ws_length t) as L.
    destruct (skip_ws t) as [|c1 t1]; [done|].
    assert (B : match scan_once f (skip_ws t1) with
                | Scanned (v, t2) =>
                    match skip_ws t2 with
                    | 125 :: t3 =>
                        Scanned (PyDict (dict_of (rev ((KStr key, v) :: acc))), t3)
                    | 44 :: t3 =>
                        match skip_ws t3 with
                        | 34 :: t4 => object_members f t4 ((KStr key, v) :: acc)
                        | _ => Invalid
                        end
                    | _ => Invalid
                    end
                | Invalid => Invalid
                | Exhausted => Exhausted
                end <> Exhausted).
    { pose proof (skip_ws_length t1) as L1.
      pose proof (IHo (skip_ws t1) ltac:(simpl in *; lia)) as H1.
      pose proof (So (skip_ws t1)) as H2.
      destruct (scan_once f (skip_ws t1)) as [[v t2]| |]; [|done|done].
      simpl in H2. pose proof (skip_ws_length t2) as L2.
      destruct (skip_ws t2) as [|c3 t3]; [done|].
      assert (B3 : match skip_ws t3 with
                   | 34 :: t4 => object_members f t4 ((KStr key, v) :: acc)
                   | _ => Invalid
                   end <> Exhausted).
      { pose proof (skip_ws_length t3) as L3.
        destruct (skip_ws t3) as [|c4 t4]; [done|].
        assert (B4 : object_members f t4 ((KStr key, v) :: acc) <> Exhausted)
          by (apply IHm; simpl in *; lia).
        by_char c4. }
      by_char c3. }
    by_char c1.
Qed.

(** [decode] never runs out of fuel: it ends with a value or with a
    syntax error, as [JSONDecoder.decode] does. *)
Lemma decode_not_exhausted s : decode s <> Exhausted.
Proof.
  unfold decode, fuel_for.
  pose proof (skip_ws_length s) as L.
  destruct (scan_enough (2 * length s + 2)) as (Ho & _).
  specialize (Ho (skip_ws s) ltac:(lia)).
  destruct (scan_once _ (skip_ws s)) as [[v t]| |]; [|done|done].
  by destruct (skip_ws t).
Qed.

End JsonFacts.

(** * The claims about the dataset providers *)

Import Py PyFacts Datasets DatasetFacts.

(** C1 (as stated, refuted): the local provider hands back a file found at
    a local path as it is; here the file holds the five bytes [hello],
    which are neither a JSON array of objects nor JSON Lines. *)
Lemma C1_counterexample :
  let w0 := Examples.world [] [] in
  let w := with_fs {[ Path_of (u "/data/raw.txt") := File (Examples.b "hello") ]} w0 in
  let r := L.load_dataset Examples.local_default (u "ns")
             (Some (u "/data/raw.txt")) None None None None None w in
  exists d c,
    r.1 = inr d
    /\ fs r.2 !! Path_of (path d) = Some (File c)
    /\ Spec.well_formed_json c = false.
Proof.
  exists (result (u "/data/raw.txt") (Examples.b "hello")
            [(u "provider", u "local"); (u "filename", u "raw.txt")]),
    (Examples.b "hello").
  split; [|split]; vm_compute; reflexivity.
Qed.

(** C1 (amended): after a successful [save_upload] of either provider, or a
    successful [load_dataset] of the local provider from an HTTP(S) URL,
    the file at the returned path exists, holds the returned content, and
    that content parses as one JSON document. *)
Theorem C1_validated_result_is_json w d w' :
  Calls.validated_call w d w' -> Calls.materialized_json d w'.
Proof.
  assert (Hwc : forall s ns fn c w0,
            Spec.wf_path (L.home_dir s) = true ->
            L._write_content s ns fn c w0 = (inr d, w') ->
            Calls.materialized_json d w').
  { intros s ns fn c w0 Hwf H.
    apply _write_content_inr in H as (final & Hn & -> & Hfs).
    apply normalize_inr in Hn as [v Hv].
    exists final, v. split; [done|]. split; [|done]. simpl.
    rewrite Path_of_str; [done|].
    apply joinpath_wf. by apply wf_namespace_dir_local. }
  assert (Hsu : forall s ns file url,
            Spec.wf_path (L.home_dir s) = true ->
            L.save_upload s ns file url w = (inr d, w') ->
            Calls.materialized_json d w').
  { intros s ns file url Hwf H. unfold L.save_upload in H.
    destruct (negb (bool_decide (is_Some file)) && negb (truthy url));
      [discriminate H|].
    destruct (truthy url).
    - apply _download_url_inr in H as (body & _ & H). eauto.
    - destruct file; [eauto|discriminate H]. }
  intros [s ns file url Hwf H|s ns file url Hwf H
         |s ns url sv pid sub env cid Hwf Hurl H].
  - eauto.
  - rewrite rt_save_upload_eq in H. eapply Hsu; [|exact H]. done.
  - unfold L.load_dataset in H.
    destruct (truthy (Some url)); [|by destruct (truthy sv)].
    simpl in H. rewrite Hurl in H.
    apply _download_url_inr in H as (body & _ & H). eauto.
Qed.

Lemma C1_validated_result_is_json_witness :
  let w := Examples.world (Examples.b "[1]") [] in
  let r := L.save_upload Examples.local_default (u "ns") None
             (Some (u "http://host/data.json")) w in
  exists d, r.1 = inr d /\ Calls.materialized_json d r.2.
Proof.
  intros w r.
  exists (result (u "/home/user/.docetl/ns/files/data.json") (Examples.b "[1]")
            [(u "provider", u "local"); (u "filename", u "data.json");
             (u "namespace", u "ns")]).
  assert (E : r.1 = inr (result (u "/home/user/.docetl/ns/files/data.json")
                           (Examples.b "[1]")
                           [(u "provider", u "local"); (u "filename", u "data.json");
                            (u "namespace", u "ns")])).
  { vm_compute. reflexivity. }
  split; [exact E|].
  apply (C1_validated_result_is_json w).
  eapply (Calls.local_save_upload _ _ _ Examples.local_default (u "ns") None
            (Some (u "http://host/data.json"))).
  - vm_compute. reflexivity.
  - rewrite <- E. fold w. fold r. by destruct r.
Defined.

(** C2 (as stated, refuted): with both an upload and a URL supplied the
    call does not fail; the URL is downloaded and the upload is ignored. *)
Lemma C2_counterexample :
  let w := Examples.world (Examples.b "[1]") [] in
  let file := Some (mkUploadFile (u "upload.json") (Examples.b "[2]")) in
  let url := Some (u "http://host/data.json") in
  let r := L.save_upload Examples.local_default (u "ns") file url w in
  is_Some file /\ truthy url = true
  /\ r.1 = inr (result (u "/home/user/.docetl/ns/files/data.json")
                  (Examples.b "[1]")
                  [(u "provider", u "local"); (u "filename", u "data.json");
                   (u "namespace", u "ns")]).
Proof. split; [by eexists|]. split; vm_compute; reflexivity. Qed.

(** C2 (amended): [save_upload] fails with InvalidArgument exactly when
    neither an upload nor a non-empty URL is supplied; every other failure
    of the call, from the download or from storing the content, is of
    another kind.  A non-empty URL is downloaded whether or not an upload
    comes with it; an upload is stored only when no URL is given.  The
    same holds of the RT provider. *)
Theorem C2_save_upload_dispatch s ns file url w :
  L.save_upload s ns file url w =
    (match truthy url, file with
     | true, _ => L._download_url s ns (default [] url) w
     | false, Some f => L._write_content s ns (filename f) (read f) w
     | false, None =>
         (inl (HTTPException 400 (u "Either file or url must be provided")), w)
     end)
  /\ ((exists e, (L.save_upload s ns file url w).1 = inl e
                 /\ Spec.kind_of e = Spec.InvalidArgument)
      <-> file = None /\ truthy url = false)
  /\ (forall rs,
        (exists e, (R.save_upload rs ns file url w).1 = inl e
                   /\ Spec.kind_of e = Spec.InvalidArgument)
        <-> file = None /\ truthy url = false).
Proof.
  split; [|split].
  - unfold L.save_upload. destruct (truthy url), file; reflexivity.
  - apply save_upload_invalid_argument.
  - intros rs. rewrite rt_save_upload_eq. apply save_upload_invalid_argument.
Qed.

(** C3 (as stated, refuted): bytes fetched from a [gs://] URI are written as
    they are.  The Format Normalizer rejects the five bytes [hello], yet
    the call succeeds and hands them back. *)
Lemma C3_counterexample :
  let payload := Examples.b "hello" in
  let w := Examples.world [] payload in
  let r := R.load_dataset Examples.rt_default (u "ns")
             (Some (u "gs://bucket/raw.json")) None None None None None w in
  r.1 = inr (result (u "/home/user/.docetl/ns/rt/raw.json") payload
               [(u "dataset_url", u "gs://bucket/raw.json");
                (u "source_uri", u "gs://bucket/raw.json");
                (u "namespace", u "ns"); (u "provider", u "rt")])
  /\ normalize payload (u "raw.json")
     = inl (HTTPException 400 (u "Invalid JSON format: ")).
Proof. split; vm_compute; reflexivity. Qed.

Lemma gs_not_http (uri : str) :
  startswith uri (u "gs://") = true ->
  truthy (Some uri) = true
  /\ startswith uri (u "http://") || startswith uri (u "https://") = false.
Proof.
  change (u "gs://") with [103; 115; 58; 47; 47].
  destruct uri as [|c r]; [done|].
  intros H. assert (c = 103) as ->.
  { apply andb_prop in H as [Hc _]. by apply N.eqb_eq in Hc. }
  done.
Qed.

(** C3 (amended): for the RT provider, a successful [load_dataset] with a
    [dataset_url] that starts with [gs://] got the bytes from the storage
    client's [get_file_from_uri], wrote them unchanged under the namespace
    directory (file name: the last segment of the URI, or [dataset.json]),
    and returns them with metadata [dataset_url], [source_uri], [namespace]
    and [provider = rt]. *)
Theorem C3_gs_uri_materialized_raw s ns uri sv pid sub env cid w d w' :
  startswith uri (u "gs://") = true ->
  R.load_dataset s ns (Some uri) sv pid sub env cid w = (inr d, w') ->
  exists storage w1 payload,
    R._ensure_storage w = (inr storage, w1)
    /\ get_file_from_uri storage uri = inr payload
    /\ content d = Some payload
    /\ path d = Path_str (rt_target s ns
                            (str_or (last_item (split uri 47)) (u "dataset.json")))
    /\ fs w' !! rt_target s ns
                  (str_or (last_item (split uri 47)) (u "dataset.json"))
       = Some (File payload)
    /\ dict_get (u "provider") (metadata d) = Some (u "rt")
    /\ dict_get (u "source_uri") (metadata d) = Some uri
    /\ dict_get (u "dataset_url") (metadata d) = Some uri
    /\ dict_get (u "namespace") (metadata d) = Some ns.
Proof.
  intros Hgs H. destruct (gs_not_http uri Hgs) as [Ht Hh].
  unfold R.load_dataset in H. rewrite Ht in H. simpl in H.
  rewrite Hh, Hgs in H.
  apply _fetch_storage_uri_inr in H as (storage & w1 & payload & He & Hg & H).
  apply _write_bytes_inr in H as [-> Hfs].
  exists storage, w1, payload. repeat (split; [done|]). done.
Qed.

Lemma C3_gs_uri_materialized_raw_witness :
  let payload := Examples.b "[]" in
  let w := Examples.world [] payload in
  let r := R.load_dataset Examples.rt_default (u "ns")
             (Some (u "gs://bucket/x.json")) None None None None None w in
  exists d, r.1 = inr d /\ content d = Some payload
            /\ dict_get (u "provider") (metadata d) = Some (u "rt").
Proof.
  intros payload w r. run_as r E.
  match type of E with _ = (inr ?d, _) => exists d end.
  destruct (C3_gs_uri_materialized_raw Examples.rt_default (u "ns")
              (u "gs://bucket/x.json") None None None None None w _ _
              ltac:(vm_compute; reflexivity) E)
    as (storage & w1 & p & He & Hg & Hc & _ & _ & Hp & _).
  split; [vm_compute; reflexivity|]. split; [vm_compute; reflexivity|exact Hp].
Defined.

(** C6 (the code at the failing inputs): every occurrence of [.csv] in the
    file name is replaced, wherever it stands and only in lower case.  An
    upload named [archive.csv.bak], which has no [.csv] extension, is stored
    as [archive.json.bak]; an upload named [DATA.CSV], which the classifier
    takes for CSV by its extension and converts, keeps its name. *)
Theorem C6_csv_replaced_anywhere :
  let w := Examples.world [] [] in
  let save name data :=
    (L.save_upload Examples.local_default (u "ns")
       (Some (mkUploadFile (u name) (Examples.b data))) None w).1 in
  save "archive.csv.bak" "[1]"
    = inr (result (u "/home/user/.docetl/ns/files/archive.json.bak")
             (Examples.b "[1]")
             [(u "provider", u "local"); (u "filename", u "archive.json.bak");
              (u "namespace", u "ns")])
  /\ _is_likely_csv (Examples.b "a,b") (u "DATA.CSV") = true
  /\ (exists d,
        save "DATA.CSV" ("a,b" ++ Examples.nl ++ "1,2")%string = inr d
        /\ path d = u "/home/user/.docetl/ns/files/DATA.CSV"
        /\ Json.loads <$> content d
           = Some (Json.Loaded
                     (PyList [PyDict [(KStr (u "a"), PyStr (u "1"));
                                      (KStr (u "b"), PyStr (u "2"))]]))).
Proof.
  intros w save. split; [vm_compute; reflexivity|].
  split; [vm_compute; reflexivity|].
  destruct (save "DATA.CSV" ("a,b" ++ Examples.nl ++ "1,2")%string)
    as [e|d] eqn:E; [exfalso; vm_compute in E; discriminate E|].
  exists d. split; [done|].
  vm_compute in E. injection E as <-. split; vm_compute; reflexivity.
Qed.




Lemma envelope_filename (a : str) :
  str_or (last_item (split (a ++ u "/envelope/envelope.json") 47))
    (u "dataset.json")
  = u "envelope.json".
Proof.
  change (u "/envelope/envelope.json")
    with (u "/envelope" ++ 47 :: u "envelope.json").
  rewrite app_assoc, last_segment_app; done.
Qed.

Lemma _resolve_source_version_inr s ns svid pid env cid w d w' :
  R._resolve_source_version s ns svid pid env cid w = (inr d, w') ->
  exists payload,
    Calls.envelope_payload w svid pid env cid payload
    /\ content d = Some payload
    /\ path d = Path_str (rt_target s ns (u "envelope.json"))
    /\ fs w' !! rt_target s ns (u "envelope.json") = Some (File payload).
Proof.
  unfold R._resolve_source_version. intros H.
  bind_step H. bind_step H. bind_step H.
  injection Hstep0 as <- <-. apply lift_inr in Hstep1 as [Hl ->].
  apply _fetch_storage_uri_inr in H as (storage & w3 & payload & He & Hg & H).
  pose proof (_ensure_storage_again _ _ _ Hstep) as He'.
  rewrite He' in He. injection He as <- <-.
  rewrite !app_assoc, envelope_filename in H.
  apply _write_bytes_inr in H as [-> Hfs].
  exists payload. split; [|done].
  exists a, w0, a1. split; [done|]. split; [done|].
  exact Hg.
Qed.

(** C10: for the RT provider, a resolution by [source_version_id] writes
    what the storage client returns for the envelope of that version to
    the file [envelope.json] in the namespace directory, whatever the
    environment, canonical source and source version are.  Two successful
    resolutions in one namespace return the same path; after the first
    the file at that path holds the first envelope, after the second it
    holds the second. *)
Theorem C10_envelope_fixed_filename
    s ns sv1 pid1 sub1 env1 cid1 sv2 pid2 sub2 env2 cid2 w d1 w1 d2 w2 :
  Spec.wf_path (R.home_dir s) = true ->
  R.load_dataset s ns None sv1 pid1 sub1 env1 cid1 w = (inr d1, w1) ->
  R.load_dataset s ns None sv2 pid2 sub2 env2 cid2 w1 = (inr d2, w2) ->
  exists payload1 payload2,
    Calls.envelope_payload w (default [] sv1) pid1 env1 cid1 payload1
    /\ Calls.envelope_payload w1 (default [] sv2) pid2 env2 cid2 payload2
    /\ path d1 = Path_str (joinpath (R._namespace_dir s ns) (u "envelope.json"))
    /\ path d2 = path d1
    /\ content d1 = Some payload1
    /\ content d2 = Some payload2
    /\ fs w1 !! Path_of (path d1) = Some (File payload1)
    /\ fs w2 !! Path_of (path d1) = Some (File payload2).
Proof.
  intros Hwf H1 H2. unfold R.load_dataset in H1, H2. simpl in H1, H2.
  destruct (truthy sv1); [|discriminate H1].
  destruct (truthy sv2); [|discriminate H2].
  apply _resolve_source_version_inr in H1 as (p1 & Hg1 & Hc1 & Hp1 & Hf1).
  apply _resolve_source_version_inr in H2 as (p2 & Hg2 & Hc2 & Hp2 & Hf2).
  assert (Hpo : Path_of (path d1) = rt_target s ns (u "envelope.json")).
  { rewrite Hp1. apply Path_of_str, joinpath_wf.
    by apply wf_namespace_dir_rt. }
  exists p1, p2. rewrite Hpo, Hp1, Hp2. done.
Qed.

Lemma C10_envelope_fixed_filename_witness :
  let w := Examples.world [] (Examples.b "[]") in
  let r1 := R.load_dataset Examples.rt_default (u "ns") None (Some (u "sv1"))
              None None None None w in
  let r2 := R.load_dataset Examples.rt_default (u "ns") None (Some (u "sv2"))
              None None (Some (u "prod")) (Some (u "src")) r1.2 in
  exists d1 d2,
    r1.1 = inr d1 /\ r2.1 = inr d2 /\ path d2 = path d1
    /\ path d1 = u "/home/user/.docetl/ns/rt/envelope.json"
    /\ content d2 = Some (Examples.b "[]")
    /\ fs r2.2 !! Path_of (path d1) = Some (File (Examples.b "[]")).
Proof.
  intros w r1 r2. run_as r1 E1. run_as r2 E2.
  match type of E1 with _ = (inr ?d1, _) =>
    match type of E2 with _ = (inr ?d2, _) => exists d1, d2 end
  end.
  destruct (C10_envelope_fixed_filename Examples.rt_default (u "ns")
              (Some (u "sv1")) None None None None
              (Some (u "sv2")) None None (Some (u "prod")) (Some (u "src"))
              w _ _ _ _ ltac:(vm_compute; reflexivity) E1 E2)
    as (p1 & p2 & _ & _ & Hp1 & Hp2 & _ & Hc2 & _ & Hf2).
  split; [vm_compute; reflexivity|]. split; [vm_compute; reflexivity|].
  split; [exact Hp2|]. split; [vm_compute; reflexivity|].
  assert (p2 = Examples.b "[]") as <-.
  { vm_compute in Hc2. by injection Hc2 as <-. }
  split; [exact Hc2|exact Hf2].
Defined.

(** * The claims about the pipeline sinks *)

Import Pipelines PipelineFacts.

(** C4 (as stated, refuted): a version given in the metadata is what the
    local sink reports. *)
Lemma C4_counterexample :
  let w := Examples.world [] [] in
  let r := LS.save (LS.mkSelf Examples.home) (u "ns") (u "flow") (u "a: 1")
             (Some [(u "version", Some (u "v2"))]) w in
  exists d,
    r.1 = inr d
    /\ dict_get (u "version") (manifest d) = Some (Some (u "v2")).
Proof.
  intros w r. run_as r E.
  match type of E with _ = (inr ?d, _) => exists d end.
  split; vm_compute; reflexivity.
Qed.

(** C4 (amended): the manifest of the local sink reports the version
    given in the metadata when there is a non-empty one, and the literal
    [local] otherwise.  The file written depends on the home directory,
    the namespace and the name only, so a second save of the same
    (namespace, name) returns the same path and leaves its own text
    there. *)
Theorem C4_local_sink_version_and_overwrite
    s ns name yaml1 md1 yaml2 md2 w d1 w1 d2 w2 :
  Spec.wf_path (LS.home_dir s) = true ->
  LS.save s ns name yaml1 md1 w = (inr d1, w1) ->
  LS.save s ns name yaml2 md2 w1 = (inr d2, w2) ->
  dict_get (u "version") (manifest d1)
    = Some (Some (or_else (get (default [] md1) (u "version")) (u "local")))
  /\ (truthy (get (default [] md1) (u "version")) = false ->
      dict_get (u "version") (manifest d1) = Some (Some (u "local")))
  /\ path d2 = path d1
  /\ File <$> utf8_encode yaml1 = fs w1 !! Path_of (path d1)
  /\ File <$> utf8_encode yaml2 = fs w2 !! Path_of (path d1).
Proof.
  intros Hwf H1 H2.
  apply local_save_inr in H1 as (Hp1 & Hv1 & c1 & Hc1 & Hf1).
  apply local_save_inr in H2 as (Hp2 & Hv2 & c2 & Hc2 & Hf2).
  assert (Hpo : Path_of (path d1) = local_config s ns name).
  { rewrite Hp1. apply Path_of_str. unfold local_config.
    by do 5 apply joinpath_wf. }
  rewrite Hpo, Hc1, Hc2, Hf1, Hf2, Hp1, Hp2, Hv1.
  repeat (split; [done|]). split; [|done].
  unfold or_else. by intros ->.
Qed.

Lemma C4_local_sink_version_and_overwrite_witness :
  let w := Examples.world [] [] in
  let s := LS.mkSelf Examples.home in
  let r1 := LS.save s (u "ns") (u "flow") (u "a: 1") None w in
  let r2 := LS.save s (u "ns") (u "flow") (u "a: 2") None r1.2 in
  exists d1 d2,
    r1.1 = inr d1 /\ r2.1 = inr d2
    /\ dict_get (u "version") (manifest d1) = Some (Some (u "local"))
    /\ path d2 = path d1.
Proof.
  intros w s r1 r2. run_as r1 E1. run_as r2 E2.
  match type of E1 with _ = (inr ?d1, _) =>
    match type of E2 with _ = (inr ?d2, _) => exists d1, d2 end
  end.
  destruct (C4_local_sink_version_and_overwrite s (u "ns") (u "flow")
              (u "a: 1") None (u "a: 2") None w _ _ _ _
              ltac:(vm_compute; reflexivity) E1 E2) as (_ & Hv & Hp & _).
  split; [vm_compute; reflexivity|]. split; [vm_compute; reflexivity|].
  split; [apply Hv; vm_compute; reflexivity|exact Hp].
Defined.

(** C5 (as stated, refuted): two saves of the same (namespace, name) made
    within one second, with no version in the metadata, get the same
    version and the same object key; the store then holds one object, the
    second. *)
Lemma C5_counterexample :
  let w := Examples.world [] [] in
  let r1 := RS.save (u "ns") (u "flow") (u "a: 1") None w in
  let r2 := RS.save (u "ns") (u "flow") (u "a: 2") None r1.2 in
  exists d1 d2,
    r1.1 = inr d1 /\ r2.1 = inr d2
    /\ dict_get (u "version") (manifest d1) = Some (Some (u "20261104120000"))
    /\ dict_get (u "version") (manifest d2) = Some (Some (u "20261104120000"))
    /\ uri d1 = uri d2
    /\ (map_to_list (objects r2.2)).*1
       = [u "specs/docetl/flow/20261104120000.yaml"]
    /\ so_content <$> (map_to_list (objects r2.2)).*2 = [Examples.b "a: 2"].
Proof.
  intros w r1 r2. run_as r1 E1. run_as r2 E2.
  match type of E1 with _ = (inr ?d1, _) =>
    match type of E2 with _ = (inr ?d2, _) => exists d1, d2 end
  end.
  repeat split; vm_compute; reflexivity.
Qed.

(** C5 (amended): for the remote sink, two successive saves with no version
    in the metadata, whose clock readings are valid four-digit-year times in
    different seconds, report different versions and store under different
    object keys, so after the second save both objects are in the store. *)
Theorem C5_rt_versions_differ_across_seconds
    ns name yaml1 md1 yaml2 md2 w d1 w1 d2 w2 :
  truthy (get (default [] md1) (u "version")) = false ->
  truthy (get (default [] md2) (u "version")) = false ->
  Spec.valid_datetime (clock w (tick w)) = true ->
  Spec.valid_datetime (clock w (S (S (tick w)))) = true ->
  Spec.same_second (clock w (tick w)) (clock w (S (S (tick w)))) = false ->
  RS.save ns name yaml1 md1 w = (inr d1, w1) ->
  RS.save ns name yaml2 md2 w1 = (inr d2, w2) ->
  exists v1 v2,
    dict_get (u "version") (manifest d1) = Some (Some v1)
    /\ dict_get (u "version") (manifest d2) = Some (Some v2)
    /\ v1 <> v2
    /\ rt_key name md1 v1 <> rt_key name md2 v2
    /\ so_content <$> objects w2 !! rt_key name md1 v1 = utf8_encode yaml1
    /\ so_content <$> objects w2 !! rt_key name md2 v2 = utf8_encode yaml2.
Proof.
  intros Hm1 Hm2 Hv1 Hv2 Hdiff H1 H2.
  apply rt_save_inr in H1 as (Hd1 & Hc1 & Ht1 & c1 & He1 & Ho1); [|done].
  apply rt_save_inr in H2 as (Hd2 & Hc2 & Ht2 & c2 & He2 & Ho2); [|done].
  assert (Hrv : rt_version w1 = strftime_compact (clock w (S (S (tick w))))).
  { unfold rt_version. by rewrite Hc1, Ht1. }
  assert (Hne : rt_version w <> rt_version w1).
  { rewrite Hrv. unfold rt_version. intros E.
    apply strftime_compact_inj in E; [|done|done]. congruence. }
  assert (Hkey : rt_key name md1 (rt_version w)
                 <> rt_key name md2 (rt_version w1)).
  { unfold rt_key. intros E. apply Hne.
    eapply object_key_inj_version; [|exact E].
    rewrite Hrv. unfold rt_version.
    by rewrite !strftime_compact_length. }
  exists (rt_version w), (rt_version w1).
  repeat (split; [done|]).
  rewrite Ho2, Ho1, He1, He2. split.
  - rewrite lookup_insert_ne by done. by rewrite lookup_insert_eq.
  - by rewrite lookup_insert_eq.
Qed.

Lemma C5_rt_versions_differ_across_seconds_witness :
  let ticking (n : nat) :=
    mkDatetime 2026 11 4 12 0 (N.of_nat n) 0 in
  let w0 := Examples.world [] [] in
  let w := mkWorld (fs w0) (objects w0) 0 None ticking (http_get w0)
             (storage_env w0) (resolver w0) (env_home w0) in
  let r1 := RS.save (u "ns") (u "flow") (u "a: 1") None w in
  let r2 := RS.save (u "ns") (u "flow") (u "a: 2") None r1.2 in
  exists d1 d2 v1 v2,
    r1.1 = inr d1 /\ r2.1 = inr d2
    /\ dict_get (u "version") (manifest d1) = Some (Some v1)
    /\ dict_get (u "version") (manifest d2) = Some (Some v2)
    /\ v1 <> v2.
Proof.
  intros ticking w0 w r1 r2. run_as r1 E1. run_as r2 E2.
  destruct (C5_rt_versions_differ_across_seconds (u "ns") (u "flow")
              (u "a: 1") None (u "a: 2") None w _ _ _ _
              ltac:(vm_compute; reflexivity) ltac:(vm_compute; reflexivity)
              ltac:(vm_compute; reflexivity) ltac:(vm_compute; reflexivity)
              ltac:(vm_compute; reflexivity) E1 E2)
    as (v1 & v2 & Hd1 & Hd2 & Hne & _).
  match type of E1 with _ = (inr ?d1, _) =>
    match type of E2 with _ = (inr ?d2, _) => exists d1, d2, v1, v2 end
  end.
  split; [vm_compute; reflexivity|]. split; [vm_compute; reflexivity|].
  split; [exact Hd1|]. split; [exact Hd2|exact Hne].
Defined.

(** * More about the code: the file system and the dataset providers *)

Module FsFacts.
Import Py PyFacts.

(** Creating directories adds directories where nothing was, and changes
    nothing else; when it succeeds every directory asked for is there. *)
Lemma mkdir_each_spec ps last_one f r f' :
  mkdir_each ps last_one f = (r, f') ->
  (forall p, f' !! p = f !! p \/ (f !! p = None /\ f' !! p = Some Dir))
  /\ (r = inr tt -> forall q, In q ps -> f' !! q = Some Dir).
Proof.
  revert f. induction ps as [|q ps IH]; intros f; simpl.
  - intros [= <- <-]. split; [by left|]. intros _ q [].
  - destruct (f !! q) as [[c|]|] eqn:Hq.
    + intros [= <- <-]. split; [by left|]. by destruct (decide (q = last_one)).
    + intros H. destruct (IH _ H) as [Hk Hd]. split; [done|].
      intros Hr q' [<-|Hin]; [|by apply Hd].
      destruct (Hk q) as [->|[Hn _]]; congruence.
    + intros H. destruct (IH _ H) as [Hk Hd]. split.
      * intros p0. destruct (decide (q = p0)) as [<-|Hne].
        -- right. split; [done|].
           destruct (Hk q) as [E|[E _]]; rewrite lookup_insert_eq in E;
             congruence.
        -- destruct (Hk p0) as [E|[E1 E2]];
             rewrite lookup_insert_ne in * by done; auto.
      * intros Hr q' [<-|Hin]; [|by apply Hd].
        destruct (Hk q) as [E|[E _]]; rewrite lookup_insert_eq in E; congruence.
Qed.

Lemma mkdir_parents_spec p w r w' :
  mkdir_parents p w = (r, w') ->
  w' = with_fs (fs w') w
  /\ (forall q, fs w' !! q = fs w !! q
                \/ (fs w !! q = None /\ fs w' !! q = Some Dir))
  /\ (r = inr tt -> is_dir (fs w') p = true).
Proof.
  unfold mkdir_parents.
  destruct (mkdir_each (ancestors p) p (fs w)) as [r0 f] eqn:E.
  intros [= <- <-]. simpl. apply mkdir_each_spec in E as [Hk Hd].
  split; [done|]. split; [done|]. intros Hr.
  unfold is_dir. destruct (parts p) as [|x xs] eqn:Hp; [done|].
  rewrite (Hd Hr p); [done|].
  unfold ancestors. apply in_map_iff. exists (length (parts p)).
  split.
  - rewrite firstn_all. by destruct p.
  - apply in_seq. rewrite Hp. simpl. lia.
Qed.

Lemma write_bytes_inr_parts p c w x w' :
  write_bytes p c w = (inr x, w') -> parts p <> [].
Proof.
  unfold write_bytes, is_dir. destruct (parts p); [done|]. done.
Qed.

(** An absolute path stays absolute when a segment is joined to it. *)
Lemma Path_of_root_abs seg :
  startswith seg [47] = true -> root (Path_of seg) <> [].
Proof.
  destruct seg as [|c r]; [done|]. intros H.
  assert (c = 47) as ->.
  { apply andb_prop in H as [Hc _]. by apply N.eqb_eq in Hc. }
  clear H. unfold Path_of, splitroot.
  destruct r as [|[|p1] r1]; try done.
  destruct (decide (p1 = 47%positive)) as [->|Hne].
  - destruct r1 as [|[|p2] r2]; try done.
    destruct (decide (p2 = 47%positive)) as [->|Hne2]; [done|].
    do 7 (try (destruct p2 as [p2|p2|]; try done)).
  - do 7 (try (destruct p1 as [p1|p1|]; try done)).
Qed.

Lemma joinpath_root_abs p seg :
  root p <> [] -> root (joinpath p seg) <> [].
Proof.
  intros H. unfold joinpath.
  destruct (startswith seg [47]) eqn:E; [by apply Path_of_root_abs|done].
Qed.

Lemma Path_str_abs p :
  Spec.wf_path p = true -> root p <> [] ->
  exists r, Path_str p = 47 :: r.
Proof.
  destruct p as [rt ps]. unfold Spec.wf_path. simpl.
  intros [Hrt _]%andb_prop Hne.
  apply orb_prop in Hrt as [Hrt|Hrt];
    [apply orb_prop in Hrt as [Hrt|Hrt]|];
    apply bool_decide_eq_true in Hrt; subst rt; [done| |];
    unfold Path_str; simpl; eauto.
Qed.

End FsFacts.

Import FsFacts.

Lemma load_dataset_local_file s ns url sv pid sub env cid w c :
  url <> [] ->
  startswith url (u "http://") || startswith url (u "https://") = false ->
  is_dir (fs w) (Path_of url) = false ->
  fs w !! Path_of url = Some (File c) ->
  L.load_dataset s ns (Some url) sv pid sub env cid w
  = (inr (result (Path_str (Path_of url)) c
            [(u "provider", u "local");
             (u "filename", Path_name (Path_of url))]), w).
Proof.
  intros Hne Hh Hd Hf. unfold L.load_dataset.
  replace (Datasets.truthy (Some url)) with true by (by destruct url).
  change (default [] (Some url)) with url. rewrite Hh.
  unfold bind, Path_exists, read_bytes, raise, ret. cbv beta.
  rewrite Hd, Hf. cbn [orb].
  rewrite bool_decide_eq_true_2 by eauto. cbn [negb]. by rewrite Hd, Hf.
Qed.

(** X1: what the local provider does with a [dataset_url] that is not an
    HTTP(S) URL.  A path that names a file gives the bytes of the file, as
    they are; a path that names nothing fails with 404; a path that names a
    directory fails with [IsADirectoryError] (it exists, and cannot be
    read).  The world is left as it was in each case. *)
Theorem X1_local_path_branch s ns url sv pid sub env cid w :
  url <> [] ->
  startswith url (u "http://") || startswith url (u "https://") = false ->
  L.load_dataset s ns (Some url) sv pid sub env cid w
  = (if is_dir (fs w) (Path_of url) then inl IsADirectoryError
     else match fs w !! Path_of url with
          | Some (File c) =>
              inr (result (Path_str (Path_of url)) c
                     [(u "provider", u "local");
                      (u "filename", Path_name (Path_of url))])
          | _ => inl (HTTPException 404 (u "Dataset not found"))
          end,
     w).
Proof.
  intros Hne Hh. unfold L.load_dataset.
  replace (Datasets.truthy (Some url)) with true by (by destruct url).
  change (default [] (Some url)) with url. rewrite Hh.
  unfold bind, Path_exists, read_bytes, raise, ret. cbv beta.
  destruct (is_dir (fs w) (Path_of url)) eqn:Hd.
  { cbn [orb negb]. by rewrite Hd. }
  cbn [orb].
  destruct (fs w !! Path_of url) as [[c|]|] eqn:Hf.
  - rewrite bool_decide_eq_true_2 by eauto. cbn [negb].
    rewrite Hd, Hf. reflexivity.
  - exfalso. unfold is_dir in Hd. rewrite Hf in Hd.
    by destruct (parts (Path_of url)).
  - rewrite bool_decide_eq_false_2; [done|]. by intros [x Hx].
Qed.

Lemma X1_local_path_branch_witness :
  let w := Examples.world [] [] in
  L.load_dataset Examples.local_default (u "ns") (Some (u "/data/none.json"))
    None None None None None w
  = (inl (HTTPException 404 (u "Dataset not found")), w).
Proof.
  intros w.
  rewrite (X1_local_path_branch Examples.local_default (u "ns")
             (u "/data/none.json") None None None None None w
             ltac:(discriminate) ltac:(vm_compute; reflexivity)).
  f_equal.
Defined.

Lemma _write_content_inr_parts s ns fn c w d w' :
  L._write_content s ns fn c w = (inr d, w') ->
  parts (local_target s ns fn) <> [].
Proof.
  unfold L._write_content. intros H.
  bind_step H. bind_step H. bind_step H. bind_step H.
  by eapply write_bytes_inr_parts.
Qed.

(** X2: what [save_upload] of the local provider stored is what
    [load_dataset] of a local provider gives back for the returned path:
    the same bytes, from a world it leaves as it is. *)
Theorem X2_upload_loads_back s ns file url w d w1 s' ns' sv pid sub env cid :
  Spec.wf_path (L.home_dir s) = true ->
  root (L.home_dir s) <> [] ->
  L.save_upload s ns file url w = (inr d, w1) ->
  exists c,
    content d = Some c
    /\ L.load_dataset s' ns' (Some (Datasets.path d)) sv pid sub env cid w1
       = (inr (result (Datasets.path d) c
                 [(u "provider", u "local");
                  (u "filename", Path_name (Path_of (Datasets.path d)))]), w1).
Proof.
  intros Hwf Habs (fn & c0 & H)%save_upload_writes.
  pose proof (_write_content_inr_parts _ _ _ _ _ _ _ H) as Hparts.
  apply _write_content_inr in H as (final & _ & -> & Hfs).
  exists final. split; [done|]. simpl Datasets.path.
  set (p := local_target s ns fn) in *.
  assert (Hwfp : Spec.wf_path p = true).
  { apply joinpath_wf. by apply wf_namespace_dir_local. }
  assert (Hrp : root p <> []).
  { unfold p, local_target, L._namespace_dir. by do 4 apply joinpath_root_abs. }
  destruct (Path_str_abs p Hwfp Hrp) as [r Hr].
  rewrite (load_dataset_local_file _ _ _ _ _ _ _ _ _ final).
  - by rewrite (Path_of_str p Hwfp).
  - by rewrite Hr.
  - by rewrite Hr.
  - rewrite (Path_of_str p Hwfp). unfold is_dir. rewrite Hfs.
    by destruct (parts p).
  - by rewrite (Path_of_str p Hwfp).
Qed.

Lemma X2_upload_loads_back_witness :
  let w := Examples.world [] [] in
  let file := Some (mkUploadFile (u "d.json") (Examples.b "[1]")) in
  let r := L.save_upload Examples.local_default (u "ns") file None w in
  exists d,
    r.1 = inr d
    /\ (L.load_dataset Examples.local_default (u "other") (Some (Datasets.path d))
          None None None None None r.2).1
       = inr (result (Datasets.path d) (Examples.b "[1]")
                [(u "provider", u "local"); (u "filename", u "d.json")]).
Proof.
  intros w file r. run_as r E.
  match type of E with _ = (inr ?d, _) => exists d end.
  split; [vm_compute; reflexivity|].
  destruct (X2_upload_loads_back Examples.local_default (u "ns") file None
              w _ _ Examples.local_default (u "other") None None None None None
              ltac:(vm_compute; reflexivity) ltac:(discriminate) E)
    as (c & Hc & Hl).
  rewrite Hl. cbn [fst]. vm_compute in Hc. injection Hc as <-.
  vm_compute. reflexivity.
Defined.

Lemma _write_content_rejected s ns fn c w w1 e :
  mkdir_parents (L._namespace_dir s ns) w = (inr tt, w1) ->
  normalize c fn = inl e ->
  L._write_content s ns fn c w = (inl e, w1).
Proof.
  intros Hm Hn. unfold L._write_content.
  rewrite (bind_eq _ _ _ _ _ Hm). unfold normalize in Hn.
  unfold bind, lift, ret.
  destruct (_is_likely_csv c fn).
  - destruct (_convert_csv_to_json c) as [e1|fc]; [congruence|].
    destruct (_validate_json_content fc); congruence.
  - destruct (_validate_json_content c); congruence.
Qed.

Lemma _write_content_rejected_error s ns fn c w e :
  normalize c fn = inl e ->
  (L._write_content s ns fn c w).1 = inl e
  \/ (L._write_content s ns fn c w).1 = inl FileExistsError
  \/ (L._write_content s ns fn c w).1 = inl NotADirectoryError.
Proof.
  intros Hn.
  destruct (mkdir_parents (L._namespace_dir s ns) w) as [[e0|[]] w1] eqn:Hm.
  - assert (E : L._write_content s ns fn c w = (inl e0, w1)).
    { unfold L._write_content, bind. by rewrite Hm. }
    rewrite E. cbn [fst]. right. unfold mkdir_parents in Hm.
    destruct (mkdir_each _ _ _) as [r0 f] eqn:E'. injection Hm as -> _.
    apply mkdir_each_errors in E' as [->| ->]; auto.
  - rewrite (_write_content_rejected _ _ _ _ _ _ _ Hm Hn). by left.
Qed.

(** X3: an upload or download the Format Normalizer rejects leaves no file
    behind.  [_write_content] fails, with the normalizer's error once the
    directory is there; whatever was in the file system is unchanged, and
    all that may be new are the directories it created before looking at
    the content. *)
Theorem X3_rejected_content_writes_no_file s ns fn c w e :
  normalize c fn = inl e ->
  let r := L._write_content s ns fn c w in
  (r.1 = inl e \/ r.1 = inl FileExistsError \/ r.1 = inl NotADirectoryError)
  /\ forall p, fs r.2 !! p = fs w !! p
               \/ (fs w !! p = None /\ fs r.2 !! p = Some Dir).
Proof.
  intros Hn r. subst r.
  destruct (mkdir_parents (L._namespace_dir s ns) w) as [[e0|[]] w1] eqn:Hm.
  - assert (E : L._write_content s ns fn c w = (inl e0, w1)).
    { unfold L._write_content, bind. by rewrite Hm. }
    rewrite E. cbn [fst snd].
    pose proof Hm as Hm'. apply mkdir_parents_spec in Hm' as (_ & Hk & _).
    split; [|done]. right.
    unfold mkdir_parents in Hm.
    destruct (mkdir_each _ _ _) as [r0 f] eqn:E'. injection Hm as -> _.
    apply mkdir_each_errors in E' as [->| ->]; auto.
  - rewrite (_write_content_rejected _ _ _ _ _ _ _ Hm Hn). cbn [fst snd].
    apply mkdir_parents_spec in Hm as (_ & Hk & _). auto.
Qed.

Lemma X3_rejected_content_writes_no_file_witness :
  let w := Examples.world [] [] in
  let r := L._write_content Examples.local_default (u "ns") (u "notes.txt")
             (Examples.b "hello") w in
  let e := HTTPException 400 (u "Invalid JSON format: ") in
  let p := Path_of (u "/home/user/.docetl/ns/files/notes.txt") in
  (r.1 = inl e \/ r.1 = inl FileExistsError \/ r.1 = inl NotADirectoryError)
  /\ (fs r.2 !! p = fs w !! p \/ (fs w !! p = None /\ fs r.2 !! p = Some Dir)).
Proof.
  intros w r e p.
  destruct (X3_rejected_content_writes_no_file Examples.local_default (u "ns")
              (u "notes.txt") (Examples.b "hello") w e
              ltac:(vm_compute; reflexivity)) as [He Hk].
  split; [exact He|exact (Hk p)].
Defined.

(** X4: the storage client of the RT provider is built once.  After
    [_ensure_storage] has succeeded the client is kept, a further call
    returns the same client and changes nothing, and the file system was
    not touched.  The client was either already there or was built from a
    configuration that allows it. *)
Theorem X4_storage_client_built_once w c w1 :
  R._ensure_storage w = (inr c, w1) ->
  storage_client w1 = Some c
  /\ R._ensure_storage w1 = (inr c, w1)
  /\ fs w1 = fs w
  /\ (storage_client w = Some c
      \/ (storage_client w = None /\ storage_env w = BuildOk c)).
Proof.
  unfold R._ensure_storage at 1.
  destruct (storage_client w) as [c0|] eqn:Hc.
  - intros [= <- <-]. unfold R._ensure_storage. rewrite Hc.
    split_and!; auto.
  - destruct (storage_env w) as [| |msg|c0] eqn:He; try discriminate.
    intros [= <- <-]. unfold R._ensure_storage. simpl.
    split_and!; auto.
Qed.

Lemma X4_storage_client_built_once_witness :
  let w := Examples.world [] (Examples.b "[]") in
  let r := R._ensure_storage w in
  R._ensure_storage r.2 = (r.1, r.2).
Proof.
  intros w r.
  destruct (X4_storage_client_built_once w
              (Examples.client_with (Examples.b "[]")) r.2 eq_refl)
    as (_ & H & _).
  exact H.
Defined.

Lemma http_not_empty (url : str) :
  startswith url (u "http://") || startswith url (u "https://") = true ->
  Datasets.truthy (Some url) = true.
Proof. by destruct url. Qed.

(** X5: the RT provider stores what an HTTP(S) download returns without
    looking at it.  Any status but 200 fails with 400, the status in the
    detail, and leaves the world as it was; on success the bytes of the
    response are the content returned and the content of the file, and the
    metadata names the URL, the namespace and the provider [rt]. *)
Theorem X5_rt_http_download_unvalidated s ns url sv pid sub env cid w code body :
  startswith url (u "http://") || startswith url (u "https://") = true ->
  http_get w url = Some (code, body) ->
  (code <> 200 ->
   R.load_dataset s ns (Some url) sv pid sub env cid w
   = (inl (HTTPException 400
             (u "Failed to download dataset: " ++ str_of_N code)), w))
  /\ (forall d w',
        R.load_dataset s ns (Some url) sv pid sub env cid w = (inr d, w') ->
        let filename := str_or (last_item (split url 47)) (u "dataset.json") in
        code = 200
        /\ content d = Some body
        /\ Datasets.path d = Path_str (rt_target s ns filename)
        /\ fs w' !! rt_target s ns filename = Some (File body)
        /\ metadata d = [(u "dataset_url", url); (u "namespace", ns);
                         (u "provider", u "rt")]).
Proof.
  intros Hh Hg. unfold R.load_dataset.
  rewrite (http_not_empty url Hh). change (default [] (Some url)) with url.
  rewrite Hh. unfold R._download_http. rewrite Hg.
  destruct (code =? 200) eqn:E; simpl negb; cbv iota.
  - apply N.eqb_eq in E as ->. split; [done|].
    intros d w' H. apply _write_bytes_inr in H as [-> Hfs].
    repeat (split; [done|]). reflexivity.
  - split; [done|]. intros d w' H. discriminate H.
Qed.

Lemma X5_rt_http_download_unvalidated_witness :
  let w := Examples.world (Examples.b "hello") [] in
  let r := R.load_dataset Examples.rt_default (u "ns")
             (Some (u "https://host/a.json")) None None None None None w in
  exists d, r.1 = inr d /\ content d = Some (Examples.b "hello").
Proof.
  intros w r. run_as r E.
  match type of E with _ = (inr ?d, _) => exists d end.
  split; [vm_compute; reflexivity|].
  destruct (X5_rt_http_download_unvalidated Examples.rt_default (u "ns")
              (u "https://host/a.json") None None None None None w
              200 (Examples.b "hello")
              ltac:(vm_compute; reflexivity) ltac:(vm_compute; reflexivity))
    as [_ H].
  destruct (H _ _ E) as (_ & Hc & _). exact Hc.
Defined.

(** X6: what a resolution by [source_version_id] fetches and records.  The
    canonical source is [canonical_source_id], else [project_id], else the
    literal [document]; the object fetched is
    [gs://<bucket>/<prefix>/envelope/envelope.json], with the bucket of the
    layout loaded for [env] and the prefix the resolver builds from the
    canonical source and the version; the metadata records the version,
    the canonical source, the environment ([env], else the layout's prefix
    without trailing slashes) and the URI. *)
Theorem X6_envelope_resolution s ns svid pid env cid w d w' :
  R._resolve_source_version s ns svid pid env cid w = (inr d, w') ->
  exists storage w1 layout payload,
    let rslv := resolver w1 storage in
    let c := if Datasets.truthy cid then default [] cid
             else if Datasets.truthy pid then default [] pid
             else u "document" in
    let uri := u "gs://" ++ bucket layout ++ u "/"
                 ++ build_unstructured_sv_prefix rslv layout c svid
                 ++ u "/envelope/envelope.json" in
    R._ensure_storage w = (inr storage, w1)
    /\ load_layout rslv env = inr layout
    /\ get_file_from_uri storage uri = inr payload
    /\ content d = Some payload
    /\ metadata d
       = [(u "source_version_id", svid);
          (u "canonical_source_id", c);
          (u "env", if Datasets.truthy env then default [] env
                    else rstrip (env_prefix layout) 47);
          (u "source_uri", uri);
          (u "namespace", ns);
          (u "provider", u "rt")].
Proof.
  unfold R._resolve_source_version. intros H.
  bind_step H. bind_step H. bind_step H.
  injection Hstep0 as <- <-. apply lift_inr in Hstep1 as [Hl ->].
  apply _fetch_storage_uri_inr in H as (storage & w3 & payload & He & Hg & H).
  pose proof Hstep as Hens.
  apply _ensure_storage_again in Hstep as He'.
  rewrite He' in He. injection He as <- <-.
  apply _write_bytes_inr in H as [-> _].
  exists a, w0, a1, payload. cbv zeta.
  repeat (split; [done|]). reflexivity.
Qed.

Lemma X6_envelope_resolution_witness :
  let w := Examples.world [] (Examples.b "[]") in
  let r := R._resolve_source_version Examples.rt_default (u "ns") (u "sv1")
             (Some (u "proj")) None None w in
  exists d,
    r.1 = inr d
    /\ dict_get (u "source_uri") (metadata d)
       = Some (u "gs://bucket/dev/proj/sv1/envelope/envelope.json")
    /\ dict_get (u "canonical_source_id") (metadata d) = Some (u "proj").
Proof.
  intros w r. run_as r E.
  match type of E with _ = (inr ?d, _) => exists d end.
  destruct (X6_envelope_resolution Examples.rt_default (u "ns") (u "sv1")
              (Some (u "proj")) None None w _ _ E)
    as (storage & w1 & layout & payload & _).
  repeat split; vm_compute; reflexivity.
Defined.

(** * More about the code: the pipeline sinks *)

(** The location the remote sink reports for [version] of [pipeline_id]:
    the path the storage client reports back, or the object key when it
    reports none, behind the bucket when the client has one. *)
Definition rt_location (storage : StorageClient) (pipeline_id version : str) : str :=
  let prefix := u "specs/docetl/" ++ pipeline_id in
  let filename := version ++ u ".yaml" in
  let persisted_path :=
    str_or (file_ref_path storage prefix filename) (prefix ++ u "/" ++ filename) in
  match bucket_name storage with
  | [] => persisted_path
  | _ => u "gs://" ++ bucket_name storage ++ u "/" ++ persisted_path
  end.

Lemma _ensure_storage_held w c w' :
  RS._ensure_storage w = (inr c, w') ->
  storage_client w' = Some c /\ tick w' = tick w /\ clock w' = clock w.
Proof.
  unfold RS._ensure_storage. destruct (storage_client w) eqn:E.
  - by intros [= <- <-].
  - destruct (storage_env w); try done. by intros [= <- <-].
Qed.

Lemma now_inr w t w' :
  now w = (inr t, w') -> t = clock w (tick w) /\ w' = with_tick (S (tick w)) w.
Proof. unfold now. by intros [= <- <-]. Qed.

Lemma store_file_inr storage document_id filename c ct md w r w' :
  RS.store_file storage document_id filename c ct md w = (inr r, w') ->
  r = file_ref_path storage document_id filename
  /\ storage_client w' = storage_client w
  /\ tick w' = tick w /\ clock w' = clock w.
Proof. unfold RS.store_file. by intros [= <- <-]. Qed.

Lemma rt_save_explicit_location ns name yaml md w d w' v :
  get (default [] md) (u "version") = Some v -> v <> [] ->
  RS.save ns name yaml md w = (inr d, w') ->
  exists storage w0,
    RS._ensure_storage w = (inr storage, w0)
    /\ storage_client w' = Some storage
    /\ path d = rt_location storage
                  (or_else (get (default [] md) (u "pipeline_id")) name) v
    /\ uri d = Some (path d)
    /\ dict_get (u "version") (manifest d) = Some (Some v)
    /\ dict_get (u "saved_at") (manifest d)
       = Some (Some (isoformat (clock w (tick w))))
    /\ tick w' = S (tick w)
    /\ clock w' = clock w.
Proof.
  intros Hv Hne. unfold RS.save. rewrite Hv.
  replace (Pipelines.truthy (Some v)) with true by (by destruct v).
  change (default [] (Some v)) with v. intros H.
  bind_step H. pose proof Hstep as Hens.
  apply _ensure_storage_held in Hstep as (Hs & Ht & Hc).
  bind_step H. apply ret_inr in Hstep as [-> ->].
  bind_step H.
  destruct (utf8_encode yaml) as [c|]; [|discriminate Hstep].
  apply ret_inr in Hstep as [-> ->].
  bind_step H. apply store_file_inr in Hstep as (-> & Hs' & Ht' & Hc').
  bind_step H. apply now_inr in Hstep as [-> ->].
  apply ret_inr in H as [-> ->].
  exists a, w0. cbn [path uri manifest tick clock storage_client with_tick].
  rewrite Hs', Ht', Hc', Ht, Hc. unfold rt_location.
  repeat (split; [done|]). done.
Qed.

(** X7: a version given in the metadata is not protected against being
    used twice.  With an explicit version the remote sink takes the
    version and the place of the object from the metadata alone: two
    successful saves under the same pipeline identifier and the same
    version report that version and the same path and URI, the location
    of [specs/docetl/<pipeline_id>/<version>.yaml] as the storage client
    gives it, through the one client the first save found or built.  The
    clock is read once per save, for [saved_at] only. *)
Theorem X7_rt_explicit_version_same_location
    ns1 ns2 name yaml1 md1 yaml2 md2 v w d1 w1 d2 w2 :
  get (default [] md1) (u "version") = Some v ->
  get (default [] md2) (u "version") = Some v ->
  v <> [] ->
  or_else (get (default [] md1) (u "pipeline_id")) name
    = or_else (get (default [] md2) (u "pipeline_id")) name ->
  RS.save ns1 name yaml1 md1 w = (inr d1, w1) ->
  RS.save ns2 name yaml2 md2 w1 = (inr d2, w2) ->
  exists storage w0,
    RS._ensure_storage w = (inr storage, w0)
    /\ path d1 = rt_location storage
                   (or_else (get (default [] md1) (u "pipeline_id")) name) v
    /\ path d2 = path d1
    /\ uri d1 = Some (path d1)
    /\ uri d2 = Some (path d1)
    /\ dict_get (u "version") (manifest d1) = Some (Some v)
    /\ dict_get (u "version") (manifest d2) = Some (Some v)
    /\ dict_get (u "saved_at") (manifest d1)
       = Some (Some (isoformat (clock w (tick w))))
    /\ dict_get (u "saved_at") (manifest d2)
       = Some (Some (isoformat (clock w (S (tick w)))))
    /\ tick w2 = S (S (tick w)).
Proof.
  intros Hv1 Hv2 Hne Hpid H1 H2.
  apply (rt_save_explicit_location _ _ _ _ _ _ _ v) in H1
    as (st1 & w0 & He1 & Hs1 & Hp1 & Hu1 & Hd1 & Ha1 & Ht1 & Hc1); [|done|done].
  apply (rt_save_explicit_location _ _ _ _ _ _ _ v) in H2
    as (st2 & w0' & He2 & Hs2 & Hp2 & Hu2 & Hd2 & Ha2 & Ht2 & Hc2); [|done|done].
  assert (st2 = st1) as ->.
  { unfold RS._ensure_storage in He2. rewrite Hs1 in He2. by injection He2 as <- _. }
  exists st1, w0. split; [done|]. split; [done|].
  assert (Hp : path d2 = path d1) by (by rewrite Hp2, Hp1, Hpid).
  split; [done|]. split; [done|]. split; [by rewrite Hu2, Hp|].
  split; [done|]. split; [done|]. split; [done|].
  split; [by rewrite Ha2, Hc1, Ht1|]. by rewrite Ht2, Ht1.
Qed.

Lemma X7_rt_explicit_version_same_location_witness :
  let w := Examples.world [] [] in
  let md := Some [(u "version", Some (u "v1"))] in
  let r1 := RS.save (u "ns") (u "flow") (u "a: 1") md w in
  let r2 := RS.save (u "ns") (u "flow") (u "a: 2") md r1.2 in
  exists d1 d2,
    r1.1 = inr d1 /\ r2.1 = inr d2
    /\ path d2 = path d1
    /\ path d1 = u "gs://bucket/specs/docetl/flow/v1.yaml".
Proof.
  intros w md r1 r2. run_as r1 E1. run_as r2 E2.
  match type of E1 with _ = (inr ?d1, _) =>
    match type of E2 with _ = (inr ?d2, _) => exists d1, d2 end
  end.
  destruct (X7_rt_explicit_version_same_location (u "ns") (u "ns") (u "flow")
              (u "a: 1") md (u "a: 2") md (u "v1") w _ _ _ _
              ltac:(vm_compute; reflexivity) ltac:(vm_compute; reflexivity)
              ltac:(discriminate) ltac:(reflexivity) E1 E2)
    as (st & w0 & _ & _ & Hp & _).
  split; [vm_compute; reflexivity|]. split; [vm_compute; reflexivity|].
  split; [exact Hp|]. vm_compute. reflexivity.
Defined.

Lemma is_dir_kept f f' p :
  (forall q, f' !! q = f !! q \/ (f !! q = None /\ f' !! q = Some Dir)) ->
  is_dir f p = true -> is_dir f' p = true.
Proof.
  intros Hk. unfold is_dir. destruct (parts p); [done|].
  destruct (Hk p) as [->|[-> ->]]; done.
Qed.

(** X8: after a successful save by the local sink both directories exist,
    [configs] and the [intermediates] directory of the pipeline; the file
    written is the only file that is new or changed. *)
Theorem X8_local_sink_directories s ns name yaml md w d w' :
  LS.save s ns name yaml md w = (inr d, w') ->
  let pipeline_dir :=
    joinpath (joinpath (joinpath (LS.home_dir s) (u ".docetl")) ns)
      (u "pipelines") in
  is_dir (fs w') (joinpath pipeline_dir (u "configs")) = true
  /\ is_dir (fs w')
       (joinpath (joinpath pipeline_dir name) (u "intermediates")) = true
  /\ forall p c,
       p <> local_config s ns name ->
       (fs w' !! p = Some (File c) <-> fs w !! p = Some (File c)).
Proof.
  unfold LS.save. intros H.
  bind_step H. bind_step H. bind_step H. apply ret_inr in H as [_ ->].
  destruct a, a0.
  apply mkdir_parents_spec in Hstep as (_ & Hk1 & Hd1).
  apply mkdir_parents_spec in Hstep0 as (_ & Hk2 & Hd2).
  unfold write_text in Hstep1.
  destruct (utf8_encode yaml) as [c0|]; [|discriminate Hstep1].
  assert (Hnd : is_dir (fs w1) (local_config s ns name) = false).
  { unfold write_bytes in Hstep1. fold (local_config s ns name) in Hstep1.
    by destruct (is_dir (fs w1) (local_config s ns name)). }
  destruct a1. apply write_bytes_inr in Hstep1 as ->. simpl fs.
  fold (local_config s ns name).
  assert (Hw : forall q, q <> local_config s ns name ->
            <[local_config s ns name := File c0]> (fs w1) !! q = fs w1 !! q).
  { intros q Hq. by rewrite lookup_insert_ne. }
  assert (Hdir : forall q, is_dir (fs w1) q = true ->
            is_dir (<[local_config s ns name := File c0]> (fs w1)) q = true).
  { intros q Hq. unfold is_dir in *. destruct (parts q) eqn:Hp; [done|].
    rewrite Hw; [done|]. intros ->. unfold is_dir in Hnd.
    rewrite Hp in Hnd. congruence. }
  cbv zeta. split; [|split].
  - apply Hdir. eapply is_dir_kept; [exact Hk2|]. by apply Hd1.
  - apply Hdir. by apply Hd2.
  - intros p c Hp. rewrite Hw by done.
    destruct (Hk2 p) as [E1|[E1 E2]]; destruct (Hk1 p) as [E3|[E3 E4]];
      split; congruence.
Qed.

Lemma X8_local_sink_directories_witness :
  let w := Examples.world [] [] in
  let s := LS.mkSelf Examples.home in
  let r := LS.save s (u "ns") (u "flow") (u "a: 1") None w in
  is_dir (fs r.2)
    (Path_of (u "/home/user/.docetl/ns/pipelines/flow/intermediates")) = true.
Proof.
  intros w s r. run_as r E.
  destruct (X8_local_sink_directories s (u "ns") (u "flow") (u "a: 1") None
              w _ _ E) as (_ & H & _).
  exact H.
Defined.

(** * More about the code: the routes *)

Import Routes.

Lemma dict_get_set_eq {V} (k : str) (v : V) d :
  dict_get k (dict_set k v d) = Some v.
Proof.
  induction d as [|[k' v'] d IH]; simpl.
  - by rewrite decide_True.
  - destruct (decide (k = k')) as [->|Hne]; simpl.
    + by rewrite decide_True.
    + by rewrite decide_False.
Qed.

Lemma dict_get_set_ne {V} (k k' : str) (v : V) d :
  k <> k' -> dict_get k (dict_set k' v d) = dict_get k d.
Proof.
  intros Hne. induction d as [|[k0 v0] d IH]; simpl.
  - by rewrite decide_False.
  - destruct (decide (k' = k0)) as [->|Hne']; simpl.
    + by rewrite !decide_False.
    + destruct (decide (k = k0)); [done|apply IH].
Qed.

Ltac str_neq := let E := fresh in intros E; vm_compute in E; discriminate E.

(** What the sinks read in the metadata of a request are its own
    fields. *)
Lemma request_metadata_get rq :
  get (request_metadata rq) (u "input_path") = Some (rq_input_path rq)
  /\ get (request_metadata rq) (u "output_path") = Some (rq_output_path rq)
  /\ get (request_metadata rq) (u "pipeline_id") = rq_pipeline_id rq
  /\ get (request_metadata rq) (u "version") = rq_version rq
  /\ get (request_metadata rq) (u "owner") = rq_owner rq.
Proof.
  unfold get, request_metadata, dict_update. cbn [fold_left fst snd].
  repeat split;
    repeat first
      [ rewrite dict_get_set_eq
      | rewrite dict_get_set_ne by str_neq ];
    reflexivity.
Qed.

Lemma sink_save_metadata_ext k ns name yaml md1 md2 w :
  get md1 (u "input_path") = get md2 (u "input_path") ->
  get md1 (u "output_path") = get md2 (u "output_path") ->
  get md1 (u "pipeline_id") = get md2 (u "pipeline_id") ->
  get md1 (u "version") = get md2 (u "version") ->
  get md1 (u "owner") = get md2 (u "owner") ->
  sink_save k ns name yaml (Some md1) w = sink_save k ns name yaml (Some md2) w.
Proof.
  intros H1 H2 H3 H4 H5. destruct k as [s|]; simpl.
  - unfold LS.save, bind. cbn [default from_option id].
    destruct (mkdir_parents _ w) as [[e|x] w0]; [done|].
    destruct (mkdir_parents _ w0) as [[e|x0] w1]; [done|].
    destruct (write_text _ yaml w1) as [[e|x1] w2]; [done|].
    by rewrite H1, H2, H3, H4, H5.
  - unfold RS.save, bind. cbn [default from_option id].
    destruct (RS._ensure_storage w) as [[e|storage] w0]; [done|].
    rewrite H4, H3, H5.
    destruct (if Pipelines.truthy (get md2 (u "version")) then _ else _)
      as [[e|version] w1]; [done|].
    destruct (utf8_encode yaml) as [content|]; [|done].
    unfold ret at 1. unfold RS.store_file, now, ret.
    by rewrite H1, H2.
Qed.

(** X9: the [metadata] field of a pipeline request has no effect.  Both
    pipeline routes lay the request's own [input_path], [output_path],
    [pipeline_id], [version] and [owner] over it, set or not, and the sinks
    read nothing else: two requests that differ in [metadata] only get the
    same answer and leave the same world.  In particular a version given
    inside [metadata] is never used. *)
Theorem X9_request_metadata_has_no_effect
    PIPELINE_SINK ns name config ip op sk m1 m2 pid v o w :
  write_pipeline_config PIPELINE_SINK
    (mkPipelineConfigRequest ns name config ip op sk m1 pid v o) w
  = write_pipeline_config PIPELINE_SINK
      (mkPipelineConfigRequest ns name config ip op sk m2 pid v o) w
  /\ save_pipeline PIPELINE_SINK
       (mkPipelineConfigRequest ns name config ip op sk m1 pid v o) w
     = save_pipeline PIPELINE_SINK
         (mkPipelineConfigRequest ns name config ip op sk m2 pid v o) w.
Proof.
  set (rq1 := mkPipelineConfigRequest ns name config ip op sk m1 pid v o).
  set (rq2 := mkPipelineConfigRequest ns name config ip op sk m2 pid v o).
  assert (E : persist_pipeline PIPELINE_SINK rq1 w
              = persist_pipeline PIPELINE_SINK rq2 w).
  { unfold persist_pipeline, bind. simpl rq_sink.
    destruct (_pipeline_sink sk PIPELINE_SINK w) as [[e|k] w0]; [done|].
    destruct (request_metadata_get rq1) as (A1 & A2 & A3 & A4 & A5).
    destruct (request_metadata_get rq2) as (B1 & B2 & B3 & B4 & B5).
    rewrite (sink_save_metadata_ext k _ _ _ (request_metadata rq1)
               (request_metadata rq2) w0);
      [done|by rewrite A1, B1|by rewrite A2, B2|by rewrite A3, B3
      |by rewrite A4, B4|by rewrite A5, B5]. }
  unfold write_pipeline_config, save_pipeline, reraise_http.
  by rewrite E.
Qed.

(** X11: [serve_document] answers every failure with status 500.  The 400
    it raises for a path that contains two dots and the 404 it raises for
    a path that names nothing are caught by its own handler and turned into
    500 [Failed to serve file]; a response is built only for a path without
    two dots that exists, and the world is never changed. *)
Theorem X11_serve_document_failures_are_500 path w :
  serve_document path w
  = (if has_substring path (u "..") then
       inl (HTTPException 500 (u "Failed to serve file: "))
     else if is_dir (fs w) (Path_of path)
             || bool_decide (is_Some (fs w !! Path_of path)) then
       inr (mkFileResponse (Path_of path) (Path_name (Path_of path))
              [(u "Cache-Control", u "public, max-age=3600")])
     else inl (HTTPException 500 (u "Failed to serve file: ")),
     w).
Proof.
  unfold serve_document, wrap_all.
  destruct (has_substring path (u "..")); [done|].
  unfold bind, Path_exists, raise, ret. cbv beta.
  by destruct (is_dir (fs w) (Path_of path)
               || bool_decide (is_Some (fs w !! Path_of path))).
Qed.

Lemma check_namespace_dir_exists ns w :
  let p := joinpath (joinpath (Path_of (env_home w)) (u ".docetl")) ns in
  forall b w1,
    check_namespace ns w = (inr b, w1) ->
    env_home w1 = env_home w
    /\ is_dir (fs w1) p || bool_decide (is_Some (fs w1 !! p)) = true
    /\ (b = true -> w1 = w).
Proof.
  intros p b w1. unfold check_namespace, wrap_all, bind, get_namespace_dir.
  unfold Path_exists at 1. cbv beta. fold p.
  destruct (is_dir (fs w) p || bool_decide (is_Some (fs w !! p))) eqn:Hex;
    cbn [negb].
  - unfold ret. intros [= <- <-]. done.
  - destruct (mkdir_parents p w) as [[e|[]] w2] eqn:Hm; [done|].
    unfold ret. intros [= <- <-].
    apply mkdir_parents_spec in Hm as (Hw & _ & Hd).
    split; [by rewrite Hw|]. split; [by rewrite (Hd eq_refl)|done].
Qed.

(** X12: [check_namespace] is idempotent.  Once it has answered, whatever
    the answer, the namespace directory exists: a second call answers
    [exists = True] and changes nothing. *)
Theorem X12_check_namespace_idempotent ns w b w1 :
  check_namespace ns w = (inr b, w1) ->
  check_namespace ns w1 = (inr true, w1).
Proof.
  intros H. apply check_namespace_dir_exists in H as (Hh & Hex & _).
  unfold check_namespace, wrap_all, bind, get_namespace_dir.
  unfold Path_exists at 1. cbv beta. rewrite Hh, Hex. reflexivity.
Qed.

Lemma X12_check_namespace_idempotent_witness :
  let w := Examples.world [] [] in
  let r := check_namespace (u "team") w in
  r.1 = inr false /\ check_namespace (u "team") r.2 = (inr true, r.2).
Proof.
  intros w r. split; [vm_compute; reflexivity|].
  apply (X12_check_namespace_idempotent (u "team") w false).
  apply run_inr. vm_compute. reflexivity.
Defined.

Lemma _dataset_provider_total DATA_PROVIDER w :
  exists p w0, _dataset_provider DATA_PROVIDER w = (inr p, w0).
Proof.
  unfold _dataset_provider. destruct (bool_decide _); eexists _, _; reflexivity.
Qed.

Lemma provider_save_upload_file p ns f w :
  exists s, provider_save_upload p ns (Some f) None w
            = L._write_content s ns (filename f) (read f) w.
Proof.
  destruct p as [s|s].
  - exists s. reflexivity.
  - exists (L.mkSelf (R.home_dir s) (R.subdir s)). reflexivity.
Qed.

(** X10: an upload that [json.loads] cannot decode is answered with status
    500, not 400.  When the bytes are not taken for CSV and do not decode
    in the encoding [json] detects, [_validate_json_content] lets the
    [UnicodeDecodeError] through, and the upload route turns it, like an
    error of [mkdir], into [HTTPException(500, "Failed to upload file")],
    whichever provider is configured. *)
Theorem X10_undecodable_upload_is_500 DATA_PROVIDER f ns w :
  _is_likely_csv (read f) (filename f) = false ->
  decode_surrogatepass (Json.detect_encoding (read f)) (read f) = None ->
  (upload_file DATA_PROVIDER (Some f) None ns w).1
  = inl (HTTPException 500 (u "Failed to upload file: ")).
Proof.
  intros Hcsv Hdec.
  assert (Hn : normalize (read f) (filename f) = inl UnicodeDecodeError).
  { unfold normalize, _validate_json_content, Json.loads.
    by rewrite Hcsv, Hdec. }
  unfold upload_file, reraise_http, bind.
  destruct (_dataset_provider_total DATA_PROVIDER w) as (p & w0 & ->).
  destruct (provider_save_upload_file p ns f w0) as [s ->].
  destruct (L._write_content s ns (filename f) (read f) w0) as [r w1] eqn:E.
  destruct (_write_content_rejected_error s ns (filename f) (read f) w0 _ Hn)
    as [H|[H|H]]; rewrite E in H; simpl in H; by subst r.
Qed.

Lemma X10_undecodable_upload_is_500_witness :
  let f := mkUploadFile (u "data.json") [Byte.xff] in
  let w := Examples.world [] [] in
  (upload_file (Some (u "RT")) (Some f) None (u "ns") w).1
  = inl (HTTPException 500 (u "Failed to upload file: ")).
Proof.
  intros f w.
  apply (X10_undecodable_upload_is_500 (Some (u "RT")) f (u "ns") w);
    vm_compute; reflexivity.
Defined.

(** * More about the code: CSV conversion *)

Module CsvFacts.
Import Py PyFacts Py.Csv.

(** After the end-of-line mark the reader is between records or inside a
    quoted field. *)
Lemma feed_line_state r l r' :
  feed_line r l = Some r' ->
  state r' = START_RECORD \/ state r' = IN_QUOTED_FIELD.
Proof.
  revert r. induction l as [|c l IH]; intros r; simpl.
  - unfold parse_process_char.
    destruct (state r) eqn:Hs; intros [= <-]; simpl; auto.
  - destruct (parse_process_char r (Some c)) as [r1|]; simpl; [apply IH|done].
Qed.

Lemma reader_rows_blank_fresh ls :
  Forall (eq []) ls ->
  reader_rows ls parse_reset = Some (repeat [] (length ls)).
Proof.
  induction 1 as [|l ls <- _ IH]; [done|].
  simpl. rewrite IH. done.
Qed.

Lemma reader_rows_blank_quoted ls r :
  Forall (eq []) ls -> state r = IN_QUOTED_FIELD ->
  reader_rows ls r = Some [rev (fields (parse_save_field r))].
Proof.
  intros Hb Hs. induction Hb as [|l ls <- _ IH]; simpl.
  - rewrite Hs. by rewrite orb_true_r.
  - unfold parse_process_char. rewrite Hs. simpl. by rewrite Hs.
Qed.

Lemma filter_repeat_nil (n : nat) :
  filter (fun row : list str => row <> []) (repeat [] n) = [].
Proof. induction n; [done|]. simpl. by rewrite filter_cons_False by auto. Qed.

(** A header followed by empty lines only gives no data row. *)
Lemma DictReader_header_only l ls :
  Forall (eq []) ls ->
  DictReader (l :: ls)
  = match feed_line parse_reset l with
    | Some _ => Some []
    | None => None
    end.
Proof.
  intros Hb. unfold DictReader, reader. simpl.
  destruct (feed_line parse_reset l) as [r'|] eqn:E; [|done].
  destruct (feed_line_state _ _ _ E) as [Hs|Hs].
  - rewrite Hs. simpl. rewrite reader_rows_blank_fresh by done. simpl.
    by rewrite filter_repeat_nil.
  - rewrite Hs. simpl. by rewrite reader_rows_blank_quoted.
Qed.

End CsvFacts.

Import CsvFacts.

(** X13: a CSV that has a header and nothing but empty lines after it is
    rejected as empty.  For content taken for CSV that decodes as UTF-8
    and whose lines after the first hold no character at all, conversion
    fails with [HTTPException(400, "CSV file is empty")], or with the
    reader's own error (uncaught) when the header line itself cannot be
    read.  (A line of spaces is not empty: it is a data row.) *)
Theorem X13_header_only_csv_is_empty c fn text :
  _is_likely_csv c fn = true ->
  utf8_decode c = Some text ->
  Forall (eq []) (tail (splitlines text)) ->
  normalize c fn
  = match Csv.feed_line Csv.parse_reset (hd [] (splitlines text)) with
    | Some _ => inl (HTTPException 400 (u "CSV file is empty"))
    | None => inl CsvError
    end.
Proof.
  intros Hcsv Hdec Hb. unfold normalize, _convert_csv_to_json.
  rewrite Hcsv, Hdec.
  destruct (splitlines text) as [|l ls]; [done|].
  simpl in Hb. rewrite (DictReader_header_only l ls Hb). simpl.
  by destruct (Csv.feed_line Csv.parse_reset l).
Qed.

Lemma X13_header_only_csv_is_empty_witness :
  normalize (Examples.b "name,age") (u "people.csv")
  = inl (HTTPException 400 (u "CSV file is empty")).
Proof.
  rewrite (X13_header_only_csv_is_empty (Examples.b "name,age")
             (u "people.csv") (u "name,age")
             ltac:(vm_compute; reflexivity) ltac:(vm_compute; reflexivity)
             ltac:(vm_compute; constructor)).
  vm_compute. reflexivity.
Defined.

(** * The Format Normalizer: from CSV to JSON and back *)

Module NormalizerFacts.
Import Py PyFacts Py.Json Py.Csv Datasets Values.

Lemma all_below_spec P k :
  all_below P k = true -> forall n, n < k -> P n = true.
Proof.
  unfold all_below. induction k as [|k IH] using N.peano_ind; intros H n Hn; [lia|].
  rewrite N.peano_rect_succ in H. apply andb_prop in H as [H1 H2].
  destruct (decide (n = k)) as [->|]; [done|]. apply IH; [done|lia].
Qed.

Lemma hex4_u_escape n :
  n < 0x10000 ->
  hex4 (hex_char (N.land (N.shiftr n 12) 0xF)) (hex_char (N.land (N.shiftr n 8) 0xF))
       (hex_char (N.land (N.shiftr n 4) 0xF)) (hex_char (N.land n 0xF)) = Some n.
Proof.
  intros H.
  pose proof (all_below_spec
    (fun n => bool_decide (hex4 (hex_char (N.land (N.shiftr n 12) 0xF)) (hex_char (N.land (N.shiftr n 8) 0xF))
       (hex_char (N.land (N.shiftr n 4) 0xF)) (hex_char (N.land n 0xF)) = Some n)) 0x10000) as A.
  specialize (A ltac:(vm_compute; reflexivity) n H).
  by apply bool_decide_eq_true in A.
Qed.

Lemma join_halves n :
  n < 0x100000 ->
  N.lor (N.shiftl (N.land (N.shiftr n 10) 0x3FF) 10) (N.land n 0x3FF) = n.
Proof.
  intros H. change 0x3FF with (N.ones 10).
  apply N.bits_inj. intros m.
  rewrite N.lor_spec, !N.land_spec.
  destruct (N.lt_ge_cases m 10) as [Hm|Hm].
  - rewrite N.shiftl_spec_low by done. rewrite N.ones_spec_low by done.
    simpl. by rewrite andb_true_r.
  - rewrite N.shiftl_spec_high' by done. rewrite N.land_spec, N.shiftr_spec'.
    rewrite (N.ones_spec_high 10 m) by done. rewrite andb_false_r, orb_false_r.
    replace (m - 10 + 10) with m by lia.
    destruct (N.lt_ge_cases m 20) as [Hm'|Hm'].
    + rewrite N.ones_spec_low by lia. by rewrite andb_true_r.
    + rewrite N.ones_spec_high by lia. rewrite andb_false_r.
      symmetry. destruct (decide (n = 0)) as [->|Hn]; [apply N.bits_0|].
      apply N.bits_above_log2. apply N.log2_lt_pow2; [lia|].
      eapply N.lt_le_trans; [exact H|].
      change 0x100000 with (2 ^ 20). apply N.pow_le_mono_r; lia.
Qed.

Lemma land_ones_lt a n : N.land a (N.ones n) < 2 ^ n.
Proof. rewrite N.land_ones. apply N.mod_lt. apply N.pow_nonzero. lia. Qed.

Lemma high_half a :
  a < 0x400 ->
  N.lor 0xD800 a < 0x10000 /\ is_high_surrogate (N.lor 0xD800 a) = true
  /\ N.lor 0xD800 a - 0xD800 = a.
Proof.
  intros H.
  pose proof (all_below_spec
    (fun a => (N.lor 0xD800 a <? 0x10000) && is_high_surrogate (N.lor 0xD800 a)
              && (N.lor 0xD800 a - 0xD800 =? a)) 0x400) as A.
  specialize (A ltac:(vm_compute; reflexivity) a H).
  apply andb_prop in A as [A A3]. apply andb_prop in A as [A1 A2].
  apply N.ltb_lt in A1. apply N.eqb_eq in A3. done.
Qed.

Lemma low_half a :
  a < 0x400 ->
  N.lor 0xDC00 a < 0x10000 /\ is_low_surrogate (N.lor 0xDC00 a) = true
  /\ N.lor 0xDC00 a - 0xDC00 = a.
Proof.
  intros H.
  pose proof (all_below_spec
    (fun a => (N.lor 0xDC00 a <? 0x10000) && is_low_surrogate (N.lor 0xDC00 a)
              && (N.lor 0xDC00 a - 0xDC00 =? a)) 0x400) as A.
  specialize (A ltac:(vm_compute; reflexivity) a H).
  apply andb_prop in A as [A A3]. apply andb_prop in A as [A1 A2].
  apply N.ltb_lt in A1. apply N.eqb_eq in A3. done.
Qed.

(** What [scanstring] does with the escape of one character. *)
Lemma scanstring_escape_char c tl :
  is_scalar c = true ->
  scanstring (escape_char c ++ tl) = push c (scanstring tl).
Proof.
  intros Hc. apply andb_prop in Hc as [Hmax Hsur].
  apply N.leb_le in Hmax. apply negb_true_iff in Hsur.
  unfold escape_char.
  destruct (c =? 34) eqn:E1; [apply N.eqb_eq in E1 as ->; done|].
  destruct (c =? 92) eqn:E2; [apply N.eqb_eq in E2 as ->; done|].
  destruct (c =? 10) eqn:E3; [apply N.eqb_eq in E3 as ->; done|].
  destruct (c =? 13) eqn:E4; [apply N.eqb_eq in E4 as ->; done|].
  destruct (c =? 9) eqn:E5; [apply N.eqb_eq in E5 as ->; done|].
  destruct (c =? 8) eqn:E6; [apply N.eqb_eq in E6 as ->; done|].
  destruct (c =? 12) eqn:E7; [apply N.eqb_eq in E7 as ->; done|].
  destruct ((32 <=? c) && (c <=? 126)) eqn:E8.
  { apply andb_prop in E8 as [L1 L2]. apply N.leb_le in L1.
    cbn [app scanstring]. rewrite E1, E2.
    destruct (c <? 32) eqn:E9; [apply N.ltb_lt in E9; lia|done]. }
  destruct (c <? 65536) eqn:E9.
  - apply N.ltb_lt in E9. unfold u_escape. cbn [app].
    change (scanstring (92 :: 117 :: ?a :: ?b :: ?x :: ?d :: tl))
      with (match hex4 a b x d with
            | None => None
            | Some uni =>
                if is_high_surrogate uni then
                  match tl with
                  | 92 :: 117 :: l1 :: l2 :: l3 :: l4 :: r3 =>
                      match hex4 l1 l2 l3 l4 with
                      | None => None
                      | Some uni2 =>
                          if is_low_surrogate uni2
                          then push (0x10000 + N.lor (N.shiftl (uni - 0xD800) 10) (uni2 - 0xDC00))
                                 (scanstring r3)
                          else push uni (scanstring tl)
                      end
                  | _ => push uni (scanstring tl)
                  end
                else push uni (scanstring tl)
            end).
    rewrite hex4_u_escape by done.
    replace (is_high_surrogate c) with false; [done|].
    unfold is_surrogate, is_high_surrogate in *.
    apply andb_false_iff in Hsur as [Hs|Hs]; [by rewrite Hs|].
    apply N.leb_gt in Hs. symmetry. apply andb_false_iff. right. apply N.leb_gt. lia.
  - apply N.ltb_ge in E9.
    set (n := c - 65536).
    assert (Hn : n < 0x100000) by (unfold n; lia).
    pose proof (land_ones_lt (N.shiftr n 10) 10) as Ha.
    pose proof (land_ones_lt n 10) as Hb.
    change (N.ones 10) with 0x3FF in Ha, Hb. change (2 ^ 10) with 0x400 in Ha, Hb.
    destruct (high_half _ Ha) as (H1 & H2 & H3).
    destruct (low_half _ Hb) as (L1 & L2 & L3).
    unfold u_escape. cbn [app].
    change (scanstring (92 :: 117 :: ?a :: ?b :: ?x :: ?d :: 92 :: 117 :: ?l1 :: ?l2 :: ?l3 :: ?l4 :: tl))
      with (match hex4 a b x d with
            | None => None
            | Some uni =>
                if is_high_surrogate uni then
                      match hex4 l1 l2 l3 l4 with
                      | None => None
                      | Some uni2 =>
                          if is_low_surrogate uni2
                          then push (0x10000 + N.lor (N.shiftl (uni - 0xD800) 10) (uni2 - 0xDC00))
                                 (scanstring tl)
                          else push uni (scanstring (92 :: 117 :: l1 :: l2 :: l3 :: l4 :: tl))
                      end
                else push uni (scanstring (92 :: 117 :: l1 :: l2 :: l3 :: l4 :: tl))
            end).
    rewrite !hex4_u_escape by done. rewrite H2, L2, H3, L3.
    rewrite join_halves by done. unfold n. f_equal. lia.
Qed.

Lemma scanstring_escape s rest :
  forallb is_scalar s = true ->
  scanstring (flat_map escape_char s ++ 34 :: rest) = Some (s, rest).
Proof.
  induction s as [|c s IH]; [done|]. simpl. intros [Hc Hs]%andb_prop.
  rewrite <- app_assoc, scanstring_escape_char by done. by rewrite IH.
Qed.


Section py_induction.
Variable P : py -> Prop.
Hypothesis HNone : P PyNone.
Hypothesis HBool : forall b, P (PyBool b).
Hypothesis HNum : forall l, P (PyNum l).
Hypothesis HStr : forall s, P (PyStr s).
Hypothesis HList : forall l, Forall P l -> P (PyList l).
Hypothesis HDict : forall d, Forall (fun kv => P kv.2) d -> P (PyDict d).

Fixpoint py_nested_ind (v : py) : P v :=
  match v with
  | PyNone => HNone
  | PyBool b => HBool b
  | PyNum l => HNum l
  | PyStr s => HStr s
  | PyList l =>
      HList l ((fix go (l : list py) : Forall P l :=
                  match l with
                  | [] => @List.Forall_nil _ P
                  | x :: r => @List.Forall_cons _ P x r (py_nested_ind x) (go r)
                  end) l)
  | PyDict d =>
      HDict d ((fix go (d : list (pykey * py)) : Forall (fun kv => P kv.2) d :=
                  match d with
                  | [] => @List.Forall_nil _ _
                  | (k, x) :: r =>
                      @List.Forall_cons _ (fun kv => P kv.2) (k, x) r (py_nested_ind x) (go r)
                  end) d)
  end.
End py_induction.

Lemma skip_ws_head c t : is_ws c = false -> skip_ws (c :: t) = c :: t.
Proof. intros H. simpl. by rewrite H. Qed.

(** The text of a value starts with a character that is neither blank nor
    a closing bracket. *)
Definition opens (c : N) : bool :=
  (c =? 110) || (c =? 116) || (c =? 102) || (c =? 34) || (c =? 91) || (c =? 123).

Lemma dumps_head v :
  dumpable v = true -> exists c t, dumps v = c :: t /\ opens c = true.
Proof.
  destruct v as [|[]|l|s|l|d]; simpl; try done; intros _; eauto.
Qed.

Lemma opens_not_ws c : opens c = true -> is_ws c = false.
Proof.
  unfold opens, is_ws. intros H.
  repeat (apply orb_prop in H as [H|H]); apply N.eqb_eq in H as ->; done.
Qed.

Definition item_text (kv : pykey * py) : str :=
  encode_basestring_ascii (key_text kv.1) ++ u ": " ++ dumps kv.2.

Definition scans (v : py) : Prop :=
  forall fuel rest, (scan_size v <= fuel)%nat ->
    scan_once fuel (dumps v ++ rest) = Scanned (reparse v, rest).

Lemma array_items_dumps l :
  Forall (fun v => dumpable v = true /\ scans v) l -> l <> [] ->
  forall fuel acc rest,
    (list_sum (List.map (fun x => S (scan_size x)) l) <= fuel)%nat ->
    array_items fuel (join (u ", ") (List.map dumps l) ++ 93 :: rest) acc
    = Scanned (PyList (rev acc ++ List.map reparse l), rest).
Proof.
  induction 1 as [|v l [Hd Hv] Hl IH]; [done|]. intros _ fuel acc rest Hf.
  simpl in Hf. destruct fuel as [|f]; [lia|].
  destruct l as [|v' l'].
  - simpl. rewrite Hv by lia. done.
  - change (join (u ", ") (List.map dumps (v :: v' :: l')))
      with (dumps v ++ 44 :: 32 :: join (u ", ") (List.map dumps (v' :: l'))).
    rewrite <- app_assoc. cbn [array_items].
    rewrite Hv by lia.
    change ((44 :: 32 :: ?x) ++ ?y) with (44 :: 32 :: (x ++ y)).
    cbn [skip_ws is_ws N.eqb Pos.eqb orb].
    specialize (IH ltac:(done) f (reparse v :: acc) rest ltac:(simpl in *; lia)).
    inversion Hl as [|? ? [Hd' _] _]; subst.
    destruct (dumps_head v' Hd') as (c & t & E & Hc).
    assert (Hsk : forall z, skip_ws (join (u ", ") (List.map dumps (v' :: l')) ++ z)
                  = join (u ", ") (List.map dumps (v' :: l')) ++ z).
    { intros z. cbn [List.map join]. destruct (List.map dumps l'); rewrite E;
        simpl; by rewrite (opens_not_ws c Hc). }
    rewrite Hsk, IH. simpl. by rewrite <- app_assoc.
Qed.

Lemma item_text_eq kv :
  item_text kv
  = 34 :: flat_map escape_char (key_text kv.1) ++ 34 :: 58 :: 32 :: dumps kv.2.
Proof.
  unfold item_text, encode_basestring_ascii. simpl. by rewrite <- app_assoc.
Qed.

Lemma object_members_dumps d :
  Forall (fun kv => (forallb is_scalar (key_text kv.1) = true
                     /\ dumpable kv.2 = true) /\ scans kv.2) d -> d <> [] ->
  forall fuel acc rest,
    (list_sum (List.map (fun kv => S (scan_size kv.2)) d) <= fuel)%nat ->
    object_members fuel
      (drop 1 (join (u ", ") (List.map item_text d)) ++ 125 :: rest) acc
    = Scanned (PyDict (dict_of (rev acc ++
                 List.map (fun kv => (KStr (key_text kv.1), reparse kv.2)) d)), rest).
Proof.
  induction 1 as [|[k v] d [[Hk Hd] Hv] Hl IH]; [done|]. intros _ fuel acc rest Hf.
  simpl in Hf, Hk, Hd, Hv. destruct fuel as [|f]; [lia|].
  destruct (dumps_head v Hd) as (c & t & E & Hc).
  pose proof (opens_not_ws c Hc) as Hws.
  assert (Hsk : forall z, skip_ws (32 :: (dumps v ++ z)) = dumps v ++ z).
  { intros z. rewrite E. simpl. by rewrite Hws. }
  destruct d as [|kv' d'].
  - assert (Hshape :
      drop 1 (join (u ", ") (List.map item_text [(k, v)])) ++ 125 :: rest
      = flat_map escape_char (key_text k) ++ 34 :: 58 :: 32 :: (dumps v ++ 125 :: rest)).
    { cbn [List.map join]. rewrite item_text_eq. cbn [fst snd].
      change (drop 1 (34 :: ?x)) with x. by rewrite <- app_assoc. }
    rewrite Hshape. cbn [object_members]. rewrite scanstring_escape by done.
    rewrite (skip_ws_head 58) by done. rewrite Hsk.
    rewrite Hv by lia. rewrite (skip_ws_head 125) by done.
    cbn [rev List.map fst snd]. done.
  - assert (Hj : join (u ", ") (List.map item_text (kv' :: d'))
                 = 34 :: drop 1 (join (u ", ") (List.map item_text (kv' :: d')))).
    { cbn [List.map join]. rewrite (item_text_eq kv').
      by destruct (List.map item_text d'). }
    assert (Hshape :
      drop 1 (join (u ", ") (List.map item_text ((k, v) :: kv' :: d'))) ++ 125 :: rest
      = flat_map escape_char (key_text k) ++ 34 :: 58 :: 32 ::
          (dumps v ++ 44 :: 32 :: 34 ::
             (drop 1 (join (u ", ") (List.map item_text (kv' :: d'))) ++ 125 :: rest))).
    { change (join (u ", ") (List.map item_text ((k, v) :: kv' :: d')))
        with (item_text (k, v) ++ u ", " ++ join (u ", ") (List.map item_text (kv' :: d'))).
      rewrite (item_text_eq (k, v)). cbn [fst snd].
      rewrite <- app_comm_cons. cbn [drop]. rewrite drop_0.
      rewrite <- !app_assoc. f_equal.
      change ((34 :: 58 :: 32 :: ?x) ++ ?y) with (34 :: 58 :: 32 :: (x ++ y)).
      do 3 f_equal. f_equal.
      change (u ", " ++ ?x) with (44 :: 32 :: x).
      rewrite Hj at 1. done. }
    rewrite Hshape. cbn [object_members]. rewrite scanstring_escape by done.
    rewrite (skip_ws_head 58) by done. rewrite Hsk.
    rewrite Hv by lia. rewrite (skip_ws_head 44) by done.
    change (skip_ws (32 :: 34 :: ?x)) with (34 :: x).
    specialize (IH ltac:(done) f ((KStr (key_text k), reparse v) :: acc) rest
                  ltac:(simpl in *; lia)).
    cbv beta iota. rewrite IH. cbn [rev List.map fst snd]. by rewrite <- app_assoc.
Qed.

Lemma Forall_forallb_imp {A} (f : A -> bool) (P : A -> Prop) l :
  forallb f l = true -> Forall (fun x => f x = true -> P x) l ->
  Forall (fun x => f x = true /\ P x) l.
Proof.
  intros Hf HP. induction HP as [|x l0 Hx Hl IH]; [constructor|].
  simpl in Hf. apply andb_prop in Hf as [? ?]. constructor; auto.
Qed.

(** [scan_once] reads the text of a value back, whatever follows it. *)
Lemma scan_once_dumps v : dumpable v = true -> scans v.
Proof.
  induction v as [|b|l|s|l IH|d IH] using py_nested_ind; intros Hd fuel rest Hf;
    simpl in Hf; (destruct fuel as [|f]; [lia|]).
  - by destruct rest.
  - by destruct b, rest.
  - done.
  - simpl in Hd. unfold dumps, encode_basestring_ascii.
    change ((34 :: ?x ++ [34]) ++ rest) with (34 :: ((x ++ [34]) ++ rest)).
    rewrite <- app_assoc. cbn [scan_once N.eqb Pos.eqb app].
    by rewrite scanstring_escape.
  - simpl in Hd. destruct l as [|v l]; [done|].
    assert (HF : Forall (fun v => dumpable v = true /\ scans v) (v :: l)).
    { by apply Forall_forallb_imp. }
    change (dumps (PyList (v :: l)))
      with (91 :: join (u ", ") (List.map dumps (v :: l)) ++ [93]).
    change ((91 :: ?x ++ [93]) ++ rest) with (91 :: ((x ++ [93]) ++ rest)).
    rewrite <- app_assoc. cbn [scan_once N.eqb Pos.eqb app].
    inversion HF as [|? ? [Hdv _] _]; subst.
    destruct (dumps_head v Hdv) as (c & t & E & Hc).
    pose proof (array_items_dumps (v :: l) HF ltac:(done) f [] rest ltac:(lia)) as A.
    assert (HJ : exists t', join (u ", ") (List.map dumps (v :: l)) ++ 93 :: rest = c :: t').
    { cbn [List.map join]. destruct (List.map dumps l); rewrite E; simpl; eauto. }
    destruct HJ as (t' & EJ). rewrite EJ in A |- *.
    rewrite (skip_ws_head c _ (opens_not_ws c Hc)).
    unfold opens in Hc.
    repeat (apply orb_prop in Hc as [Hc|Hc]); apply N.eqb_eq in Hc as ->; exact A.
  - simpl in Hd. destruct d as [|kv d]; [done|].
    assert (HF : Forall (fun kv => (forallb is_scalar (key_text kv.1) = true
                     /\ dumpable kv.2 = true) /\ scans kv.2) (kv :: d)).
    { clear -IH Hd. revert Hd.
      induction IH as [|x d0 Hx _ IHd]; [constructor|].
      simpl. intros [[? ?]%andb_prop ?]%andb_prop. constructor; auto. }
    change (dumps (PyDict (kv :: d)))
      with (123 :: join (u ", ") (List.map item_text (kv :: d)) ++ [125]).
    change ((123 :: ?x ++ [125]) ++ rest) with (123 :: ((x ++ [125]) ++ rest)).
    rewrite <- app_assoc. cbn [scan_once N.eqb Pos.eqb app].
    pose proof (object_members_dumps (kv :: d) HF ltac:(done) f [] rest ltac:(lia)) as A.
    assert (HJ : join (u ", ") (List.map item_text (kv :: d))
                 = 34 :: drop 1 (join (u ", ") (List.map item_text (kv :: d)))).
    { cbn [List.map join]. rewrite (item_text_eq kv).
      by destruct (List.map item_text d). }
    rewrite HJ at 1. rewrite <- app_comm_cons.
    rewrite (skip_ws_head 34) by done. cbv beta iota. exact A.
Qed.

Lemma join_length_bound (xs : list str) (ns : list nat) :
  Forall2 (fun x n => (n <= S (length x))%nat) xs ns ->
  (list_sum (List.map S ns) <= 2 + length (join (u ", ") xs))%nat.
Proof.
  induction 1 as [|x n xs ns Hx Hxs IH]; [simpl; lia|].
  destruct xs as [|y ys].
  - inversion Hxs; subst. simpl. lia.
  - change (join (u ", ") (x :: y :: ys)) with (x ++ 44 :: 32 :: join (u ", ") (y :: ys)).
    rewrite length_app. simpl in *. lia.
Qed.

Lemma size_le_length v : (scan_size v <= S (length (dumps v)))%nat.
Proof.
  induction v as [|b|l|s|l IH|d IH] using py_nested_ind.
  - simpl. lia.
  - destruct b; simpl; lia.
  - simpl. lia.
  - simpl. lia.
  - cbn [scan_size dumps]. cbn [length]. rewrite length_app. cbn [length].
    assert (H : Forall2 (fun x n => (n <= S (length x))%nat)
                  (List.map dumps l) (List.map scan_size l)).
    { induction IH; constructor; auto. }
    apply join_length_bound in H. rewrite List.map_map in H. lia.
  - cbn [scan_size dumps]. cbn [length]. rewrite length_app. cbn [length].
    assert (H : Forall2 (fun x n => (n <= S (length x))%nat)
                  (List.map item_text d) (List.map (fun kv => scan_size kv.2) d)).
    { induction IH as [|kv d0 Hkv _ IHd]; constructor; auto.
      unfold item_text. rewrite !length_app. lia. }
    apply join_length_bound in H. rewrite List.map_map in H.
    fold item_text. unfold item_text in *. lia.
Qed.

(** [JSONDecoder.decode] on the text [json.dumps] writes. *)
Lemma decode_dumps v : dumpable v = true -> decode (dumps v) = Scanned (reparse v).
Proof.
  intros Hd. unfold decode.
  destruct (dumps_head v Hd) as (c & t & E & Hc).
  assert (Hsk : skip_ws (dumps v) = dumps v).
  { rewrite E. apply skip_ws_head, opens_not_ws, Hc. }
  rewrite Hsk. pose proof (scan_once_dumps v Hd (fuel_for (dumps v)) []) as A.
  rewrite app_nil_r in A. rewrite A; [done|].
  pose proof (size_le_length v). unfold fuel_for. lia.
Qed.


Lemma hex_char_ascii x : is_ascii (hex_char (N.land x 0xF)) = true.
Proof.
  pose proof (land_ones_lt x 4) as H. change (N.ones 4) with 0xF in H.
  change (2 ^ 4) with 16 in H. unfold is_ascii, hex_char.
  destruct (N.land x 15 <? 10); apply N.ltb_lt; lia.
Qed.

Lemma u_escape_ascii n : forallb is_ascii (u_escape n) = true.
Proof. unfold u_escape. cbn [forallb]. by rewrite !hex_char_ascii. Qed.

Lemma escape_char_ascii c : forallb is_ascii (escape_char c) = true.
Proof.
  unfold escape_char.
  repeat (match goal with |- context [if ?b then _ else _] =>
            destruct b eqn:?; [try done|] end).
  - simpl. rewrite andb_true_r. apply andb_prop in Heqb6 as [_ H].
    apply N.leb_le in H. apply N.ltb_lt. lia.
  - apply u_escape_ascii.
  - by rewrite forallb_app, !u_escape_ascii.
Qed.

Lemma encode_basestring_ascii_ascii s :
  forallb is_ascii (encode_basestring_ascii s) = true.
Proof.
  unfold encode_basestring_ascii. cbn [forallb]. rewrite forallb_app. simpl.
  rewrite andb_true_r. induction s as [|c s IH]; [done|].
  simpl. by rewrite forallb_app, escape_char_ascii.
Qed.

Lemma join_ascii xs :
  Forall (fun x => forallb is_ascii x = true) xs ->
  forallb is_ascii (join (u ", ") xs) = true.
Proof.
  induction 1 as [|x xs Hx Hxs IH]; [done|].
  destruct xs as [|y ys]; [done|].
  change (join (u ", ") (x :: y :: ys)) with (x ++ 44 :: 32 :: join (u ", ") (y :: ys)).
  rewrite forallb_app, Hx. simpl. exact IH.
Qed.

(** With [ensure_ascii], [json.dumps] writes ASCII only. *)
Lemma dumps_ascii v : dumpable v = true -> forallb is_ascii (dumps v) = true.
Proof.
  induction v as [|b|l|s|l IH|d IH] using py_nested_ind; intros Hd.
  - done.
  - by destruct b.
  - done.
  - apply encode_basestring_ascii_ascii.
  - cbn [dumps forallb]. rewrite forallb_app. simpl. rewrite andb_true_r.
    apply join_ascii. simpl in Hd. apply Forall_map.
    apply (Forall_forallb_imp _ _ _ Hd) in IH.
    eapply Forall_impl; [exact IH|]. by intros x [? ?].
  - change (dumps (PyDict d))
      with (123 :: join (u ", ") (List.map item_text d) ++ [125]).
    cbn [forallb]. rewrite forallb_app.
    change (forallb is_ascii [125]) with true. rewrite andb_true_r.
    apply join_ascii. cbn [dumpable] in Hd. apply Forall_map.
    clear -IH Hd. induction IH as [|kv d0 Hkv _ IHd]; [constructor|].
    cbn [forallb] in Hd. apply andb_prop in Hd as [[? ?]%andb_prop ?].
    constructor; [|auto].
    unfold compose, item_text.
    rewrite !forallb_app, encode_basestring_ascii_ascii.
    change (forallb is_ascii (u ": ")) with true. cbn [andb]. auto.
Qed.

Lemma utf8_encode_vals_ascii s :
  forallb is_ascii s = true -> utf8_encode_vals s = Some s.
Proof.
  induction s as [|c s IH]; [done|]. simpl. intros [Hc Hs]%andb_prop.
  unfold utf8_encode_char. unfold is_ascii in Hc. rewrite Hc, IH by done. done.
Qed.

Lemma of_vals_ascii s :
  forallb is_ascii s = true -> exists b, of_vals s = Some b /\ bvals b = s.
Proof.
  induction s as [|c s IH]; [by exists []|]. simpl. intros [Hc Hs]%andb_prop.
  destruct (IH Hs) as (b & -> & Hb).
  apply N.ltb_lt in Hc.
  destruct (Byte.of_N c) as [x|] eqn:E.
  - exists (x :: b). split; [done|]. simpl. rewrite Hb. f_equal.
    by apply Byte.to_of_N.
  - apply Byte.of_N_None_iff in E. lia.
Qed.

Lemma utf8_decode_vals_ascii pass s :
  forallb is_ascii s = true -> utf8_decode_vals pass s = Some s.
Proof.
  induction s as [|c s IH]; [done|]. simpl. intros [Hc Hs]%andb_prop.
  unfold is_ascii in Hc. rewrite Hc, IH by done. done.
Qed.

(** Text that opens with a bracket and a brace is taken for UTF-8. *)
Lemma detect_encoding_list_of_dict b t :
  bvals b = 91 :: 123 :: t -> detect_encoding b = UTF8.
Proof.
  unfold detect_encoding. intros ->. by destruct t as [|b2 [|b3 t]].
Qed.

(** [json.loads] of the UTF-8 bytes of a dumped list of dicts. *)
Lemma loads_dumps d l :
  dumpable (PyList (PyDict d :: l)) = true ->
  exists b, utf8_encode (dumps (PyList (PyDict d :: l))) = Some b
    /\ forallb is_ascii (bvals b) = true
    /\ loads b = Loaded (reparse (PyList (PyDict d :: l))).
Proof.
  intros Hd. pose proof (dumps_ascii _ Hd) as Ha.
  destruct (of_vals_ascii _ Ha) as (b & Hb & Hv).
  exists b. unfold utf8_encode. rewrite utf8_encode_vals_ascii by done.
  split; [exact Hb|]. split; [by rewrite Hv|].
  unfold loads.
  assert (He : detect_encoding b = UTF8).
  { apply (detect_encoding_list_of_dict b
             (drop 2 (dumps (PyList (PyDict d :: l))))).
    rewrite Hv. cbn [dumps List.map join]. by destruct (List.map dumps l). }
  rewrite He. unfold decode_surrogatepass. rewrite Hv.
  rewrite utf8_decode_vals_ascii by done. by rewrite decode_dumps.
Qed.


Lemma lor_lt_pow2 a b n : a < 2 ^ n -> b < 2 ^ n -> N.lor a b < 2 ^ n.
Proof.
  intros Ha Hb. destruct (decide (N.lor a b = 0)) as [->|Hz].
  { apply N.neq_0_lt_0, N.pow_nonzero. lia. }
  assert (Hn : 0 < n).
  { destruct (decide (n = 0)) as [->|]; [|lia].
    change (2 ^ 0) with 1 in *. assert (a = 0) as -> by lia.
    assert (b = 0) as -> by lia. done. }
  apply N.log2_lt_pow2; [lia|]. rewrite N.log2_lor. apply N.max_lub_lt.
  - destruct (decide (a = 0)) as [->|]; [done|]. apply N.log2_lt_pow2; lia.
  - destruct (decide (b = 0)) as [->|]; [done|]. apply N.log2_lt_pow2; lia.
Qed.

Lemma two_byte_scalar b0 b1 :
  is_scalar (N.lor (N.shiftl (N.land b0 0x1F) 6) (N.land b1 0x3F)) = true.
Proof.
  assert (H : N.lor (N.shiftl (N.land b0 0x1F) 6) (N.land b1 0x3F) < 2 ^ 11).
  { apply lor_lt_pow2.
    - rewrite N.shiftl_mul_pow2. pose proof (land_ones_lt b0 5) as H.
      change (N.ones 5) with 0x1F in H. change (2 ^ 5) with 32 in H.
      change (2 ^ 6) with 64. change (2 ^ 11) with 2048. lia.
    - pose proof (land_ones_lt b1 6) as H.
      change (N.ones 6) with 0x3F in H. change (2 ^ 6) with 64 in H.
      change (2 ^ 11) with 2048. lia. }
  change (2 ^ 11) with 2048 in H. unfold is_scalar, is_surrogate.
  apply andb_true_intro. split; [apply N.leb_le; lia|].
  apply negb_true_iff, andb_false_iff. left. apply N.leb_gt. lia.
Qed.

Lemma three_byte_bound b0 b1 b2 :
  N.lor (N.shiftl (N.land b0 0x0F) 12)
    (N.lor (N.shiftl (N.land b1 0x3F) 6) (N.land b2 0x3F)) < 0x10000.
Proof.
  change 0x10000 with (2 ^ 16). apply lor_lt_pow2; [|apply lor_lt_pow2].
  - rewrite N.shiftl_mul_pow2. pose proof (land_ones_lt b0 4) as H.
    change (N.ones 4) with 0x0F in H. change (2 ^ 4) with 16 in H.
    change (2 ^ 12) with 4096. change (2 ^ 16) with 65536. lia.
  - rewrite N.shiftl_mul_pow2. pose proof (land_ones_lt b1 6) as H.
    change (N.ones 6) with 0x3F in H. change (2 ^ 6) with 64 in *.
    change (2 ^ 16) with 65536. lia.
  - pose proof (land_ones_lt b2 6) as H.
    change (N.ones 6) with 0x3F in H. change (2 ^ 6) with 64 in H.
    change (2 ^ 16) with 65536. lia.
Qed.

(** The strict UTF-8 decoder gives scalar values only. *)
Lemma utf8_decode_vals_scalar b s :
  utf8_decode_vals false b = Some s -> forallb is_scalar s = true.
Proof.
  assert (Hle : (length b <= length b)%nat) by lia.
  revert Hle. generalize (length b) at 2 as n. intros n.
  revert b s. induction n as [|n IH]; intros b s Hle.
  { destruct b; simpl in *; [by intros [= <-]|lia]. }
  destruct b as [|b0 r]; [by intros [= <-]|]. simpl in Hle.
  cbn [utf8_decode_vals].
  assert (Hstep : forall cp r' s,
            (length r' <= n)%nat -> is_scalar cp = true ->
            cons cp <$> utf8_decode_vals false r' = Some s ->
            forallb is_scalar s = true).
  { intros cp r' s' L Hcp H.
    destruct (utf8_decode_vals false r') as [s0|] eqn:E; [|done].
    simpl in H. injection H as <-. simpl. rewrite Hcp. by apply (IH r'). }
  destruct (b0 <? 128) eqn:E0.
  { apply Hstep; [lia|]. apply N.ltb_lt in E0. unfold is_scalar, is_surrogate.
    apply andb_true_intro. split; [apply N.leb_le; lia|].
    apply negb_true_iff, andb_false_iff. left. apply N.leb_gt. lia. }
  destruct (b0 <? 194); [done|].
  destruct (b0 <? 224).
  { destruct r as [|b1 r1]; [done|]. destruct (is_cont b1); [|done].
    apply Hstep; [simpl in Hle; lia|apply two_byte_scalar]. }
  destruct (b0 <? 240).
  { destruct r as [|b1 [|b2 r2]]; try done.
    cbv zeta. cbn [orb].
    destruct (is_cont b1 && is_cont b2 && _ && _) eqn:E; [|done].
    apply andb_prop in E as [_ Hs].
    apply Hstep; [simpl in Hle; lia|].
    pose proof (three_byte_bound b0 b1 b2). unfold is_scalar.
    apply andb_true_intro. split; [apply N.leb_le; lia|done]. }
  destruct (b0 <? 245); [|done].
  destruct r as [|b1 [|b2 [|b3 r3]]]; try done.
  cbv zeta.
  destruct (is_cont b1 && is_cont b2 && is_cont b3 && _ && _) eqn:E; [|done].
  apply andb_prop in E as [E Hmax]. apply andb_prop in E as [_ Hmin].
  apply Hstep; [simpl in Hle; lia|].
  apply N.leb_le in Hmin, Hmax. unfold is_scalar, is_surrogate.
  apply andb_true_intro. split; [apply N.leb_le; lia|].
  apply negb_true_iff, andb_false_iff. right. apply N.leb_gt. lia.
Qed.

Lemma splitlines_cr r :
  splitlines (13 :: r)
  = [] :: splitlines (match r with
                      | c :: r' => if c =? 10 then r' else r
                      | [] => r
                      end).
Proof.
  destruct r as [|c r']; [done|]. destruct c as [|p]; [done|].
  do 4 (try (destruct p as [p|p|]; try reflexivity)).
Qed.

(** [splitlines] only cuts: every character of a line is one of the text. *)
Lemma splitlines_forallb (P : N -> bool) s :
  forallb P s = true -> Forall (fun l => forallb P l = true) (splitlines s).
Proof.
  assert (Hle : (length s <= length s)%nat) by lia.
  revert Hle. generalize (length s) at 2 as n. intros n.
  revert s. induction n as [|n IH]; intros s Hle.
  { destruct s; simpl in *; [constructor|lia]. }
  destruct s as [|c r]; [constructor|]. simpl in Hle.
  cbn [forallb]. intros [Hc Hr]%andb_prop.
  destruct (c =? 13) eqn:E13.
  { apply N.eqb_eq in E13 as ->. rewrite splitlines_cr.
    constructor; [done|]. destruct r as [|c' r']; [by constructor|].
    cbn [forallb] in Hr. apply andb_prop in Hr as [Hc' Hr'].
    destruct (c' =? 10).
    - apply IH; [simpl in *; lia|done].
    - apply IH; [simpl in *; lia|]. simpl. by rewrite Hc'. }
  cbn [splitlines]. rewrite E13.
  destruct (is_linebreak c).
  { constructor; [done|]. apply IH; [lia|done]. }
  specialize (IH r ltac:(lia) Hr).
  destruct (splitlines r) as [|l ls].
  - constructor; [|constructor]. simpl. by rewrite Hc.
  - inversion IH; subst. constructor; [|done]. simpl. by rewrite Hc.
Qed.


Section reader_keeps.
Variable P : N -> Prop.

(** Every character the reader holds satisfies [P]. *)
Definition holds (r : Reader) : Prop :=
  Forall P (field r) /\ Forall (Forall P) (fields r).

Lemma holds_reset : holds parse_reset.
Proof. split; constructor. Qed.

Lemma holds_set_state st r : holds r -> holds (set_state st r).
Proof. done. Qed.

Lemma holds_save r : holds r -> holds (parse_save_field r).
Proof.
  intros [H1 H2]. split; [constructor|]. simpl. constructor; [|done].
  by apply Forall_rev.
Qed.

Lemma holds_add r c r' :
  parse_add_char r c = Some r' -> P c -> holds r -> holds r'.
Proof.
  unfold parse_add_char. destruct (_ <=? _); [done|]. intros [= <-] Hc [H1 H2].
  split; [by constructor|done].
Qed.

Lemma holds_add_state st r c r' :
  set_state st <$> parse_add_char r c = Some r' -> P c -> holds r -> holds r'.
Proof.
  destruct (parse_add_char r c) as [r1|] eqn:E; [|done]. intros [= <-] Hc Hr.
  apply holds_set_state. eapply holds_add; eauto.
Qed.

Lemma holds_process r c r' :
  parse_process_char r c = Some r' ->
  match c with Some ch => P ch | None => True end ->
  holds r -> holds r'.
Proof.
  intros H Hc Hr.
  assert (Hsave : forall st r0, holds r0 -> holds (set_state st (parse_save_field r0))).
  { intros st r0 H0. apply holds_set_state, holds_save, H0. }
  unfold parse_process_char in H.
  destruct (state r), c as [ch|];
    repeat match type of H with
           | (if ?b then _ else _) = _ => destruct b
           | Some _ = Some _ => injection H as <-
           | None = Some _ => discriminate H
           end;
    eauto using holds_set_state, holds_save, holds_add, holds_add_state.
Qed.

Lemma holds_feed_line l r r' :
  feed_line r l = Some r' -> Forall P l -> holds r -> holds r'.
Proof.
  revert r. induction l as [|c l IH]; intros r; simpl.
  - intros H _ Hr. by eapply (holds_process r None).
  - destruct (parse_process_char r (Some c)) as [r1|] eqn:E; [|done]. simpl.
    intros H Hl Hr. inversion Hl; subst.
    eapply IH; [done..|]. by eapply (holds_process r (Some c)).
Qed.

Lemma holds_reader_rows ls r rows :
  reader_rows ls r = Some rows -> Forall (Forall P) ls -> holds r ->
  Forall (Forall (Forall P)) rows.
Proof.
  revert r rows. induction ls as [|l ls IH]; intros r rows; cbn [reader_rows].
  - intros H _ Hr. destruct (_ || _); injection H as <-; [|constructor].
    constructor; [|constructor].
    change (Forall (Forall P) (rev (fields (parse_save_field r)))).
    apply Forall_rev. by destruct (holds_save r Hr).
  - destruct (feed_line r l) as [r1|] eqn:E; [|done].
    intros H Hls Hr. inversion Hls; subst.
    pose proof (holds_feed_line _ _ _ E ltac:(done) Hr) as [G1 G2].
    destruct (bool_decide _).
    + destruct (reader_rows ls parse_reset) as [rows0|] eqn:E'; [|done].
      injection H as <-. constructor; [by apply Forall_rev|].
      eapply IH; [done..|apply holds_reset].
    + eapply IH; [done..|]. done.
Qed.
End reader_keeps.

Lemma forallb_Forall {A} (f : A -> bool) l :
  forallb f l = true <-> Forall (fun x => f x = true) l.
Proof.
  induction l as [|x l IH]; simpl; [split; [constructor|done]|].
  rewrite andb_true_iff, IH. split; [intros []; by constructor|].
  by inversion 1.
Qed.

(** ** The dicts of [DictReader] *)

Definition entry_ok (kv : pykey * py) : Prop :=
  forallb is_scalar (key_text kv.1) = true /\ dumpable kv.2 = true.

Lemma dict_set_ok k v d :
  entry_ok (k, v) -> Forall entry_ok d -> Forall entry_ok (dict_set k v d).
Proof.
  intros Hkv. induction 1 as [|[k' v'] d Hx Hd IH]; simpl; [constructor; [done|constructor]|].
  destruct (decide (k = k')); constructor; auto.
Qed.

Lemma dict_update_ok d pairs :
  Forall entry_ok pairs -> Forall entry_ok d -> Forall entry_ok (dict_update d pairs).
Proof.
  unfold dict_update. intros Hp. revert d.
  induction Hp as [|[k v] pairs Hkv _ IH]; intros d Hd; simpl; [done|].
  apply IH. by apply dict_set_ok.
Qed.

Lemma dumpable_dict d : Forall entry_ok d -> dumpable (PyDict d) = true.
Proof.
  intros H. simpl. apply forallb_Forall. eapply Forall_impl; [exact H|].
  intros kv [H1 H2]. by rewrite H1, H2.
Qed.

Lemma dumpable_strs l :
  Forall (fun s => forallb is_scalar s = true) l ->
  forallb dumpable (PyStr <$> l) = true.
Proof. induction 1 as [|s l Hs _ IH]; [done|]. simpl. by rewrite Hs. Qed.

Lemma zip_ok ks vs :
  Forall (fun s => forallb is_scalar s = true) ks ->
  Forall (fun s => forallb is_scalar s = true) vs ->
  Forall entry_ok (zip (KStr <$> ks) (PyStr <$> vs)).
Proof.
  intros Hk. revert vs. induction Hk as [|k ks Hk _ IH]; intros vs Hv; [constructor|].
  destruct Hv as [|v vs Hv Hvs]; [constructor|]. simpl.
  constructor; [done|]. by apply IH.
Qed.

Lemma row_dict_dumpable fns row :
  Forall (fun s => forallb is_scalar s = true) fns ->
  Forall (fun s => forallb is_scalar s = true) row ->
  dumpable (row_dict fns row) = true.
Proof.
  intros Hf Hr. unfold row_dict.
  assert (Hd : Forall entry_ok (dict_of (zip (KStr <$> fns) (PyStr <$> row)))).
  { apply dict_update_ok; [by apply zip_ok|constructor]. }
  destruct (_ <? _)%nat; apply dumpable_dict.
  - apply dict_set_ok; [|done]. split; [done|]. simpl.
    apply dumpable_strs. by apply Forall_drop.
  - apply dict_update_ok; [|done]. apply Forall_fmap.
    eapply Forall_impl; [apply (Forall_drop _ _ _ Hf)|]. by intros s Hs.
Qed.

(** The rows [DictReader] makes of decoded text can all be dumped. *)
Lemma DictReader_dumpable c text rows :
  utf8_decode c = Some text ->
  DictReader (splitlines text) = Some rows ->
  forallb dumpable rows = true.
Proof.
  intros Hdec Hrows. apply utf8_decode_vals_scalar in Hdec.
  apply (splitlines_forallb is_scalar) in Hdec.
  unfold DictReader, reader in Hrows.
  destruct (reader_rows (splitlines text) parse_reset) as [rs|] eqn:E; [|done].
  apply (holds_reader_rows (fun c => is_scalar c = true)) in E.
  2:{ eapply Forall_impl; [exact Hdec|]. intros l. apply forallb_Forall. }
  2:{ apply holds_reset. }
  assert (E' : Forall (Forall (fun s => forallb is_scalar s = true)) rs).
  { eapply Forall_impl; [exact E|]. intros row Hrow.
    eapply Forall_impl; [exact Hrow|]. intros s. apply forallb_Forall. }
  destruct rs as [|fns rs]; injection Hrows as <-; [done|].
  inversion E' as [|? ? Hf Hrs]; subst.
  apply forallb_Forall, Forall_fmap.
  apply Forall_forall. intros row Hin.
  apply list_elem_of_filter in Hin as [_ Hin].
  apply row_dict_dumpable; [done|].
  by eapply Forall_forall in Hrs.
Qed.


Lemma DictReader_dicts ls rows :
  DictReader ls = Some rows -> Forall (fun v => exists d, v = PyDict d) rows.
Proof.
  unfold DictReader. destruct (reader ls) as [[|fns rs]|]; intros [= <-];
    [constructor|].
  apply Forall_fmap, Forall_forall. intros row _. simpl. unfold row_dict.
  destruct (_ <? _)%nat; eauto.
Qed.

Lemma utf8_encode_dumps v :
  dumpable v = true ->
  exists b, utf8_encode (dumps v) = Some b /\ bvals b = dumps v.
Proof.
  intros Hd. pose proof (dumps_ascii _ Hd) as Ha.
  destruct (of_vals_ascii _ Ha) as (b & Hb & Hv).
  exists b. unfold utf8_encode. by rewrite utf8_encode_vals_ascii.
Qed.

Lemma dict_set_fresh {K V} `{EqDecision K} (k : K) (v : V) d :
  k ∉ keys d -> dict_set k v d = d ++ [(k, v)].
Proof.
  induction d as [|[k' v'] d IH]; [done|]. simpl. intros Hk.
  apply not_elem_of_cons in Hk as [Hne Hk].
  destruct (decide (k = k')); [done|]. by rewrite IH.
Qed.

Lemma dict_update_fresh {K V} `{EqDecision K} (d pairs : list (K * V)) :
  NoDup (keys (d ++ pairs)) -> dict_update d pairs = d ++ pairs.
Proof.
  unfold dict_update. revert d. induction pairs as [|[k v] pairs IH]; intros d Hnd.
  { by rewrite app_nil_r. }
  simpl. rewrite dict_set_fresh.
  - rewrite IH; rewrite <- app_assoc; done.
  - unfold keys in *. rewrite List.map_app in Hnd. simpl in Hnd.
    apply NoDup_app in Hnd as (_ & Hd & _). intros Hin.
    apply (Hd k Hin). left.
Qed.

Lemma keys_zip_strs (ks : list str) (vs : list py) :
  (length ks <= length vs)%nat -> keys (zip (KStr <$> ks) vs) = KStr <$> ks.
Proof.
  revert vs. induction ks as [|k ks IH]; intros [|v vs] L; simpl in *; try done; try lia.
  f_equal. apply IH. lia.
Qed.

Lemma NoDup_KStr (ks : list str) : NoDup ks -> NoDup (KStr <$> ks).
Proof. apply NoDup_fmap_2. by intros ? ? [= ->]. Qed.

Lemma NoDup_take_of {A} n (l : list A) : NoDup l -> NoDup (take n l).
Proof.
  intros H. rewrite <- (take_drop n l) in H. by apply NoDup_app in H as (? & _ & _).
Qed.

Lemma zip_app_drop (ks : list pykey) (vs ws : list py) :
  zip ks (vs ++ ws) = zip ks vs ++ zip (drop (length vs) ks) ws.
Proof.
  revert vs. induction ks as [|k ks IH]; intros [|v vs]; simpl; try done.
  by rewrite IH.
Qed.

Lemma zip_replicate_None (ks : list str) :
  zip (KStr <$> ks) (replicate (length ks) PyNone)
  = (fun k => (KStr k, PyNone)) <$> ks.
Proof.
  induction ks as [|k ks IH]; [done|].
  cbn [length replicate fmap list_fmap zip zip_with]. f_equal. exact IH.
Qed.

(** With distinct field names and no cell too many, the dict of a row is
    its record. *)
Lemma row_dict_record header row :
  NoDup header -> (length row <= length header)%nat ->
  row_dict header row = csv_record header row.
Proof.
  intros Hnd Hlen. unfold row_dict, csv_record.
  destruct (length header <? length row)%nat eqn:E; [apply Nat.ltb_lt in E; lia|].
  f_equal. rewrite zip_app_drop, length_fmap.
  rewrite <- fmap_drop.
  replace (length header - length row)%nat with (length (drop (length row) header))
    by (rewrite length_drop; lia).
  rewrite zip_replicate_None.
  assert (Hz : zip (KStr <$> header) (PyStr <$> row)
               = zip (KStr <$> take (length row) header) (PyStr <$> row)).
  { clear. revert row. induction header as [|k ks IH]; intros [|v vs]; simpl; try done.
    by rewrite IH. }
  assert (Hk : keys (zip (KStr <$> header) (PyStr <$> row))
               = KStr <$> take (length row) header).
  { rewrite Hz. apply keys_zip_strs. rewrite length_take, length_fmap. lia. }
  unfold dict_of. rewrite (dict_update_fresh []).
  2:{ simpl. rewrite Hk. apply NoDup_KStr. by apply NoDup_take_of. }
  simpl. apply dict_update_fresh.
  unfold keys in *. rewrite List.map_app, Hk.
  assert (Hk2 : forall l : list str,
            List.map fst ((fun k : str => (KStr k, PyNone)) <$> l) = KStr <$> l).
  { intros l. induction l as [|x l IH]; [done|].
    change (KStr x :: List.map fst ((fun k : str => (KStr k, PyNone)) <$> l)
            = KStr x :: (KStr <$> l)).
    by rewrite IH. }
  rewrite Hk2, <- fmap_app, take_drop. by apply NoDup_KStr.
Qed.

Lemma reparse_zip (ks : list str) (cells : list py) :
  Forall (fun v => reparse v = v) cells ->
  List.map (fun kv : pykey * py => (KStr (key_text kv.1), reparse kv.2))
    (zip (KStr <$> ks) cells)
  = zip (KStr <$> ks) cells.
Proof.
  revert cells. induction ks as [|k ks IH]; intros [|v vs] Hc; try done.
  inversion Hc as [|? ? Hv Hvs]; subst.
  change (zip (KStr <$> k :: ks) (v :: vs))
    with ((KStr k, v) :: zip (KStr <$> ks) vs).
  cbn [List.map fst snd key_text]. by rewrite Hv, IH.
Qed.

(** [json.loads] gives such a record back as it is. *)
Lemma reparse_record header row :
  NoDup header -> (length row <= length header)%nat ->
  reparse (csv_record header row) = csv_record header row.
Proof.
  intros Hnd Hlen. unfold csv_record. cbn [reparse]. f_equal.
  set (cells := (PyStr <$> row) ++ replicate (length header - length row) PyNone).
  assert (Hcells : Forall (fun v => reparse v = v) cells).
  { unfold cells. apply Forall_app. split.
    - apply Forall_fmap, Forall_forall. done.
    - apply Forall_replicate. done. }
  assert (Hlenc : (length header <= length cells)%nat).
  { unfold cells. rewrite length_app, length_fmap, length_replicate. lia. }
  rewrite reparse_zip by done. unfold dict_of. rewrite (dict_update_fresh []); [done|].
  simpl. rewrite keys_zip_strs by done. by apply NoDup_KStr.
Qed.


Lemma converted_csv_loads c fn text rows :
  _is_likely_csv c fn = true ->
  utf8_decode c = Some text ->
  DictReader (splitlines text) = Some rows ->
  rows <> [] ->
  exists b, normalize c fn = inr b
    /\ utf8_encode (dumps (PyList rows)) = Some b
    /\ loads b = Loaded (reparse (PyList rows)).
Proof.
  intros Hcsv Hdec Hrows Hne.
  pose proof (DictReader_dumpable c text rows Hdec Hrows) as Hd.
  pose proof (DictReader_dicts _ _ Hrows) as Hdicts.
  destruct rows as [|x l]; [done|].
  inversion Hdicts as [|? ? [d ->] _]; subst.
  destruct (loads_dumps d l Hd) as (b & Hb & _ & Hl).
  exists b. split; [|done].
  unfold normalize, _convert_csv_to_json, _validate_json_content.
  by rewrite Hcsv, Hdec, Hrows, Hb, Hl.
Qed.

(** What the strict decoder accepts, the decoder that lets surrogates
    pass reads the same way. *)
Lemma utf8_strict_pass b s :
  utf8_decode_vals false b = Some s -> utf8_decode_vals true b = Some s.
Proof.
  assert (Hle : (length b <= length b)%nat) by lia.
  revert Hle. generalize (length b) at 2 as n. intros n.
  revert b s. induction n as [|n IH]; intros b s Hle.
  { destruct b; simpl in *; [done|lia]. }
  destruct b as [|b0 r]; [done|]. simpl in Hle.
  cbn [utf8_decode_vals].
  assert (Hstep : forall cp r' s,
            (length r' <= n)%nat ->
            cons cp <$> utf8_decode_vals false r' = Some s ->
            cons cp <$> utf8_decode_vals true r' = Some s).
  { intros cp r' s' L H.
    destruct (utf8_decode_vals false r') as [s0|] eqn:E; [|done].
    by rewrite (IH r' s0 L E). }
  destruct (b0 <? 128); [apply Hstep; lia|].
  destruct (b0 <? 194); [done|].
  destruct (b0 <? 224).
  { destruct r as [|b1 r1]; [done|]. destruct (is_cont b1); [|done].
    apply Hstep. simpl in Hle. lia. }
  destruct (b0 <? 240).
  { destruct r as [|b1 [|b2 r2]]; try done. cbv zeta. cbn [orb].
    destruct (is_cont b1 && is_cont b2 && _) eqn:E1; [|done].
    destruct (negb _); cbn [andb]; [|done].
    apply Hstep. simpl in Hle. lia. }
  destruct (b0 <? 245); [|done].
  destruct r as [|b1 [|b2 [|b3 r3]]]; try done. cbv zeta.
  destruct (is_cont b1 && is_cont b2 && is_cont b3 && _ && _); [|done].
  apply Hstep. simpl in Hle. lia.
Qed.

End NormalizerFacts.

Import Py.Json Py.Csv Datasets Values NormalizerFacts.

(** C7 (as stated, refuted): content that is not taken for CSV and is not
    valid UTF-8 can be accepted, and so can content that is valid UTF-8
    but not a JSON text.  [json.loads] chooses the encoding from the first
    bytes: the six bytes of [[]] in UTF-16 with a byte-order mark are not
    UTF-8 and are accepted; the two bytes [1] and NUL are valid UTF-8,
    their text is not JSON, and they are read as UTF-16 and accepted. *)
Lemma C7_counterexample :
  let utf16 := [Byte.xff; Byte.xfe; Byte.x5b; Byte.x00; Byte.x5d; Byte.x00] in
  let nul := [Byte.x31; Byte.x00] in
  (_is_likely_csv utf16 (u "d.json") = false
   /\ utf8_decode utf16 = None
   /\ normalize utf16 (u "d.json") = inr utf16)
  /\ (_is_likely_csv nul (u "d.json") = false
      /\ utf8_decode nul = Some [49; 0]
      /\ decode [49; 0] = Invalid
      /\ normalize nul (u "d.json") = inr nul).
Proof. repeat split; vm_compute; reflexivity. Qed.

(** C7 (amended): for content that is not taken for CSV and that
    [json.loads] reads as UTF-8, normalization fails with EncodingError,
    the [UnicodeDecodeError] of [json.loads] that nothing catches, when
    the content is not UTF-8 even with encoded surrogates let through; it
    fails with FormatError when the content is valid UTF-8 and its text
    is not a JSON document; and it returns the content as it is when the
    content is valid UTF-8 and its text is a JSON document.  It fails in
    no other way. *)
Theorem C7_non_csv_content_outcomes c fn :
  _is_likely_csv c fn = false ->
  detect_encoding c = UTF8 ->
  (utf8_decode_vals true (bvals c) = None ->
     normalize c fn = inl UnicodeDecodeError
     /\ Spec.kind_of UnicodeDecodeError = Spec.EncodingError)
  /\ (forall text,
        utf8_decode c = Some text ->
        (forall v, decode text <> Scanned v) ->
        normalize c fn = inl (HTTPException 400 (u "Invalid JSON format: "))
        /\ Spec.kind_of (HTTPException 400 (u "Invalid JSON format: "))
           = Spec.FormatError)
  /\ (forall text v,
        utf8_decode c = Some text ->
        decode text = Scanned v ->
        normalize c fn = inr c)
  /\ (forall e,
        normalize c fn = inl e ->
        e = UnicodeDecodeError
        \/ e = HTTPException 400 (u "Invalid JSON format: ")).
Proof.
  intros Hcsv Henc.
  unfold normalize, _validate_json_content, loads. rewrite Hcsv, Henc.
  unfold decode_surrogatepass. split; [|split; [|split]].
  - intros ->. done.
  - intros text Hdec Hbad. apply utf8_strict_pass in Hdec. rewrite Hdec.
    split; [|reflexivity].
    destruct (decode text) as [v| |] eqn:E; [by destruct (Hbad v)|done|done].
  - intros text v Hdec Hv. apply utf8_strict_pass in Hdec. by rewrite Hdec, Hv.
  - intros e. destruct (utf8_decode_vals true (bvals c)) as [text|].
    + destruct (decode text); intros [= <-]; auto.
    + intros [= <-]. auto.
Qed.

Lemma C7_non_csv_content_outcomes_witness :
  normalize (Examples.b "{oops") (u "d.json")
  = inl (HTTPException 400 (u "Invalid JSON format: ")).
Proof.
  destruct (C7_non_csv_content_outcomes (Examples.b "{oops") (u "d.json")
              ltac:(vm_compute; reflexivity) ltac:(vm_compute; reflexivity))
    as (_ & H & _).
  destruct (H (u "{oops") ltac:(vm_compute; reflexivity)) as [E _].
  - intros v Hv. vm_compute in Hv. discriminate Hv.
  - exact E.
Defined.

(** C8 (as stated, refuted): the keys of the objects are not always the
    header row.  With a name twice in the header the object has it once,
    under the value of the last such column; a row with more cells than
    the header gets one more key, written [null], for the surplus. *)
Lemma C8_counterexample :
  let dup := ("a,a" ++ Examples.nl ++ "1,2")%string in
  let long := ("a" ++ Examples.nl ++ "1,2")%string in
  (Csv.reader (splitlines (u dup)) = Some [[u "a"; u "a"]; [u "1"; u "2"]]
   /\ exists b,
        normalize (Examples.b dup) (u "t.csv") = inr b
        /\ loads b = Loaded (PyList [PyDict [(KStr (u "a"), PyStr (u "2"))]])
        /\ keys [(KStr (u "a"), PyStr (u "2"))] <> KStr <$> [u "a"; u "a"])
  /\ (Csv.reader (splitlines (u long)) = Some [[u "a"]; [u "1"; u "2"]]
      /\ exists b,
           normalize (Examples.b long) (u "t.csv") = inr b
           /\ loads b
              = Loaded (PyList [PyDict [(KStr (u "a"), PyStr (u "1"));
                                        (KStr (u "null"), PyList [PyStr (u "2")])]])
           /\ keys [(KStr (u "a"), PyStr (u "1"));
                    (KStr (u "null"), PyList [PyStr (u "2")])]
              <> KStr <$> [u "a"]).
Proof.
  intros dup long. split.
  - split; [vm_compute; reflexivity|].
    destruct (normalize (Examples.b dup) (u "t.csv")) as [e|b] eqn:E;
      [exfalso; vm_compute in E; discriminate E|].
    exists b. split; [done|].
    vm_compute in E. injection E as <-.
    split; [vm_compute; reflexivity|]. discriminate.
  - split; [vm_compute; reflexivity|].
    destruct (normalize (Examples.b long) (u "t.csv")) as [e|b] eqn:E;
      [exfalso; vm_compute in E; discriminate E|].
    exists b. split; [done|].
    vm_compute in E. injection E as <-.
    split; [vm_compute; reflexivity|]. discriminate.
Qed.

(** C8 (amended): for content taken for CSV that is valid UTF-8 and that
    the reader accepts, with pairwise distinct header names, no data row
    longer than the header and at least one data row that is not empty,
    normalization gives bytes that parse as a JSON array with one object
    for each non-empty data row, in order; each object has the header
    names as its keys, in header order, with the cells of the row as
    strings and [null] for the cells the row lacks. *)
Theorem C8_csv_rows_become_objects c fn text header rows :
  _is_likely_csv c fn = true ->
  utf8_decode c = Some text ->
  Csv.reader (splitlines text) = Some (header :: rows) ->
  NoDup header ->
  Forall (fun row => (length row <= length header)%nat) rows ->
  filter (fun row => row <> []) rows <> [] ->
  exists b objs,
    normalize c fn = inr b
    /\ loads b = Loaded (PyList objs)
    /\ objs = csv_record header <$> filter (fun row => row <> []) rows
    /\ length objs = length (filter (fun row => row <> []) rows)
    /\ Forall (fun o => exists d, o = PyDict d /\ keys d = KStr <$> header) objs.
Proof.
  intros Hcsv Hdec Hread Hnd Hlen Hne.
  assert (Hrows : DictReader (splitlines text)
                  = Some (row_dict header <$> filter (fun row => row <> []) rows)).
  { unfold DictReader. by rewrite Hread. }
  set (kept := filter (fun row => row <> []) rows) in *.
  assert (Hkept : Forall (fun row => (length row <= length header)%nat) kept).
  { apply Forall_forall. intros row [_ Hin]%list_elem_of_filter.
    by eapply Forall_forall in Hlen. }
  destruct (converted_csv_loads c fn text _ Hcsv Hdec Hrows) as (b & Hb & _ & Hl).
  { destruct kept; done. }
  exists b, (csv_record header <$> kept).
  split; [done|]. split; [|split; [done|split]].
  - rewrite Hl. cbn [reparse]. do 2 f_equal.
    change (List.map reparse (row_dict header <$> kept))
      with (reparse <$> (row_dict header <$> kept)).
    rewrite <- list_fmap_compose. apply Forall_fmap_ext_1.
    eapply Forall_impl; [exact Hkept|]. intros row Hrow. simpl.
    rewrite row_dict_record by done. by apply reparse_record.
  - apply length_fmap.
  - apply Forall_fmap. eapply Forall_impl; [exact Hkept|]. intros row Hrow.
    eexists. split; [reflexivity|]. apply keys_zip_strs.
    rewrite length_app, length_fmap, length_replicate. lia.
Qed.

Lemma C8_csv_rows_become_objects_witness :
  exists b,
    normalize
      (Examples.b ("name,age" ++ Examples.nl ++ "Ann,41" ++ Examples.nl
                   ++ Examples.nl ++ "Bob"))
      (u "people.csv") = inr b
    /\ loads b
       = Loaded (PyList
           [PyDict [(KStr (u "name"), PyStr (u "Ann")); (KStr (u "age"), PyStr (u "41"))];
            PyDict [(KStr (u "name"), PyStr (u "Bob")); (KStr (u "age"), PyNone)]]).
Proof.
  destruct (C8_csv_rows_become_objects
           (Examples.b ("name,age" ++ Examples.nl ++ "Ann,41" ++ Examples.nl
                        ++ Examples.nl ++ "Bob"))
           (u "people.csv")
           (u ("name,age" ++ Examples.nl ++ "Ann,41" ++ Examples.nl
               ++ Examples.nl ++ "Bob"))
           [u "name"; u "age"]
           [[u "Ann"; u "41"]; []; [u "Bob"]]
           ltac:(vm_compute; reflexivity) ltac:(vm_compute; reflexivity)
           ltac:(vm_compute; reflexivity)
           ltac:(apply (bool_decide_unpack _); vm_compute; exact I)
           ltac:(apply (bool_decide_unpack _); vm_compute; exact I)
           ltac:(vm_compute; discriminate))
    as (b & objs & Hn & Hl & -> & _).
  exists b. split; [exact Hn|exact Hl].
Defined.

(** X14: the CSV conversion fails in three ways only, for undecodable
    bytes (400), for input the reader refuses ([csv.Error], not caught)
    and for no data row (400); re-encoding the JSON text never fails, and
    what the conversion returns is ASCII only. *)
Theorem X14_csv_conversion_outcomes c :
  match _convert_csv_to_json c with
  | inr b => forallb is_ascii (bvals b) = true
  | inl e =>
      e = HTTPException 400 (u "Invalid CSV encoding")
      \/ e = CsvError
      \/ e = HTTPException 400 (u "CSV file is empty")
  end.
Proof.
  unfold _convert_csv_to_json.
  destruct (utf8_decode c) as [text|] eqn:Hdec; [|auto].
  destruct (DictReader (splitlines text)) as [rows|] eqn:Hrows; [|auto].
  pose proof (DictReader_dumpable c text rows Hdec Hrows) as Hd.
  destruct rows as [|d l]; [auto|].
  destruct (utf8_encode_dumps (PyList (d :: l)) Hd) as (b & -> & Hb).
  rewrite Hb. by apply dumps_ascii.
Qed.

(** X15: a converted CSV always passes validation.  For content taken
    for CSV, whenever the conversion has rows, [json.loads] accepts the
    bytes the conversion wrote, so normalization succeeds with them; it
    reads them as the list of the row dicts, with the keys as strings and
    a repeated key kept once ([reparse]). *)
Theorem X15_converted_csv_validates c fn text rows :
  _is_likely_csv c fn = true ->
  utf8_decode c = Some text ->
  DictReader (splitlines text) = Some rows ->
  rows <> [] ->
  exists b, normalize c fn = inr b
    /\ utf8_encode (dumps (PyList rows)) = Some b
    /\ loads b = Loaded (reparse (PyList rows)).
Proof.
  intros Hcsv Hdec Hrows Hne.
  pose proof (DictReader_dumpable c text rows Hdec Hrows) as Hd.
  pose proof (DictReader_dicts _ _ Hrows) as Hdicts.
  destruct rows as [|x l]; [done|].
  inversion Hdicts as [|? ? [d ->] _]; subst.
  destruct (loads_dumps d l Hd) as (b & Hb & _ & Hl).
  exists b. split; [|done].
  unfold normalize, _convert_csv_to_json, _validate_json_content.
  by rewrite Hcsv, Hdec, Hrows, Hb, Hl.
Qed.

Lemma X15_converted_csv_validates_witness :
  exists b,
    normalize (Examples.b ("name,age" ++ Examples.nl ++ "Ann,41")) (u "people.csv")
    = inr b
    /\ utf8_encode (dumps (PyList
         [PyDict [(KStr (u "name"), PyStr (u "Ann")); (KStr (u "age"), PyStr (u "41"))]]))
       = Some b
    /\ loads b = Loaded (reparse (PyList
         [PyDict [(KStr (u "name"), PyStr (u "Ann")); (KStr (u "age"), PyStr (u "41"))]])).
Proof.
  apply (X15_converted_csv_validates
           (Examples.b ("name,age" ++ Examples.nl ++ "Ann,41")) (u "people.csv")
           (u ("name,age" ++ Examples.nl ++ "Ann,41"))).
  - vm_compute; reflexivity.
  - vm_compute; reflexivity.
  - vm_compute; reflexivity.
  - discriminate.
Defined.

(** X16: a document that opens with a bracket or a brace is never taken
    for CSV by its content: unless the file name ends in [.csv], it goes
    to validation as it is, and is returned unchanged when it passes. *)
Theorem X16_bracketed_document_is_not_csv (c0 : Byte.byte) (rest : bytes) fn :
  endswith (lower fn) (u ".csv") = false ->
  Byte.to_N c0 = 91 \/ Byte.to_N c0 = 123 ->
  _is_likely_csv (c0 :: rest) fn = false
  /\ normalize (c0 :: rest) fn
     = match _validate_json_content (c0 :: rest) with
       | inl e => inl e
       | inr _ => inr (c0 :: rest)
       end.
Proof.
  intros Hfn Hc0.
  assert (H : _is_likely_csv (c0 :: rest) fn = false).
  { unfold _is_likely_csv. rewrite Hfn. cbn [split_on].
    assert (Hnl : (Byte.to_N c0 =? 10) = false) by (destruct Hc0 as [-> | ->]; done).
    rewrite Hnl.
    assert (Hhd : exists seg,
              hd [] (match split_on (fun b => Byte.to_N b =? 10) rest with
                     | [] => [[c0]]
                     | seg :: segs => (c0 :: seg) :: segs
                     end) = c0 :: seg).
    { destruct (split_on _ rest); simpl; eauto. }
    destruct Hhd as (seg & ->).
    unfold utf8_decode. cbn [bvals List.map utf8_decode_vals].
    assert (Hlt : (Byte.to_N c0 <? 128) = true) by (destruct Hc0 as [-> | ->]; done).
    rewrite Hlt.
    destruct (utf8_decode_vals false (List.map Byte.to_N seg)) as [s|]; [|done].
    cbn [fmap option_fmap option_map]. apply andb_false_iff. right.
    apply negb_false_iff, existsb_exists.
    change (u "{}[]") with [123; 125; 91; 93].
    exists (Byte.to_N c0). split.
    - destruct Hc0 as [-> | ->]; simpl; auto.
    - unfold contains. cbn [existsb]. by rewrite N.eqb_refl. }
  split; [exact H|]. unfold normalize. by rewrite H.
Qed.

Lemma X16_bracketed_document_is_not_csv_witness :
  _is_likely_csv (Examples.b "[1,2]") (u "data.json") = false
  /\ normalize (Examples.b "[1,2]") (u "data.json")
     = match _validate_json_content (Examples.b "[1,2]") with
       | inl e => inl e
       | inr _ => inr (Examples.b "[1,2]")
       end.
Proof.
  apply (X16_bracketed_document_is_not_csv _ _ (u "data.json")).
  - vm_compute; reflexivity.
  - left. vm_compute; reflexivity.
Defined.
